(** * A retrieval-augmented chat backend: model and properties

    Shallow embedding of the decision logic of the chat backend
    ([backend/app/services/vector_store_service.py],
    [backend/app/services/llm_service.py],
    [backend/app/api/v1/endpoints/chat.py] and [backend/app/main.py]).

    Conventions of the model.
    - A Python [str] is a [string] whose characters are the code points
      below 256; [len] is [String.length].
    - A Python [int] is a [Z]; a [float] that is only stored and passed
      on (embedding components, timestamps, temperatures) is a [Q].
    - A [dict] with string keys is a [gmap string _].
    - Calls to the outside world (Bedrock, S3 Vectors, the chat
      completion API, sockets, the clock, the random generator) are
      fields of an environment record: the answer to a call depends
      on the call only.  Every call made and every warning or error
      logged is recorded, in order, in a trace. *)

From Stdlib Require Import ZArith QArith Lia List String Ascii Bool.
From stdpp Require Import gmap strings list pretty.

Local Open Scope list_scope.

(** ** Python strings *)

Module PyStr.

(** [str.isspace] on one character (code points below 256). *)
Definition isspace (c : ascii) : bool :=
  let n := N_of_ascii c in
  ((9 <=? n) && (n <=? 13) || (28 <=? n) && (n <=? 32)
   || (n =? 133) || (n =? 160))%N.

(** [str.lower] on one character (code points below 256). *)
Definition lower_char (c : ascii) : ascii :=
  let n := N_of_ascii c in
  if ((65 <=? n) && (n <=? 90)
      || (192 <=? n) && (n <=? 222) && negb (n =? 215))%N
  then ascii_of_N (n + 32) else c.

Fixpoint lower (s : string) : string :=
  match s with
  | "" => ""
  | String c s' => String (lower_char c) (lower s')
  end.

Fixpoint lstrip (s : string) : string :=
  match s with
  | "" => ""
  | String c s' => if isspace c then lstrip s' else s
  end.

Fixpoint rstrip (s : string) : string :=
  match s with
  | "" => ""
  | String c s' =>
      match rstrip s' with
      | "" => if isspace c then "" else String c ""
      | r => String c r
      end
  end.

Definition strip (s : string) : string := rstrip (lstrip s).

(** [s[:n]] for [0 <= n]. *)
Fixpoint str_take (n : nat) (s : string) : string :=
  match n, s with
  | S n', String c s' => String c (str_take n' s')
  | _, _ => ""
  end.

(** [sep.join(l)]. *)
Fixpoint join (sep : string) (l : list string) : string :=
  match l with
  | [] => ""
  | [x] => x
  | x :: l' => x +:+ sep +:+ join sep l'
  end.

(** [s.split()]: the maximal runs of non-space characters, in order.
    [cur] is the run being read. *)
Fixpoint split_go (cur : string) (s : string) : list string :=
  match s with
  | "" => if decide (cur = "") then [] else [cur]
  | String c s' =>
      if isspace c
      then (if decide (cur = "") then [] else [cur]) ++ split_go "" s'
      else split_go (cur +:+ String c "") s'
  end.

Definition split (s : string) : list string := split_go "" s.

(** [len(s)] as a Python integer. *)
Definition len (s : string) : Z := Z.of_nat (String.length s).

End PyStr.

Import PyStr.

(** ** Values, exceptions and events *)

(** A JSON scalar, as found in a realtime message or in the metadata
    of a stored vector. *)
Inductive Value :=
| VNone
| VBool (b : bool)
| VInt (n : Z)
| VFloat (x : Q)
| VStr (s : string).

#[global] Instance Q_eq_dec : EqDecision Q.
Proof. solve_decision. Defined.

#[global] Instance Value_eq_dec : EqDecision Value.
Proof. solve_decision. Defined.

Inductive exn :=
| HTTPException (status_code : Z) (detail : string)
| Exception (type_name : string) (msg : string).

Inductive result (A : Type) :=
| Ok (a : A)
| Raise (e : exn).
Arguments Ok {A} a.
Arguments Raise {A} e.

(** [settings] of [app/core/config.py] (the fields the model reads). *)
Record Settings := {
  AWS_S3_VECTOR_STORE_BUCKET : string;
  DOC_INDEX_NAME : string;
  EMBEDDING_MODEL_ID : string;
  VECTOR_DIMENSION : Z
}.

(** The metadata filter language of the vector store, as far as the
    code uses it: [{"$and": [...]}] and [{key: {"$eq": v}}]. *)
#[warnings="-register-all"]
Inductive Filter :=
| FEq (key : string) (v : Value)
| FAnd (fs : list Filter).

(** Keyword arguments of [s3vectors.query_vectors]. *)
Record QueryRequest := {
  vectorBucketName : string;
  indexName : string;
  queryVector : list Q;
  returnMetadata : bool;
  filter_expr : Filter;
  topK : Z
}.

(** One entry of the ["vectors"] list of a query response; [None] is
    an absent ["metadata"] key. *)
Record VectorData := {
  key : string;
  metadata : option (gmap string Value)
}.

(** A query response; [None] is an absent ["vectors"] key. *)
Record QueryResponse := {
  vectors : option (list VectorData)
}.

(** Keyword arguments of [chat.completions.create]; [messages] is the
    list of (role, content) pairs. *)
Record ChatRequest := {
  model : string;
  messages : list (string * string);
  max_tokens : Z;
  temperature : Q
}.

Definition WebSocket := nat.

(** The JSON frames sent to a realtime client; [FrameUnknownType t]
    is the error frame whose message names the unknown type [t]. *)
Inductive Frame :=
| FrameError (message : string)
| FrameUnknownType (message_type : option Value)
| FrameTyping (isTyping : bool)
| FramePong
| FrameBotResponse (text : string) (isVoice : Value) (timestamp : Q).

(** An uploaded audio file, identified by a handle. *)
Definition UploadFile := nat.

Inductive Level := WARNING | ERROR.

(** What the program does to the outside world.  A log record is
    identified by its level and its format string as written in the
    source (holes included); info and debug records are not traced. *)
Inductive Event :=
| InvokeModel (modelId : string) (inputText : string)
| QueryVectors (req : QueryRequest)
| ChatCompletion (req : ChatRequest)
| Transcribe (audio : UploadFile)
| Synthesize (text : string)
| Accept (ws : WebSocket)
| SendText (ws : WebSocket) (frame : Frame)
| Log (level : Level) (fmt : string).

(** The mutable state: the connection manager's list and the trace. *)
Record World := {
  active_connections : list WebSocket;
  trace : list Event
}.

(** ** The monad of effectful code: state and exceptions *)

Definition IO (A : Type) : Type := World -> result A * World.

#[global] Instance IO_ret : MRet IO := fun A a w => (Ok a, w).

#[global] Instance IO_bind : MBind IO := fun A B f m w =>
  match m w with
  | (Ok a, w') => f a w'
  | (Raise e, w') => (Raise e, w')
  end.

Definition raise {A} (e : exn) : IO A := fun w => (Raise e, w).

(** [try: m except Exception as e: h e]. *)
Definition try_except {A} (m : IO A) (h : exn -> IO A) : IO A := fun w =>
  match m w with
  | (Ok a, w') => (Ok a, w')
  | (Raise e, w') => h e w'
  end.

Definition emit (ev : Event) : IO unit := fun w =>
  (Ok tt, {| active_connections := active_connections w;
             trace := trace w ++ [ev] |}).

(** Make a call to the outside world: record it, then answer it. *)
Definition call {A} (ev : Event) (r : result A) : IO A := fun w =>
  (r, {| active_connections := active_connections w;
         trace := trace w ++ [ev] |}).

Definition get_connections : IO (list WebSocket) := fun w =>
  (Ok (active_connections w), w).

Definition set_connections (l : list WebSocket) : IO unit := fun w =>
  (Ok tt, {| active_connections := l; trace := trace w |}).

Definition logger_warning (fmt : string) : IO unit := emit (Log WARNING fmt).
Definition logger_error (fmt : string) : IO unit := emit (Log ERROR fmt).

(** [for x in l: body x]. *)
Fixpoint for_each {A} (l : list A) (body : A -> IO unit) : IO unit :=
  match l with
  | [] => mret tt
  | x :: l' => body x ;; for_each l' body
  end.

(** [try: m finally: cleanup]: the cleanup runs either way, and an
    exception of its own replaces the outcome of [m]. *)
Definition try_finally {A} (m : IO A) (cleanup : IO unit) : IO A := fun w =>
  match m w with
  | (r, w') =>
      match cleanup w' with
      | (Ok _, w'') => (r, w'')
      | (Raise e, w'') => (Raise e, w'')
      end
  end.

(** ** The paths of [AudioService] ([app/services/audio_service.py]) *)

Module AudioPaths.

(** [s.startswith("/")] and [s.endswith("/")]. *)
Definition startswith_sep (s : string) : bool :=
  match s with
  | String "/" _ => true
  | _ => false
  end.

Fixpoint endswith_sep (s : string) : bool :=
  match s with
  | "" => false
  | String c "" => bool_decide (c = "/"%char)
  | String _ s' => endswith_sep s'
  end.

(** [os.path.join(a, b)] on POSIX. *)
Definition os_path_join (a b : string) : string :=
  if startswith_sep b then b
  else if bool_decide (a = "") || endswith_sep a then a +:+ b
  else a +:+ "/" +:+ b.

(** [os.path.basename(p)] on POSIX: what follows the last ["/"];
    [cur] is what has been read since the last one. *)
Fixpoint basename_go (cur : string) (p : string) : string :=
  match p with
  | "" => cur
  | String c p' =>
      if bool_decide (c = "/"%char) then basename_go "" p'
      else basename_go (cur +:+ String c "") p'
  end.

Definition os_path_basename (p : string) : string := basename_go "" p.

(** The outside world of the audio files: [settings.BASE_DIR] as a
    string, the answer of [os.makedirs] and the string of
    [uuid.uuid4()]. *)
Record AudioEnv := {
  BASE_DIR : string;
  os_makedirs : string → result unit;
  audio_uuid4 : string
}.

(** A call that leaves no trace. *)
Definition untraced {A} (r : result A) : IO A := λ w, (r, w).

Definition create_temp_audio_file (env : AudioEnv) (extension : string)
    : IO string :=
  try_except
    (let temp_dir := os_path_join (os_path_join (BASE_DIR env) "static") "audio" in
     untraced (os_makedirs env temp_dir);;
     let unique_id := audio_uuid4 env in
     let filename := "audio_" +:+ unique_id +:+ "." +:+ extension in
     let file_path := os_path_join temp_dir filename in
     mret file_path)
    (λ e,
       logger_error "Failed to create temporary audio file: {e}";;
       raise e).

Definition get_audio_url (file_path : string) : IO string :=
  try_except
    (let filename := os_path_basename file_path in
     mret ("/static/audio/" +:+ filename))
    (λ e,
       logger_error "Failed to get audio URL: {e}";;
       raise e).

(** The directory [create_app] of [app/main.py] serves under
    ["/static"]. *)
Definition static_dir (env : AudioEnv) : string :=
  os_path_join (BASE_DIR env) "static".

End AudioPaths.

(** ** The outside world *)

(** Each field answers one kind of call, either with a value or with
    the exception the call raises.
    - [bedrock_invoke_model modelId inputText]: the parsed response
      body, reduced to its ["embedding"] key ([None] when absent);
    - [openai_chat_create]: the content of the first choice;
    - [audio_files extension]: the base directory, [os.makedirs] and
      [uuid.uuid4] as the creation of a temporary file with this
      extension finds them (a request creates at most one file for an
      extension);
    - [save_upload audio path]: opening the file at [path], reading
      the upload and writing it there;
    - [whisper_transcribe audio]: opening the temporary file that
      holds the upload and transcribing it, before [strip];
    - [os_remove path]: [os.path.exists] and, for a file that exists,
      [os.remove];
    - [tts_synthesize text output_path]: the speech request and the
      writing of its bytes to the output file;
    - [datetime_now_hour], [random_choice], [time_time]: the clock
      and the random generator ([random_choice] is read modulo the
      length of the sequence chosen from). *)
Record Env := {
  settings : Settings;
  bedrock_invoke_model : string -> string -> result (option (list Q));
  s3vectors_query_vectors : QueryRequest -> result QueryResponse;
  openai_chat_create : ChatRequest -> result string;
  audio_files : string -> AudioPaths.AudioEnv;
  save_upload : UploadFile -> string -> result unit;
  whisper_transcribe : UploadFile -> result string;
  os_remove : string -> result unit;
  tts_synthesize : string -> string -> result unit;
  websocket_accept : WebSocket -> result unit;
  websocket_send_text : WebSocket -> Frame -> result unit;
  datetime_now_hour : Z;
  random_choice : nat;
  time_time : Q
}.

(** ** [VectorStoreService] *)

Module VectorStoreService.

(** One iteration of the loop of [chunk_text]; the state is
    [(chunks, current_chunk, current_size)]. *)
Definition chunk_step (chunk_size : Z)
    (st : list string * list string * Z) (word : string)
    : list string * list string * Z :=
  let '(chunks, current_chunk, current_size) := st in
  if (current_size + len word + 1 >? chunk_size)%Z
     && negb (bool_decide (current_chunk = []))
  then (chunks ++ [join " " current_chunk], [word], len word)
  else (chunks, current_chunk ++ [word], (current_size + len word + 1)%Z).

Definition chunk_text (text : string) (chunk_size : Z) : list string :=
  let words := split text in
  let '(chunks, current_chunk, _) :=
    fold_left (chunk_step chunk_size) words ([], [], 0%Z) in
  if bool_decide (current_chunk = []) then chunks
  else chunks ++ [join " " current_chunk].

(** [l[:d]] for a Python integer [d]. *)
Definition slice_to {A} (d : Z) (l : list A) : list A :=
  if (0 <=? d)%Z then take (Z.to_nat d) l
  else take (Z.to_nat (Z.of_nat (length l) + d)) l.

(** The body of the loop of [get_embeddings] for one text. *)
Definition embed_one (env : Env) (text : string) : IO (list Q) :=
  let dimension := VECTOR_DIMENSION (settings env) in
  try_except
    (response_body ← call (InvokeModel (EMBEDDING_MODEL_ID (settings env)) text)
                          (bedrock_invoke_model env
                             (EMBEDDING_MODEL_ID (settings env)) text);
     match response_body with
     | None =>
         logger_error "Unexpected response format from Bedrock: {response_body}";;
         raise (Exception "ValueError" "No embedding in response")
     | Some embedding =>
         let n := Z.of_nat (length embedding) in
         if (n >? dimension)%Z then
           mret (slice_to dimension embedding)
         else if (n <? dimension)%Z then
           logger_warning "Embedding dimension {len(embedding)} is smaller than required {settings.VECTOR_DIMENSION}";;
           mret (embedding ++ replicate (Z.to_nat (dimension - n)) 0%Q)
         else
           mret embedding
     end)
    (fun e =>
       logger_error "Failed to generate embedding for chunk {i+1}: {e}";;
       logger_error "Text preview: {text[:100]}...";;
       raise e).

Fixpoint get_embeddings (env : Env) (texts : list string)
    : IO (list (list Q)) :=
  match texts with
  | [] => mret []
  | text :: texts' =>
      embedding ← embed_one env text;
      embeddings ← get_embeddings env texts';
      mret (embedding :: embeddings)
  end.

(** The request [query_vectors] sends to the store. *)
Definition query_request (env : Env) (query_vector : list Q)
    (organisation_id project_id : Value) (limit : Z) : QueryRequest :=
  {| vectorBucketName := AWS_S3_VECTOR_STORE_BUCKET (settings env);
     indexName := DOC_INDEX_NAME (settings env);
     queryVector := query_vector;
     returnMetadata := true;
     filter_expr := FAnd [FEq "organisation_id" organisation_id;
                          FEq "project_id" project_id];
     topK := limit |}.

Definition query_vectors (env : Env) (query_vector : list Q)
    (organisation_id project_id : Value) (limit : Z) : IO QueryResponse :=
  try_except
    (let req := query_request env query_vector organisation_id project_id limit in
     call (QueryVectors req) (s3vectors_query_vectors env req))
    (fun e =>
       logger_error "Failed to query vectors: {e}";;
       raise e).

End VectorStoreService.

(** ** [LLMService] *)

Module LLMService.

Definition nl : string := String "010"%char "".

(** The system instruction of [generate_response]. *)
Definition answer_prompt (context : string) : string :=
  "You are a helpful assistant. ONLY use the provided context to answer the user's question. If the context does not contain relevant information to answer the question, respond with exactly: 'No context found for your query.' Do not provide general information or suggestions."
  +:+ nl +:+ nl +:+ "Context:" +:+ nl +:+ context.

Definition answer_request (query context : string) : ChatRequest :=
  {| model := "gpt-3.5-turbo";
     messages := [("system", answer_prompt context); ("user", query)];
     max_tokens := 500;
     temperature := 7 # 10 |}.

Definition generate_response (env : Env) (query context : string) : IO string :=
  try_except
    (let req := answer_request query context in
     call (ChatCompletion req) (openai_chat_create env req))
    (fun e =>
       logger_error "Failed to generate AI response: {e}";;
       logger_error "LLM error type: {type(e)}";;
       raise e).

Definition detect_prompt : string :=
  "You are a language detection expert. Analyze the following text and respond with ONLY the language name in English (e.g., 'English', 'Spanish', 'French', 'German', 'Chinese', 'Japanese', 'Korean', 'Arabic', 'Hindi', 'Russian', etc.). Do not include any other text or explanations.".

Definition detect_request (text : string) : ChatRequest :=
  {| model := "gpt-3.5-turbo";
     messages := [("system", detect_prompt); ("user", str_take 500 text)];
     max_tokens := 50;
     temperature := 1 # 10 |}.

Definition _detect_language (env : Env) (text : string) : IO string :=
  try_except
    (let req := detect_request text in
     content ← call (ChatCompletion req) (openai_chat_create env req);
     mret (strip content))
    (fun e =>
       logger_warning "Language detection failed: {e}, defaulting to 'Unknown'";;
       mret "Unknown").

Definition translate_prompt (target_language source_language : string) : string :=
  if bool_decide (source_language = "") then
    "You are a professional translator. Detect the language of the following text and translate it to "
    +:+ target_language
    +:+ ". Maintain the original meaning, tone, and formatting. Return only the translated text without any explanations or additional text."
  else
    "You are a professional translator. Translate the following text from "
    +:+ source_language +:+ " to " +:+ target_language
    +:+ ". Maintain the original meaning, tone, and formatting. Return only the translated text without any explanations or additional text.".

Definition translate_request (content target_language source_language : string)
    : ChatRequest :=
  {| model := "gpt-3.5-turbo";
     messages := [("system", translate_prompt target_language source_language);
                  ("user", content)];
     max_tokens := 2000;
     temperature := 3 # 10 |}.

(** The dictionary returned by [translate_content]
    ([translation_confidence] is the constant 0.95). *)
Record Translation := {
  translated_content : string;
  source_language : string;
  target_language : string
}.

(** [source_language] is a string here: the one caller passes the
    detected language, and an empty string is as falsy as [None]. *)
Definition translate_content (env : Env)
    (content target source : string) : IO Translation :=
  try_except
    (let req := translate_request content target source in
     translated_text ← call (ChatCompletion req) (openai_chat_create env req);
     source' ← (if bool_decide (source = "")
                then _detect_language env content
                else mret source);
     mret {| translated_content := translated_text;
             source_language := source';
             target_language := target |})
    (fun e =>
       logger_error "Failed to translate content: {e}";;
       logger_error "Translation error type: {type(e)}";;
       raise e).

Definition pure_greetings : list string :=
  ["hello"; "hi"; "hey"; "greetings";
   "good morning"; "good afternoon"; "good evening";
   "how are you"; "how do you do"].

(** The loop that sets [is_pure_greeting]. *)
Definition is_pure_greeting (query : string) : bool :=
  let query_lower := strip (lower query) in
  existsb (fun greeting =>
             bool_decide (query_lower = greeting)
             || bool_decide (query_lower = greeting +:+ "!"))
          pure_greetings.

Definition time_greeting (current_hour : Z) : string :=
  if (current_hour <? 12)%Z then "Good morning"
  else if (current_hour <? 17)%Z then "Good afternoon"
  else "Good evening".

Definition greetings (time_greeting : string) : list string :=
  [time_greeting +:+ "! How can I help you today?";
   "Hello! " +:+ time_greeting +:+ "! I'm here to assist you. What would you like to know?";
   "Hi there! " +:+ time_greeting +:+ "! How can I be of service today?";
   "Greetings! " +:+ time_greeting +:+ "! What can I help you with?";
   "Hello! " +:+ time_greeting +:+ "! I'm ready to help. What do you need assistance with?"].

Definition _generate_greeting_response (env : Env) (query : string) : string :=
  let l := greetings (time_greeting (datetime_now_hour env)) in
  nth (random_choice env mod length l) l "".

Definition _generate_no_context_response (query : string) : string :=
  "No context found for your query.".

(** [[chunk for chunk in relevant_chunks if len(chunk.strip()) > 20]];
    a chunk that is not a string has no [strip]. *)
Fixpoint meaningful (relevant_chunks : list Value) : IO (list string) :=
  match relevant_chunks with
  | [] => mret []
  | VStr chunk :: rest =>
      kept ← meaningful rest;
      mret (if (len (strip chunk) >? 20)%Z then chunk :: kept else kept)
  | _ :: _ =>
      raise (Exception "AttributeError" "object has no attribute 'strip'")
  end.

Definition process_query_with_context (env : Env)
    (query : string) (relevant_chunks : list Value) : IO string :=
  if is_pure_greeting query then
    mret (_generate_greeting_response env query)
  else if bool_decide (relevant_chunks = []) then
    logger_warning "No relevant chunks found for query: '{query}'";;
    mret (_generate_no_context_response query)
  else
    meaningful_chunks ← meaningful relevant_chunks;
    if bool_decide (meaningful_chunks = []) then
      logger_warning "No meaningful chunks found for query: '{query}'";;
      mret (_generate_no_context_response query)
    else
      let context := join (nl +:+ nl) meaningful_chunks in
      ai_response ← generate_response env query context;
      query_language ← _detect_language env query;
      if negb (bool_decide (lower query_language = "english"))
         && negb (bool_decide (lower query_language = "en"))
      then
        try_except
          (translation_result ←
             translate_content env ai_response "English" query_language;
           mret (translated_content translation_result))
          (fun e =>
             logger_error "Failed to translate AI response to English: {e}. Returning original response.";;
             mret ai_response)
      else
        mret ai_response.

End LLMService.

(** ** [app/api/v1/endpoints/chat.py] *)

Module ChatEndpoints.

Import VectorStoreService LLMService.

Record ChatMessage := {
  message : string;
  organisation_id : Z;
  project_id : Z;
  is_voice : bool
}.

(** [resp_is_voice] is the field [is_voice] of the response model. *)
Record ChatResponse := {
  answer : string;
  transcript : option string;
  audio_url : option string;
  resp_is_voice : bool;
  timestamp : Q
}.

(** Validation of one keyword argument against a field: a required
    [str], an [Optional[str]] defaulting to [None], a [bool] with a
    default, a required [float] (an integer is accepted as one). *)
Definition required_str (v : option Value) : option string :=
  match v with
  | Some (VStr s) => Some s
  | _ => None
  end.

Definition optional_str (v : option Value) : option (option string) :=
  match v with
  | None | Some VNone => Some None
  | Some (VStr s) => Some (Some s)
  | Some _ => None
  end.

Definition bool_field (v : option Value) (dflt : bool) : option bool :=
  match v with
  | None => Some dflt
  | Some (VBool b) => Some b
  | Some _ => None
  end.

Definition required_float (v : option Value) : option Q :=
  match v with
  | Some (VFloat x) => Some x
  | Some (VInt n) => Some (inject_Z n)
  | _ => None
  end.

(** [ChatResponse] built from keyword arguments: each field is
    validated; [answer] and [timestamp] have no default; keys that
    are not fields are ignored. *)
Definition ChatResponse_init (kwargs : gmap string Value) : result ChatResponse :=
  match required_str (kwargs !! "answer"),
        optional_str (kwargs !! "transcript"),
        optional_str (kwargs !! "audio_url"),
        bool_field (kwargs !! "is_voice") false,
        required_float (kwargs !! "timestamp") with
  | Some a, Some t, Some u, Some b, Some ts =>
      Ok {| answer := a; transcript := t; audio_url := u;
            resp_is_voice := b; timestamp := ts |}
  | _, _, _, _, _ => Raise (Exception "ValidationError" "ChatResponse")
  end.

(** The loop that collects ["chunk_text"] from a query response. *)
Definition extract_chunks (vector_results : QueryResponse) : list Value :=
  match vectors vector_results with
  | None => []
  | Some vs =>
      flat_map (fun vector =>
                  match metadata vector with
                  | Some md =>
                      match md !! "chunk_text" with
                      | Some chunk => [chunk]
                      | None => []
                      end
                  | None => []
                  end) vs
  end.

(** [l[0]]. *)
Definition first {A} (l : list A) : IO A :=
  match l with
  | x :: _ => mret x
  | [] => raise (Exception "IndexError" "list index out of range")
  end.

(** Embedding, retrieval and answer gate, as each entry point runs
    them. *)
Definition answer_query (env : Env) (user_text : string)
    (organisation_id project_id : Value) : IO string :=
  query_embeddings ← get_embeddings env [user_text];
  query_vector ← first query_embeddings;
  vector_results ← query_vectors env query_vector organisation_id project_id 5;
  let relevant_chunks := extract_chunks vector_results in
  process_query_with_context env user_text relevant_chunks.

(** [POST /api/v1/message]. *)
Definition send_message (env : Env) (chat_message : ChatMessage) : IO ChatResponse :=
  try_except
    (ai_response ← answer_query env (message chat_message)
                     (VInt (organisation_id chat_message))
                     (VInt (project_id chat_message));
     let response : gmap string Value :=
       {[ "response" := VStr ai_response;
          "is_voice" := VBool (is_voice chat_message);
          "timestamp" := VFloat (time_time env) ]} in
     match ChatResponse_init response with
     | Ok r => mret r
     | Raise e => raise e
     end)
    (fun e =>
       logger_error "Error processing chat message: {e}";;
       raise (HTTPException 500 "Failed to process message")).

(** [audio_service.transcribe_audio] on the temporary file that holds
    the upload. *)
Definition transcribe_audio (env : Env) (audio : UploadFile) : IO string :=
  try_except
    (transcript ← call (Transcribe audio) (whisper_transcribe env audio);
     mret (strip transcript))
    (fun e =>
       logger_error "Failed to transcribe audio: {e}";;
       raise e).

(** [audio_service.cleanup_audio_file]: a failure is only logged. *)
Definition cleanup_audio_file (env : Env) (file_path : string) : IO unit :=
  try_except
    (AudioPaths.untraced (os_remove env file_path))
    (fun e => logger_warning "Failed to cleanup audio file {file_path}: {e}").

(** [audio_service.synthesize_speech]. *)
Definition synthesize_speech (env : Env) (text output_path : string) : IO string :=
  try_except
    (call (Synthesize text) (tts_synthesize env text output_path);;
     mret output_path)
    (fun e =>
       logger_error "Failed to synthesize speech: {e}";;
       raise e).

(** The voice branch of [chat] up to the transcript: the upload is
    saved to a temporary file, which is transcribed and then removed
    whatever happened. *)
Definition voice_input (env : Env) (audio : UploadFile) : IO string :=
  temp_audio_path ←
    AudioPaths.create_temp_audio_file (audio_files env "webm") "webm";
  try_finally
    (AudioPaths.untraced (save_upload env audio temp_audio_path);;
     transcribe_audio env audio)
    (cleanup_audio_file env temp_audio_path).

(** The guarded synthesis of [chat]: the response with the URL of the
    spoken answer, or as it is when anything fails. *)
Definition voice_output (env : Env) (ai_response : string)
    (response_data : gmap string Value) : IO (gmap string Value) :=
  try_except
    (audio_path ←
       AudioPaths.create_temp_audio_file (audio_files env "mp3") "mp3";
     synthesize_speech env ai_response audio_path;;
     audio_url ← AudioPaths.get_audio_url audio_path;
     mret (<["audio_url" := VStr audio_url]> response_data))
    (fun e =>
       logger_error "Failed to generate audio response: {e}";;
       mret response_data).

(** [POST /api/v1/chat]; [text] and [audio] are the optional form
    fields. *)
Definition chat (env : Env) (text : option string) (audio : option UploadFile)
    (organisation_id project_id : Z) : IO ChatResponse :=
  let no_text := match text with None | Some "" => true | _ => false end in
  try_except
    (if no_text && negb (bool_decide (is_Some audio)) then
       raise (HTTPException 400 "Either text or audio must be provided")
     else if negb no_text && bool_decide (is_Some audio) then
       raise (HTTPException 400 "Provide either text or audio, not both")
     else
       let is_voice_input := bool_decide (is_Some audio) in
       '(user_text, transcript) ←
         match audio with
         | Some a =>
             transcript ← voice_input env a;
             mret (transcript, Some transcript)
         | None => mret (strip (default "" text), None)
         end;
       if bool_decide (user_text = "") then
         raise (HTTPException 400 "No text content found")
       else
         ai_response ← answer_query env user_text
                          (VInt organisation_id) (VInt project_id);
         let response_data : gmap string Value :=
           {[ "answer" := VStr ai_response;
              "transcript" := from_option VStr VNone transcript;
              "is_voice" := VBool is_voice_input;
              "timestamp" := VFloat (time_time env) ]} in
         response_data ←
           (if is_voice_input then voice_output env ai_response response_data
            else mret response_data);
         match ChatResponse_init response_data with
         | Ok r => mret r
         | Raise e => raise e
         end)
    (fun e =>
       match e with
       | HTTPException _ _ => raise e
       | _ =>
           logger_error "Error processing chat request: {e}";;
           raise (HTTPException 500 "Failed to process chat request")
       end).

End ChatEndpoints.

(** ** [app/main.py] *)

Module Main.

Import VectorStoreService LLMService.

(** *** [ConnectionManager] *)

(** [l.remove(x)] for an [x] that is in [l]: the first occurrence
    goes. *)
Fixpoint py_remove (x : WebSocket) (l : list WebSocket) : list WebSocket :=
  match l with
  | [] => []
  | y :: l' => if decide (x = y) then l' else y :: py_remove x l'
  end.

Definition connect (env : Env) (websocket : WebSocket) : IO unit :=
  call (Accept websocket) (websocket_accept env websocket);;
  l ← get_connections;
  set_connections (l ++ [websocket]).

Definition disconnect (websocket : WebSocket) : IO unit :=
  l ← get_connections;
  if bool_decide (websocket ∈ l) then set_connections (py_remove websocket l)
  else mret tt.

Definition send_personal_message (env : Env) (message : Frame)
    (websocket : WebSocket) : IO unit :=
  try_except
    (call (SendText websocket message) (websocket_send_text env websocket message))
    (fun e => logger_error "Error sending personal message: {e}").

Definition broadcast (env : Env) (message : Frame) : IO unit :=
  l ← get_connections;
  for_each l (fun connection =>
    try_except
      (call (SendText connection message)
            (websocket_send_text env connection message))
      (fun e => logger_error "Error broadcasting message: {e}")).

(** *** Message handlers *)

Definition no_information : string :=
  "I don't have enough information to answer your question. Please try rephrasing or ask about something else.".

(** A ["text"] that is not a string has no [strip]. *)
Definition handle_user_message (env : Env) (websocket : WebSocket)
    (message : gmap string Value) : IO unit :=
  try_except
    (let user_text := default (VStr "") (message !! "text") in
     let is_voice := default (VBool false) (message !! "isVoice") in
     let organisation_id := default (VInt 1) (message !! "organisation_id") in
     let project_id := default (VInt 1) (message !! "project_id") in
     match user_text with
     | VStr user_text =>
         if bool_decide (strip user_text = "") then
           send_personal_message env (FrameError "Empty message received") websocket
         else
           send_personal_message env (FrameTyping true) websocket;;
           query_embeddings ← get_embeddings env [user_text];
           query_vector ← ChatEndpoints.first query_embeddings;
           search_results ←
             query_vectors env query_vector organisation_id project_id 5;
           let relevant_chunks := ChatEndpoints.extract_chunks search_results in
           ai_response ←
             (if negb (bool_decide (relevant_chunks = []))
              then process_query_with_context env user_text relevant_chunks
              else mret no_information);
           send_personal_message env
             (FrameBotResponse ai_response is_voice (time_time env)) websocket
     | _ =>
         raise (Exception "AttributeError" "object has no attribute 'strip'")
     end)
    (fun e =>
       logger_error "Error processing user message: {e}";;
       send_personal_message env (FrameError "Failed to process message") websocket).

Definition handle_websocket_message (env : Env) (websocket : WebSocket)
    (message : gmap string Value) : IO unit :=
  try_except
    (match message !! "type" with
     | Some (VStr "user_message") => handle_user_message env websocket message
     | Some (VStr "ping") => send_personal_message env FramePong websocket
     | _ =>
         send_personal_message env
           (FrameUnknownType (message !! "type")) websocket
     end)
    (fun e =>
       logger_error "Error handling WebSocket message: {e}";;
       send_personal_message env (FrameError "Internal server error") websocket).

End Main.

(** ** Vocabulary of the statements *)

(** No character of [s] is a space. *)
Fixpoint spaceless (s : string) : Prop :=
  match s with
  | "" => True
  | String c s' => isspace c = false ∧ spaceless s'
  end.

(** What [split] produces: non-empty runs without spaces. *)
Definition is_word (w : string) : Prop := w ≠ "" ∧ spaceless w.

(** A finished chunk, given by its words, is one word or fits the
    size. *)
Definition tight (chunk_size : Z) (g : list string) : Prop :=
  (∃ w, g = [w]) ∨ (len (join " " g) <= chunk_size)%Z.

(** The words of the running chunk against the running size. *)
Definition running (chunk_size : Z)
    (current_chunk : list string) (current_size : Z) : Prop :=
  match current_chunk with
  | [] => current_size = 0%Z
  | [_] => (len (join " " current_chunk) <= current_size)%Z
  | _ => (len (join " " current_chunk) <= current_size <= chunk_size)%Z
  end.

(** The invariant of the loop of [chunk_text] once the words [seen]
    are read; [groups] are the words of the finished chunks. *)
Definition chunk_inv (chunk_size : Z) (seen : list string)
    (st : list string * list string * Z) : Prop :=
  let '(chunks, current_chunk, current_size) := st in
  ∃ groups : list (list string),
    chunks = map (join " ") groups
    ∧ Forall (λ g, g ≠ []) groups
    ∧ Forall (tight chunk_size) groups
    ∧ concat groups ++ current_chunk = seen
    ∧ running chunk_size current_chunk current_size.

(** The requests made to the chat completion API, in order. *)
Definition llm_calls (tr : list Event) : list ChatRequest :=
  flat_map (λ ev, match ev with ChatCompletion req => [req] | _ => [] end) tr.

(** The frames handed to the socket of [ws], in order. *)
Definition frames_sent (ws : WebSocket) (tr : list Event) : list Frame :=
  flat_map (λ ev, match ev with
                  | SendText ws' frame => if decide (ws' = ws) then [frame] else []
                  | _ => []
                  end) tr.

(** The calls that embed and retrieve, in order. *)
Definition retrieval_calls (tr : list Event) : list Event :=
  List.filter (λ ev, match ev with
                | InvokeModel _ _ | QueryVectors _ => true
                | _ => false
                end) tr.

(** The vector [embed_one] makes of an upstream embedding. *)
Definition fit_dimension (dimension : Z) (embedding : list Q) : list Q :=
  let n := Z.of_nat (length embedding) in
  if (n >? dimension)%Z then VectorStoreService.slice_to dimension embedding
  else if (n <? dimension)%Z
       then embedding ++ replicate (Z.to_nat (dimension - n)) 0%Q
       else embedding.

(** A retrieved chunk that the gate drops: a string of trimmed length
    at most 20. *)
Definition short_chunk (chunk : Value) : Prop :=
  ∃ s, chunk = VStr s ∧ (len (strip s) <= 20)%Z.

Definition no_context : string := "No context found for your query.".

(** [w'] differs from [w] by calls and log records that are neither
    chat completions nor socket sends. *)
Definition quiet (w w' : World) : Prop :=
  active_connections w' = active_connections w
  ∧ llm_calls (trace w') = llm_calls (trace w)
  ∧ ∀ ws, frames_sent ws (trace w') = frames_sent ws (trace w).

(** [len(chunk.strip()) > 20] on a string. *)
Definition long_enough (chunk : string) : bool := (len (strip chunk) >? 20)%Z.

(** What [_detect_language] answers: the stripped content of the
    completion, or the sentinel when the call fails. *)
Definition detected (env : Env) (text : string) : string :=
  match openai_chat_create env (LLMService.detect_request text) with
  | Ok content => strip content
  | Raise _ => "Unknown"
  end.

(** The test made on the detected language. *)
Definition is_english (language : string) : Prop :=
  lower language = "english" ∨ lower language = "en".

(** The socket sends attempted, in order. *)
Definition sends (tr : list Event) : list (WebSocket * Frame) :=
  flat_map (λ ev, match ev with SendText ws frame => [(ws, frame)] | _ => [] end) tr.

(** The store's reading of a filter on the metadata of a vector. *)
Fixpoint eval_filter (f : Filter) (md : gmap string Value) : bool :=
  match f with
  | FEq k v => bool_decide (md !! k = Some v)
  | FAnd fs => forallb (λ g, eval_filter g md) fs
  end.

(** The contract of the store's query: every vector returned carries
    metadata that satisfies the filter of the request, and no more
    than [topK] vectors are returned. *)
Definition honours_filter (store : QueryRequest → result QueryResponse) : Prop :=
  ∀ req response vs,
    store req = Ok response → vectors response = Some vs →
    length vs ≤ Z.to_nat (topK req)
    ∧ Forall (λ v, ∃ md, metadata v = Some md
                         ∧ eval_filter (filter_expr req) md = true) vs.

(** The vector returned for an upstream embedding: of the configured
    length, a prefix of the upstream one or the upstream one followed
    by zeros. *)
Definition fitted (dimension : Z) (upstream v : list Q) : Prop :=
  Z.of_nat (length v) = dimension
  ∧ ((dimension <= Z.of_nat (length upstream))%Z →
     v = take (Z.to_nat dimension) upstream)
  ∧ ((Z.of_nat (length upstream) <= dimension)%Z →
     v = upstream ++ replicate (Z.to_nat dimension - length upstream) 0%Q).

Definition translate_failed_fmt : string :=
  "Failed to translate AI response to English: {e}. Returning original response.".

(** The directory and the path of the temporary file that
    [create_temp_audio_file] makes for an extension. *)
Definition temp_audio_dir (files : AudioPaths.AudioEnv) : string :=
  AudioPaths.os_path_join
    (AudioPaths.os_path_join (AudioPaths.BASE_DIR files) "static") "audio".

Definition temp_audio_path (files : AudioPaths.AudioEnv) (extension : string)
    : string :=
  AudioPaths.os_path_join (temp_audio_dir files)
    ("audio_" +:+ AudioPaths.audio_uuid4 files +:+ "." +:+ extension).

(** The upload reaches the transcription: its temporary file is
    created and written. *)
Definition upload_saved (env : Env) (audio : UploadFile) : Prop :=
  let files := audio_files env "webm" in
  AudioPaths.os_makedirs files (temp_audio_dir files) = Ok tt
  ∧ save_upload env audio (temp_audio_path files "webm") = Ok tt.

(** What [cleanup_audio_file] logs. *)
Definition cleanup_log (env : Env) (file_path : string) : list Event :=
  match os_remove env file_path with
  | Ok _ => []
  | Raise _ => [Log WARNING "Failed to cleanup audio file {file_path}: {e}"]
  end.

(** ** Fixtures *)

(** A store over the vectors [db], listed nearest first. *)
Definition mock_store (db : list VectorData) (req : QueryRequest)
    : result QueryResponse :=
  Ok {| vectors :=
          Some (take (Z.to_nat (topK req))
                  (List.filter (λ v, match metadata v with
                                     | Some md => eval_filter (filter_expr req) md
                                     | None => false
                                     end) db)) |}.

(** A completion API that tells its three callers apart by their
    token limit. *)
Definition mock_llm (answer language translation : result string)
    (req : ChatRequest) : result string :=
  if decide (max_tokens req = 500%Z) then answer
  else if decide (max_tokens req = 50%Z) then language
  else translation.

Definition mock_env (dimension : Z) (embedding : list Q) (db : list VectorData)
    (llm : ChatRequest → result string)
    (send : WebSocket → Frame → result unit) : Env :=
  {| settings := {| AWS_S3_VECTOR_STORE_BUCKET := "vault";
                    DOC_INDEX_NAME := "vault-ai-index";
                    EMBEDDING_MODEL_ID := "amazon.titan-embed-text-v2:0";
                    VECTOR_DIMENSION := dimension |};
     bedrock_invoke_model := λ _ _, Ok (Some embedding);
     s3vectors_query_vectors := mock_store db;
     openai_chat_create := llm;
     audio_files := λ _, {| AudioPaths.BASE_DIR := "/srv/app/backend";
                            AudioPaths.os_makedirs := λ _, Ok tt;
                            AudioPaths.audio_uuid4 := "0" |};
     save_upload := λ _ _, Ok tt;
     whisper_transcribe := λ _, Ok " What is your return policy? ";
     os_remove := λ _, Ok tt;
     tts_synthesize := λ _ _, Ok tt;
     websocket_accept := λ _, Ok tt;
     websocket_send_text := send;
     datetime_now_hour := 9;
     random_choice := 0;
     time_time := 0 |}.

(** A stored chunk as [create_faq_vectors] writes its metadata (the
    fields the model reads). *)
Definition stored (k : string) (org proj : Z) (chunk : string) : VectorData :=
  {| key := k;
     metadata := Some {[ "organisation_id" := VInt org;
                         "project_id" := VInt proj;
                         "chunk_text" := VStr chunk ]} |}.

Definition policy_chunk : string :=
  "Returns accepted within 30 days of purchase with receipt.".

(** Two tenants; the other tenant's vectors are listed first, as
    nearer to any query. *)
Definition policy_db : list VectorData :=
  [stored "b_0" 2 1 "Returns are handled by the other organisation only.";
   stored "c_0" 1 2 "Returns are handled by the other project only.";
   stored "a_0" 1 1 policy_chunk].

Definition send_ok : WebSocket → Frame → result unit := λ _ _, Ok tt.

(** The socket of connection 1 is half-closed. *)
Definition send_half_closed : WebSocket → Frame → result unit :=
  λ ws _, if decide (ws = 1) then Raise (Exception "RuntimeError" "closed")
          else Ok tt.

Definition policy_answer : string := "You can return items within 30 days.".

(** The end-to-end scenario: an English query answered from one
    chunk. *)
Definition policy_env : Env :=
  mock_env 4 [1; 0; 0; 0; 1; 1]%Q policy_db
    (mock_llm (Ok policy_answer) (Ok "English") (Ok "unused")) send_ok.

(** A French query: the answer comes back in French and is
    translated. *)
Definition french_env : Env :=
  mock_env 4 [1; 0]%Q policy_db
    (mock_llm (Ok "Vous pouvez retourner les articles sous 30 jours.")
       (Ok " French ") (Ok policy_answer)) send_ok.

(** The detected language comes back in capitals. *)
Definition capitals_env : Env :=
  mock_env 4 [1; 0]%Q policy_db
    (mock_llm (Ok policy_answer) (Ok "ENGLISH") (Ok "unused")) send_ok.

(** Language detection is down. *)
Definition undetected_env : Env :=
  mock_env 4 [1; 0]%Q policy_db
    (mock_llm (Ok policy_answer) (Raise (Exception "APIError" "timeout"))
       (Ok "You may return items within 30 days.")) send_ok.

(** A French query whose translation fails. *)
Definition untranslated_env : Env :=
  mock_env 4 [1; 0]%Q policy_db
    (mock_llm (Ok "Vous pouvez retourner les articles sous 30 jours.")
       (Ok "French") (Raise (Exception "APIError" "timeout"))) send_ok.

(** Nothing is stored. *)
Definition empty_env : Env :=
  mock_env 4 [1; 0; 0; 1]%Q []
    (mock_llm (Ok policy_answer) (Ok "English") (Ok "unused")) send_ok.

Definition half_closed_env : Env :=
  mock_env 4 [1; 0; 0; 1]%Q [] (mock_llm (Ok "") (Ok "") (Ok "")) send_half_closed.

Definition w0 : World := {| active_connections := []; trace := [] |}.

Definition policy_query : string := "What is your return policy?".

Definition policy_message : ChatEndpoints.ChatMessage :=
  {| ChatEndpoints.message := policy_query;
     ChatEndpoints.organisation_id := 1; ChatEndpoints.project_id := 1;
     ChatEndpoints.is_voice := false |}.

Definition blank_message : ChatEndpoints.ChatMessage :=
  {| ChatEndpoints.message := "   ";
     ChatEndpoints.organisation_id := 1; ChatEndpoints.project_id := 1;
     ChatEndpoints.is_voice := false |}.

(** ** Vocabulary of the further properties *)

(** [m] leaves the list of connections as it is and adds to the trace
    only events that satisfy [P]. *)
Definition emits_only (P : Event → Prop) {A} (m : IO A) : Prop :=
  ∀ w, active_connections (snd (m w)) = active_connections w
       ∧ ∃ evs, trace (snd (m w)) = trace w ++ evs ∧ Forall P evs.

(** The events of the answer gate: completions and log records. *)
Definition llm_event (ev : Event) : Prop :=
  match ev with
  | ChatCompletion _ | Log _ _ => True
  | _ => False
  end.

(** The events of embedding, retrieval and the gate. *)
Definition pipeline_event (ev : Event) : Prop :=
  match ev with
  | InvokeModel _ _ | QueryVectors _ | ChatCompletion _ | Log _ _ => True
  | _ => False
  end.

(** The events of an HTTP request: the pipeline and the speech calls. *)
Definition http_event (ev : Event) : Prop :=
  match ev with
  | Accept _ | SendText _ _ => False
  | _ => True
  end.

(** The events of the realtime session of [ws]: the pipeline and
    sends to [ws] itself. *)
Definition session_event (ws : WebSocket) (ev : Event) : Prop :=
  match ev with
  | SendText ws' _ => ws' = ws
  | Accept _ | Transcribe _ | Synthesize _ => False
  | _ => True
  end.

(** [m] returns on every world. *)
Definition never_raises {A} (m : IO A) : Prop :=
  ∀ w, ∃ a, fst (m w) = Ok a.

(** [m] sends at least one frame to [ws]. *)
Definition replies (ws : WebSocket) {A} (m : IO A) : Prop :=
  ∀ w, ∃ fs, fs ≠ []
    ∧ frames_sent ws (trace (snd (m w))) = frames_sent ws (trace w) ++ fs.

(** [m] only adds to the frames sent to [ws]. *)
Definition grows (ws : WebSocket) {A} (m : IO A) : Prop :=
  ∀ w, ∃ fs,
    frames_sent ws (trace (snd (m w))) = frames_sent ws (trace w) ++ fs.

(** ** [websocket_endpoint] of [app/main.py] *)

Module WebSocketEndpoint.

Import Main.

(** What [json.loads] makes of a received text: an object with scalar
    members, or a JSON value of another kind. *)
Inductive Json :=
| JObject (members : gmap string Value)
| JOther.

(** [handle_websocket_message] on a parsed message; a value that is
    not an object has no [get], which the handler catches. *)
Definition handle_parsed (env : Env) (websocket : WebSocket) (message : Json)
    : IO unit :=
  match message with
  | JObject members => handle_websocket_message env websocket members
  | JOther =>
      logger_error "Error handling WebSocket message: {e}";;
      send_personal_message env (FrameError "Internal server error") websocket
  end.

(** [json.loads] on a received text, given by its outcome: the value
    parsed, or the exception raised. *)
Definition json_loads (data : result Json) : IO Json := fun w => (data, w).

(** [except json.JSONDecodeError]. *)
Definition is_JSONDecodeError (e : exn) : bool :=
  match e with
  | Exception "JSONDecodeError" _ => true
  | _ => false
  end.

(** The body of the loop of [websocket_endpoint] for one received
    text. *)
Definition receive_turn (env : Env) (websocket : WebSocket)
    (data : result Json) : IO unit :=
  try_except
    (message ← json_loads data;
     handle_parsed env websocket message)
    (fun e =>
       if is_JSONDecodeError e
       then send_personal_message env (FrameError "Invalid JSON format") websocket
       else raise e).

(** The loop of [websocket_endpoint] over the texts received; when
    they are exhausted [receive_text] raises [closing]. *)
Fixpoint receive_loop (env : Env) (websocket : WebSocket)
    (inbox : list (result Json)) (closing : exn) : IO unit :=
  match inbox with
  | [] => raise closing
  | data :: inbox' =>
      receive_turn env websocket data;;
      receive_loop env websocket inbox' closing
  end.

Definition websocket_endpoint (env : Env) (websocket : WebSocket)
    (inbox : list (result Json)) (closing : exn) : IO unit :=
  connect env websocket;;
  try_except
    (receive_loop env websocket inbox closing)
    (fun e =>
       match e with
       | Exception "WebSocketDisconnect" _ => disconnect websocket
       | _ =>
           logger_error "WebSocket error: {e}";;
           disconnect websocket
       end).

End WebSocketEndpoint.

(** A text whose loading raises anything but a [JSONDecodeError] ends
    the session. *)
Definition fatal (data : result WebSocketEndpoint.Json) : bool :=
  match data with
  | Ok _ => false
  | Raise e => negb (WebSocketEndpoint.is_JSONDecodeError e)
  end.

(** The texts of a session that are read and answered: those before
    the first fatal one. *)
Fixpoint answered (inbox : list (result WebSocketEndpoint.Json))
    : list (result WebSocketEndpoint.Json) :=
  match inbox with
  | [] => []
  | data :: inbox' => if fatal data then [] else data :: answered inbox'
  end.

(** Every exception [m] raises satisfies [E]. *)
Definition raises_only (E : exn → Prop) {A} (m : IO A) : Prop :=
  ∀ w e, fst (m w) = Raise e → E e.

(** An exception of a client library or of Python itself, as opposed
    to the [HTTPException] the endpoints raise. *)
Definition sdk_exception (e : exn) : Prop :=
  match e with
  | Exception _ _ => True
  | HTTPException _ _ => False
  end.

(** The outside world never raises an [HTTPException] (what
    [os_remove] raises is caught where it is called). *)
Definition sdk_errors (env : Env) : Prop :=
  (∀ m t e, bedrock_invoke_model env m t = Raise e → sdk_exception e)
  ∧ (∀ req e, s3vectors_query_vectors env req = Raise e → sdk_exception e)
  ∧ (∀ req e, openai_chat_create env req = Raise e → sdk_exception e)
  ∧ (∀ a e, whisper_transcribe env a = Raise e → sdk_exception e)
  ∧ (∀ t p e, tts_synthesize env t p = Raise e → sdk_exception e)
  ∧ (∀ x d e, AudioPaths.os_makedirs (audio_files env x) d = Raise e →
              sdk_exception e)
  ∧ (∀ a p e, save_upload env a p = Raise e → sdk_exception e).

(** The exceptions of [POST /api/v1/chat]. *)
Definition chat_exception (e : exn) : Prop :=
  e = HTTPException 400 "Either text or audio must be provided"
  ∨ e = HTTPException 400 "Provide either text or audio, not both"
  ∨ e = HTTPException 400 "No text content found"
  ∨ e = HTTPException 500 "Failed to process chat request".

(** The completion API is down. *)
Definition outage_env : Env :=
  mock_env 4 [1; 0]%Q policy_db
    (mock_llm (Raise (Exception "APIError" "unreachable"))
       (Raise (Exception "APIError" "unreachable"))
       (Raise (Exception "APIError" "unreachable"))) send_ok.

(** An event that is neither an embedding nor a retrieval call. *)
Definition no_retrieval_event (ev : Event) : Prop :=
  match ev with
  | InvokeModel _ _ | QueryVectors _ => False
  | _ => True
  end.

(** The texts sent to the embedding model, in order. *)
Definition invoked (tr : list Event) : list string :=
  flat_map (λ ev, match ev with InvokeModel _ text => [text] | _ => [] end) tr.

(** The embedding model is throttled on the text "bad" and answers
    without an embedding on the text "odd". *)
Definition picky_env : Env :=
  {| settings := settings policy_env;
     bedrock_invoke_model := λ _ text,
       if decide (text = "bad")
       then Raise (Exception "ThrottlingException" "slow down")
       else if decide (text = "odd") then Ok None
       else Ok (Some [1; 0]%Q);
     s3vectors_query_vectors := s3vectors_query_vectors policy_env;
     openai_chat_create := openai_chat_create policy_env;
     audio_files := audio_files policy_env;
     save_upload := save_upload policy_env;
     whisper_transcribe := whisper_transcribe policy_env;
     os_remove := os_remove policy_env;
     tts_synthesize := tts_synthesize policy_env;
     websocket_accept := websocket_accept policy_env;
     websocket_send_text := websocket_send_text policy_env;
     datetime_now_hour := 9;
     random_choice := 0;
     time_time := 0 |}.

(** How many events of [evs] are of the kind [p]. *)
Definition occurrences (p : Event → bool) (evs : list Event) : nat :=
  length (List.filter p evs).

(** [m] adds at most [n] events of the kind [p] to the trace. *)
Definition emits_at_most (p : Event → bool) (n : nat) {A} (m : IO A) : Prop :=
  ∀ w, ∃ evs, trace (snd (m w)) = trace w ++ evs ∧ occurrences p evs ≤ n.

(** The kinds of call to the outside world that cost time or money. *)
Inductive Kind :=
| transcription_call
| embedding_call
| retrieval_call
| completion_call
| synthesis_call.

Definition is_call (k : Kind) (ev : Event) : bool :=
  match k, ev with
  | transcription_call, Transcribe _ => true
  | embedding_call, InvokeModel _ _ => true
  | retrieval_call, QueryVectors _ => true
  | completion_call, ChatCompletion _ => true
  | synthesis_call, Synthesize _ => true
  | _, _ => false
  end.

(** The calls one question may make on its way through embedding,
    retrieval and the gate: the answer, the detection of the query's
    language, the translation and the detection of the answer's language
    are the four completions. *)
Definition pipeline_budget (k : Kind) : nat :=
  match k with
  | completion_call => 4
  | embedding_call | retrieval_call => 1
  | transcription_call | synthesis_call => 0
  end.

(** The calls of the voice path of [chat]. *)
Definition speech_budget (k : Kind) : nat :=
  match k with
  | transcription_call | synthesis_call => 1
  | _ => 0
  end.

(** The detected language is blank: the translation is asked to detect
    the source itself. *)
Definition blank_detection_env : Env :=
  mock_env 4 [1; 0]%Q policy_db
    (mock_llm (Ok policy_answer) (Ok "  ") (Ok policy_answer)) send_ok.

(** The chunk of words [g] could not take the first word of [g']:
    with it and one more space it would reach the size. *)
Definition overflows (chunk_size : Z) (g g' : list string) : Prop :=
  ∀ w, head g' = Some w → (chunk_size <= len (join " " g) + 1 + len w)%Z.

(** Each chunk of words but the last is full. *)
Definition packed (chunk_size : Z) (groups : list (list string)) : Prop :=
  ∀ i g g', groups !! i = Some g → groups !! S i = Some g' →
            overflows chunk_size g g'.

(** The loop of [chunk_text] counts one character more for the first
    chunk than for the later ones. *)
Definition counted (groups : list (list string)) (current_chunk : list string) : Z :=
  (len (join " " current_chunk) + (if groups is [] then 1 else 0))%Z.

(** The invariant of the loop of [chunk_text] that gives the running
    size exactly. *)
Definition packing_inv (chunk_size : Z) (seen : list string)
    (st : list string * list string * Z) : Prop :=
  let '(chunks, current_chunk, current_size) := st in
  ∃ groups : list (list string),
    chunks = map (join " ") groups
    ∧ Forall (λ g, g ≠ []) groups
    ∧ concat groups ++ current_chunk = seen
    ∧ (current_chunk = [] → groups = [] ∧ current_size = 0%Z)
    ∧ (current_chunk ≠ [] →
       current_size = counted groups current_chunk
       ∧ packed chunk_size (groups ++ [current_chunk])).

(** What the loop of [chunk_text] counts for words it keeps together:
    each word and one space. *)
Definition counted_words (words : list string) : Z :=
  fold_right (λ word n, (len word + 1 + n)%Z) 0%Z words.

(** ** Ingestion: [store_vectors] and [create_faq_vectors] of
    [VectorStoreService] *)

Module Ingestion.

Import VectorStoreService.

(** One vector of a [put_vectors] request: its ["key"], the list under
    ["data"]["float32"] and its ["metadata"]. *)
Record PutVector := {
  put_key : string;
  put_data : list Q;
  put_metadata : gmap string Value
}.

(** Keyword arguments of [put_vectors]. *)
Record PutRequest := {
  put_vectorBucketName : string;
  put_indexName : string;
  put_vectors : list PutVector
}.

(** The outside world of ingestion: that of the other calls, the
    answer of the store to a [put_vectors] request and the string of
    [uuid.uuid4()]. *)
Record IngestEnv := {
  base : Env;
  s3vectors_put_vectors : PutRequest → result Value;
  uuid4 : string
}.

(** The state of ingestion: the world, and the [put_vectors] requests
    made, in order. *)
Record Bucket := {
  world : World;
  put_requests : list PutRequest
}.

Definition Ingest (A : Type) : Type := Bucket → result A * Bucket.

#[export] Instance Ingest_ret : MRet Ingest := λ A a b, (Ok a, b).

#[export] Instance Ingest_bind : MBind Ingest := λ A B f m b,
  match m b with
  | (Ok a, b') => f a b'
  | (Raise e, b') => (Raise e, b')
  end.

(** Code that makes no [put_vectors] request. *)
Definition lift {A} (m : IO A) : Ingest A := λ b,
  let '(r, w') := m (world b) in
  (r, {| world := w'; put_requests := put_requests b |}).

Definition ingest_raise {A} (e : exn) : Ingest A := λ b, (Raise e, b).

Definition ingest_try {A} (m : Ingest A) (h : exn → Ingest A) : Ingest A := λ b,
  match m b with
  | (Ok a, b') => (Ok a, b')
  | (Raise e, b') => h e b'
  end.

(** Make a [put_vectors] request: record it, then answer it. *)
Definition put (req : PutRequest) (r : result Value) : Ingest Value := λ b,
  (r, {| world := world b; put_requests := put_requests b ++ [req] |}).

Definition store_vectors (env : IngestEnv) (vectors : list PutVector)
    : Ingest Value :=
  ingest_try
    (let req := {| put_vectorBucketName :=
                     AWS_S3_VECTOR_STORE_BUCKET (settings (base env));
                   put_indexName := DOC_INDEX_NAME (settings (base env));
                   put_vectors := vectors |} in
     put req (s3vectors_put_vectors env req))
    (λ e,
       lift (logger_error "Failed to store vectors: {e}");;
       lift (logger_error "Store error type: {type(e)}");;
       ingest_raise e).

Definition faq_content (title description content : string) : string :=
  "Title: " +:+ title +:+ LLMService.nl
  +:+ "Description: " +:+ description +:+ LLMService.nl
  +:+ "Content: " +:+ content.

(** The metadata of chunk [i]. *)
Definition faq_metadata (title description content : string)
    (organisation_id project_id : Value) (unique_key : string)
    (i : nat) (chunk : string) : gmap string Value :=
  {[ "organisation_id" := organisation_id;
     "project_id" := project_id;
     "chunk_id" := VInt (Z.of_nat i);
     "unique_key" := VStr unique_key;
     "chunk_text" := VStr chunk;
     "title" := VStr title;
     "description" := VStr description;
     "content" := VStr content;
     "content_type" := VStr "faq" ]}.

(** The comprehension over [enumerate(zip(chunks, embeddings))]. *)
Definition vectors_to_put (title description content : string)
    (organisation_id project_id : Value) (unique_key : string)
    (chunks : list string) (embeddings : list (list Q)) : list PutVector :=
  imap (λ i '(chunk, embedding),
          {| put_key := unique_key +:+ "_" +:+ pretty i;
             put_data := embedding;
             put_metadata := faq_metadata title description content
                               organisation_id project_id unique_key i chunk |})
       (zip chunks embeddings).

(** The dictionary returned by [create_faq_vectors]. *)
Record FaqVectors := {
  unique_key : string;
  chunk_count : Z;
  chunks : list string
}.

Definition create_faq_vectors (env : IngestEnv)
    (title description content : string) (organisation_id project_id : Value)
    : Ingest FaqVectors :=
  ingest_try
    (let faq_content := faq_content title description content in
     let chunks := chunk_text faq_content 1000 in
     if bool_decide (chunks = []) then
       ingest_raise (Exception "ValueError" "Failed to create text chunks")
     else
       embeddings ← lift (get_embeddings (base env) chunks);
       let unique_key := uuid4 env in
       let vectors_to_put :=
         vectors_to_put title description content organisation_id project_id
           unique_key chunks embeddings in
       store_vectors env vectors_to_put;;
       mret {| unique_key := unique_key;
               chunk_count := Z.of_nat (length chunks);
               chunks := chunks |})
    (λ e,
       lift (logger_error "Failed to create FAQ vectors: {e}");;
       ingest_raise e).

End Ingestion.

(** A stored vector as a query lists it. *)
Definition listed (v : Ingestion.PutVector) : VectorData :=
  {| key := Ingestion.put_key v; metadata := Some (Ingestion.put_metadata v) |}.

(** The request [create_faq_vectors] makes of chunks and embeddings. *)
Definition faq_request (env : Ingestion.IngestEnv)
    (title description content : string) (organisation_id project_id : Value)
    (chunks : list string) (embeddings : list (list Q)) : Ingestion.PutRequest :=
  {| Ingestion.put_vectorBucketName :=
       AWS_S3_VECTOR_STORE_BUCKET (settings (Ingestion.base env));
     Ingestion.put_indexName := DOC_INDEX_NAME (settings (Ingestion.base env));
     Ingestion.put_vectors :=
       Ingestion.vectors_to_put title description content
         organisation_id project_id (Ingestion.uuid4 env) chunks embeddings |}.

(** Ingestion over [policy_env]; the store accepts every request. *)
Definition ingest_env : Ingestion.IngestEnv :=
  {| Ingestion.base := policy_env;
     Ingestion.s3vectors_put_vectors := λ _, Ok VNone;
     Ingestion.uuid4 := "6f1c2a9e-0b7d-4c3a-9e55-2d8f4b1a7c10" |}.

(** Ingestion while the embedding model is throttled. *)
Definition throttled_ingest_env : Ingestion.IngestEnv :=
  {| Ingestion.base :=
       {| settings := settings policy_env;
          bedrock_invoke_model := λ _ _,
            Raise (Exception "ThrottlingException" "slow down");
          s3vectors_query_vectors := s3vectors_query_vectors policy_env;
          openai_chat_create := openai_chat_create policy_env;
          audio_files := audio_files policy_env;
          save_upload := save_upload policy_env;
          whisper_transcribe := whisper_transcribe policy_env;
          os_remove := os_remove policy_env;
          tts_synthesize := tts_synthesize policy_env;
          websocket_accept := websocket_accept policy_env;
          websocket_send_text := websocket_send_text policy_env;
          datetime_now_hour := 9; random_choice := 0; time_time := 0 |};
     Ingestion.s3vectors_put_vectors := λ _, Ok VNone;
     Ingestion.uuid4 := "6f1c2a9e-0b7d-4c3a-9e55-2d8f4b1a7c10" |}.

Definition b0 : Ingestion.Bucket :=
  {| Ingestion.world := w0; Ingestion.put_requests := [] |}.

(** No character of [s] is ["/"]. *)
Fixpoint sepless (s : string) : Prop :=
  match s with
  | "" => True
  | String c s' => c ≠ "/"%char ∧ sepless s'
  end.

Definition audio_env : AudioPaths.AudioEnv :=
  {| AudioPaths.BASE_DIR := "/srv/app/backend";
     AudioPaths.os_makedirs := λ _, Ok tt;
     AudioPaths.audio_uuid4 := "6f1c2a9e-0b7d-4c3a-9e55-2d8f4b1a7c10" |}.

(** * Properties *)

(** ** The monad *)

Lemma bind_run {A B} (m : IO A) (f : A → IO B) (w : World) :
  (m ≫= f) w = match m w with
               | (Ok a, w') => f a w'
               | (Raise e, w') => (Raise e, w')
               end.
Proof. reflexivity. Qed.

Lemma try_except_run {A} (m : IO A) (h : exn → IO A) (w : World) :
  try_except m h w = match m w with
                     | (Ok a, w') => (Ok a, w')
                     | (Raise e, w') => h e w'
                     end.
Proof. reflexivity. Qed.

Lemma try_finally_run {A} (m : IO A) (cleanup : IO unit) (w : World) :
  try_finally m cleanup w = match m w with
                            | (r, w') =>
                                match cleanup w' with
                                | (Ok _, w'') => (r, w'')
                                | (Raise e, w'') => (Raise e, w'')
                                end
                            end.
Proof. reflexivity. Qed.

Ltac io_unfold :=
  unfold logger_error, logger_warning;
  unfold mbind, mret, IO_bind, IO_ret, try_except, try_finally, call, emit, raise,
    AudioPaths.untraced, get_connections, set_connections.

(** ** Strings *)

Section StringFacts.

Lemma app_String (c : ascii) (s t : string) :
  String c s +:+ t = String c (s +:+ t).
Proof. reflexivity. Qed.

Lemma app_empty_r (s : string) : s +:+ "" = s.
Proof. induction s as [|c s IH]; [done|]. by rewrite app_String, IH. Qed.

Lemma app_assoc_str (s t u : string) : (s +:+ t) +:+ u = s +:+ (t +:+ u).
Proof. induction s as [|c s IH]; [done|]. by rewrite !app_String, IH. Qed.

Lemma len_app (s t : string) : len (s +:+ t) = (len s + len t)%Z.
Proof.
  unfold len. induction s as [|c s IH]; [done|].
  rewrite app_String. cbn [String.length]. lia.
Qed.

Lemma len_nonneg (s : string) : (0 <= len s)%Z.
Proof. unfold len. lia. Qed.

Lemma join_cons (sep x : string) (l : list string) :
  l ≠ [] → join sep (x :: l) = x +:+ sep +:+ join sep l.
Proof. by destruct l. Qed.

Lemma join_app (sep : string) (l1 l2 : list string) :
  l1 ≠ [] → l2 ≠ [] →
  join sep (l1 ++ l2) = join sep l1 +:+ sep +:+ join sep l2.
Proof.
  intros H1 H2. induction l1 as [|x l1 IH]; [done|].
  destruct l1 as [|y l1].
  - cbn [app]. by rewrite join_cons.
  - rewrite <- app_comm_cons, join_cons by done.
    rewrite IH by done. rewrite (join_cons sep x (y :: l1)) by done.
    by rewrite !app_assoc_str.
Qed.

Lemma join_concat (sep : string) (groups : list (list string)) :
  Forall (λ g, g ≠ []) groups →
  join sep (map (join sep) groups) = join sep (concat groups).
Proof.
  induction 1 as [|g groups Hg Hgs IH]; [done|].
  destruct groups as [|g' groups].
  - cbn. by rewrite app_nil_r.
  - rewrite concat_cons, join_app; [| done |].
    + cbn [map] in *. rewrite join_cons by done. by rewrite IH.
    + inversion Hgs as [|? ? Hg' _]; subst.
      rewrite concat_cons. by destruct g'.
Qed.

End StringFacts.

(** ** Words *)

Section Words.

Lemma spaceless_app (s t : string) :
  spaceless s → spaceless t → spaceless (s +:+ t).
Proof.
  induction s as [|c s IH]; [done|]. rewrite app_String.
  cbn. intros [Hc Hs] Ht. auto.
Qed.

Lemma split_go_words (s cur : string) :
  spaceless cur → Forall is_word (split_go cur s).
Proof.
  revert cur. induction s as [|c s IH]; intros cur Hcur; cbn [split_go].
  - case_decide; [constructor|]. by repeat constructor.
  - destruct (isspace c) eqn:Hc.
    + apply Forall_app. split; [| by apply IH].
      case_decide; [constructor|]. by repeat constructor.
    + apply IH. apply spaceless_app; [done|]. by cbn.
Qed.

Lemma split_words (s : string) : Forall is_word (split s).
Proof. by apply split_go_words. Qed.

(** Reading a word extends the run being read. *)
Lemma split_go_word (w cur s : string) :
  spaceless w → split_go cur (w +:+ s) = split_go (cur +:+ w) s.
Proof.
  revert cur. induction w as [|c w IH]; intros cur Hw.
  - by rewrite app_empty_r.
  - destruct Hw as [Hc Hw]. rewrite app_String. cbn [split_go]. rewrite Hc.
    rewrite IH by done. by rewrite app_assoc_str.
Qed.

Lemma split_join (ws : list string) :
  Forall is_word ws → split (join " " ws) = ws.
Proof.
  unfold split. induction 1 as [|w ws [Hne Hw] Hws IH]; [done|].
  destruct ws as [|w' ws].
  - cbn [join]. rewrite <- (app_empty_r w) at 1.
    rewrite split_go_word by done. cbn. by case_decide.
  - rewrite join_cons by done. rewrite split_go_word by done.
    change ("" +:+ w) with w. change (" " +:+ ?s) with (String " " s).
    cbn [split_go]. change (isspace " ") with true. cbn iota.
    rewrite IH. by case_decide.
Qed.

Lemma Forall_concat_inv {A} (P : A → Prop) (ls : list (list A)) :
  Forall P (concat ls) → Forall (Forall P) ls.
Proof.
  induction ls as [|l ls IH]; [constructor|].
  rewrite concat_cons. intros [H1 H2]%Forall_app. constructor; auto.
Qed.

End Words.

(** ** Chunking *)

Section Chunking.

Import VectorStoreService.
Variable chunk_size : Z.

Lemma chunk_inv_init : chunk_inv chunk_size [] ([], [], 0%Z).
Proof. exists []. by split_and!; try constructor. Qed.

Lemma running_tight (current_chunk : list string) (current_size : Z) :
  current_chunk ≠ [] → running chunk_size current_chunk current_size → tight chunk_size current_chunk.
Proof.
  destruct current_chunk as [|w [|w' l]]; [done| |]; intros _ H.
  - left. by exists w.
  - right. unfold running in H. lia.
Qed.

Lemma chunk_inv_step (seen : list string) st (word : string) :
  chunk_inv chunk_size seen st → chunk_inv chunk_size (seen ++ [word]) (chunk_step chunk_size st word).
Proof.
  destruct st as [[chunks current_chunk] current_size].
  intros (groups & Hc & Hne & Ht & Hseen & Hrun).
  unfold chunk_step.
  destruct ((current_size + len word + 1 >? chunk_size)%Z
            && negb (bool_decide (current_chunk = []))) eqn:Hcond.
  - apply andb_true_iff in Hcond as [_ Hcur].
    apply negb_true_iff, bool_decide_eq_false in Hcur.
    exists (groups ++ [current_chunk]). split_and!.
    + by rewrite map_app, Hc.
    + apply Forall_app. split; [done|]. by constructor.
    + apply Forall_app. split; [done|]. constructor; [|done].
      by eapply running_tight.
    + rewrite concat_app. cbn. by rewrite app_nil_r, Hseen.
    + cbn. lia.
  - exists groups. split_and!; try done.
    + by rewrite app_assoc, Hseen.
    + destruct current_chunk as [|w l].
      * unfold running in *. cbn [app join]. lia.
      * apply andb_false_iff in Hcond as [Hle | Hcur];
          [| by rewrite bool_decide_eq_false_2 in Hcur].
        assert (Hj : (len (join " " ((w :: l) ++ [word]))
                      = len (join " " (w :: l)) + 1 + len word)%Z).
        { rewrite join_app by done. rewrite !len_app.
          change (len " ") with 1%Z. change (join " " [word]) with word. lia. }
        assert (Hsz : (len (join " " (w :: l)) <= current_size)%Z).
        { destruct l; unfold running in Hrun; lia. }
        rewrite Z.gtb_ltb in Hle. apply Z.ltb_ge in Hle.
        unfold running. destruct l as [|w' l]; cbn [app]; cbn [app] in Hj; lia.
Qed.

Lemma chunk_inv_fold (words seen : list string) st :
  chunk_inv chunk_size seen st →
  chunk_inv chunk_size (seen ++ words) (fold_left (chunk_step chunk_size) words st).
Proof.
  revert seen st. induction words as [|word words IH]; intros seen st H.
  - by rewrite app_nil_r.
  - cbn [fold_left]. replace (seen ++ word :: words) with ((seen ++ [word]) ++ words)
      by (by rewrite <- app_assoc).
    apply IH. by apply chunk_inv_step.
Qed.

(** The chunks are the joined groups of a partition of the words. *)
Lemma chunk_text_groups (text : string) :
  ∃ groups : list (list string),
    chunk_text text chunk_size = map (join " ") groups
    ∧ concat groups = split text
    ∧ Forall (λ g, g ≠ []) groups
    ∧ Forall (tight chunk_size) groups.
Proof.
  unfold chunk_text.
  pose proof (chunk_inv_fold (split text) [] _ chunk_inv_init) as H.
  destruct (fold_left _ _ _) as [[chunks current_chunk] current_size].
  destruct H as (groups & Hc & Hne & Ht & Hseen & Hrun). cbn [app] in Hseen.
  case_bool_decide as Hcur.
  - subst current_chunk. exists groups. by rewrite app_nil_r in Hseen.
  - exists (groups ++ [current_chunk]). split_and!.
    + by rewrite map_app, Hc.
    + rewrite concat_app. cbn. by rewrite app_nil_r.
    + apply Forall_app. split; [done|]. by constructor.
    + apply Forall_app. split; [done|]. constructor; [|done].
      by eapply running_tight.
Qed.

End Chunking.

Section ChunkText.

Import VectorStoreService.

(** C9. For every text and chunk size: the chunks of [chunk_text]
    joined by one space are the words of the text joined by one
    space; the empty text has no chunk; the words of the chunks, in
    order, are exactly the words of the text, so no word is split
    across chunks or truncated; and, the size being non-negative, no
    chunk (the first included) is longer than the size plus the
    length of its last word. *)
Theorem chunk_text_spec (text : string) (chunk_size : Z) :
  join " " (chunk_text text chunk_size) = join " " (split text)
  ∧ chunk_text "" chunk_size = []
  ∧ concat (map split (chunk_text text chunk_size)) = split text
  ∧ ((0 <= chunk_size)%Z →
     Forall (λ chunk, ∃ w, last (split chunk) = Some w
                           ∧ (len chunk <= chunk_size + len w)%Z)
            (chunk_text text chunk_size)).
Proof.
  destruct (chunk_text_groups chunk_size text) as (groups & Hc & Hcat & Hne & Ht).
  assert (Hw : Forall (Forall is_word) groups).
  { apply Forall_concat_inv. rewrite Hcat. apply split_words. }
  assert (Hs : map split (map (join " ") groups) = groups).
  { rewrite map_map. clear -Hw. induction Hw as [|g gs Hg _ IH]; [done|].
    cbn [map]. by rewrite split_join, IH. }
  split_and!.
  - by rewrite Hc, join_concat, Hcat.
  - reflexivity.
  - by rewrite Hc, Hs.
  - intros Hsize. rewrite Hc. apply Forall_map.
    clear Hc Hcat Hs. induction Hw as [|g gs Hg _ IH]; [constructor|].
    inversion Hne as [|? ? Hg0 Hne']; subst. inversion Ht as [|? ? Hgt Ht']; subst.
    constructor; [| by apply IH].
    cbn beta. rewrite split_join by done.
    destruct (last g) as [w|] eqn:Hlast; [| by apply last_None in Hlast].
    exists w. split; [done|].
    destruct Hgt as [[w' ->] | Hle].
    + cbn in Hlast. injection Hlast as ->. cbn [join]. lia.
    + pose proof (len_nonneg w). lia.
Qed.

Lemma chunk_text_spec_witness :
  chunk_text "Title: Return policy  Description: 30 days" 20
  = ["Title: Return"; "policy Description:"; "30 days"]
  ∧ Forall (λ chunk, ∃ w, last (split chunk) = Some w
                          ∧ (len chunk <= 20 + len w)%Z)
           (chunk_text "Title: Return policy  Description: 30 days" 20).
Proof.
  split; [reflexivity|].
  apply (chunk_text_spec "Title: Return policy  Description: 30 days" 20). lia.
Defined.

End ChunkText.

(** ** Case and spaces *)

Lemma isspace_lower_char (c : ascii) : isspace (lower_char c) = isspace c.
Proof. destruct c as [[] [] [] [] [] [] [] []]; reflexivity. Qed.

Lemma lstrip_lower (s : string) : lstrip (lower s) = lower (lstrip s).
Proof.
  induction s as [|c s IH]; [done|].
  cbn [lower lstrip]. rewrite isspace_lower_char. by destruct (isspace c).
Qed.

Lemma rstrip_lower (s : string) : rstrip (lower s) = lower (rstrip s).
Proof.
  induction s as [|c s IH]; [done|].
  cbn [lower rstrip]. rewrite IH, isspace_lower_char.
  destruct (rstrip s) as [|c' r]; cbn [lower]; by destruct (isspace c).
Qed.

Lemma strip_lower (s : string) : strip (lower s) = lower (strip s).
Proof. unfold strip. by rewrite lstrip_lower, rstrip_lower. Qed.

Section Greeting.
Import LLMService.

Lemma is_pure_greeting_iff (query : string) :
  is_pure_greeting query = true
  ↔ ∃ greeting, greeting ∈ pure_greetings
       ∧ (strip (lower query) = greeting ∨ strip (lower query) = greeting +:+ "!").
Proof.
  unfold is_pure_greeting. rewrite existsb_exists. split.
  - intros (g & Hin & H). exists g. split; [by apply list_elem_of_In|].
    apply orb_true_iff in H as [H|H]; apply bool_decide_eq_true in H; auto.
  - intros (g & Hin & H). exists g. split; [by apply list_elem_of_In|].
    apply orb_true_iff. destruct H as [H|H]; [left|right]; by apply bool_decide_eq_true.
Qed.

End Greeting.

(** ** Embeddings *)

Section Embeddings.
Import VectorStoreService.
Variable env : Env.
Local Abbreviation dimension := (VECTOR_DIMENSION (settings env)).
Local Abbreviation upstream :=
  (bedrock_invoke_model env (EMBEDDING_MODEL_ID (settings env))).

Lemma slice_to_fitted (e : list Q) :
  (0 <= dimension)%Z → (Z.of_nat (length e) > dimension)%Z →
  fitted dimension e (slice_to dimension e).
Proof.
  intros Hd Hlen. unfold slice_to.
  rewrite (proj2 (Z.leb_le 0 dimension)) by done.
  split_and!.
  - rewrite length_take. lia.
  - done.
  - lia.
Qed.

Lemma pad_fitted (e : list Q) :
  (Z.of_nat (length e) <= dimension)%Z →
  fitted dimension e
    (e ++ replicate (Z.to_nat (dimension - Z.of_nat (length e))) 0%Q).
Proof.
  intros Hlen. split_and!.
  - rewrite length_app, length_replicate. lia.
  - intros Hge. assert (Hn : length e = Z.to_nat dimension) by lia.
    replace (Z.to_nat (dimension - Z.of_nat (length e))) with 0%nat by lia.
    cbn [replicate]. rewrite app_nil_r. by rewrite <- Hn, firstn_all.
  - intros _. do 2 f_equal. lia.
Qed.

Lemma embed_one_spec (text : string) (w : World) :
  (0 <= dimension)%Z →
  match embed_one env text w with
  | (Ok v, _) => ∃ e, upstream text = Ok (Some e) ∧ fitted dimension e v
  | (Raise _, _) => ∀ e, upstream text ≠ Ok (Some e)
  end.
Proof.
  intros Hd. unfold embed_one. io_unfold. fold dimension. fold upstream.
  destruct (upstream text) as [[e|]|err]; cbn; [| done | done].
  destruct (Z.gtb_spec (Z.of_nat (length e)) dimension) as [Hgt|Hle].
  - exists e. split; [done|]. apply slice_to_fitted; [done | lia].
  - destruct (Z.ltb_spec (Z.of_nat (length e)) dimension) as [Hlt|Hge]; cbn.
    + exists e. split; [done|]. by apply pad_fitted.
    + exists e. split; [done|].
      pose proof (pad_fitted e Hle) as H.
      replace (Z.to_nat (dimension - Z.of_nat (length e))) with 0%nat in H by lia.
      cbn [replicate] in H. by rewrite app_nil_r in H.
Qed.

(** C5. The configured dimension being non-negative, when
    [get_embeddings] returns it returns one vector per text, in the
    order of the texts, each of exactly the configured length: the
    first components of the upstream embedding when that is longer, the
    upstream embedding followed by zeros when it is shorter.  It raises
    only when some upstream call fails or lacks an embedding. *)
Theorem get_embeddings_dimension (texts : list string) (w : World) :
  (0 <= dimension)%Z →
  match get_embeddings env texts w with
  | (Ok embeddings, _) =>
      length embeddings = length texts
      ∧ Forall2 (λ text v, ∃ e, upstream text = Ok (Some e) ∧ fitted dimension e v)
                texts embeddings
  | (Raise _, _) => ∃ text, text ∈ texts ∧ ∀ e, upstream text ≠ Ok (Some e)
  end.
Proof.
  intros Hd. revert w. induction texts as [|text texts IH]; intros w.
  - cbn. split; [done | constructor].
  - cbn [get_embeddings]. rewrite bind_run.
    pose proof (embed_one_spec text w Hd) as H1.
    destruct (embed_one env text w) as [[v|err] w1].
    + rewrite bind_run. specialize (IH w1).
      destruct (get_embeddings env texts w1) as [[vs|err] w2].
      * cbn. destruct IH as [Hlen IH]. split; [by rewrite Hlen|]. by constructor.
      * destruct IH as (t & Hin & Ht). exists t. split; [by right | done].
    + exists text. split; [by left | done].
Qed.

End Embeddings.

Section EmbeddingsWitness.
Import VectorStoreService.

Lemma get_embeddings_dimension_witness :
  match get_embeddings policy_env ["a"; "b"] w0 with
  | (Ok embeddings, _) =>
      length embeddings = length ["a"; "b"]
      ∧ Forall2 (λ text v, ∃ e,
                   bedrock_invoke_model policy_env
                     (EMBEDDING_MODEL_ID (settings policy_env)) text = Ok (Some e)
                   ∧ fitted (VECTOR_DIMENSION (settings policy_env)) e v)
                ["a"; "b"] embeddings
  | (Raise _, _) =>
      ∃ text, text ∈ ["a"; "b"]
              ∧ ∀ e, bedrock_invoke_model policy_env
                       (EMBEDDING_MODEL_ID (settings policy_env)) text
                     ≠ Ok (Some e)
  end.
Proof.
  apply (get_embeddings_dimension policy_env ["a"; "b"] w0). vm_compute. discriminate.
Defined.

Example embeddings_truncated_and_padded :
  fst (get_embeddings policy_env ["a"; "b"] w0)
  = Ok [[1; 0; 0; 0]%Q; [1; 0; 0; 0]%Q]
  ∧ fst (get_embeddings french_env ["a"] w0) = Ok [[1; 0; 0; 0]%Q].
Proof. split; reflexivity. Qed.

End EmbeddingsWitness.

(** ** Traces *)

Lemma llm_calls_app (t1 t2 : list Event) :
  llm_calls (t1 ++ t2) = llm_calls t1 ++ llm_calls t2.
Proof. apply flat_map_app. Qed.

Lemma llm_calls_cons (req : ChatRequest) (tr : list Event) :
  llm_calls (ChatCompletion req :: tr) = req :: llm_calls tr.
Proof. reflexivity. Qed.

Lemma frames_sent_app (ws : WebSocket) (t1 t2 : list Event) :
  frames_sent ws (t1 ++ t2) = frames_sent ws t1 ++ frames_sent ws t2.
Proof. apply flat_map_app. Qed.

Section Gate.
Import LLMService.
Variable env : Env.

Lemma meaningful_short (chunks : list Value) (w : World) :
  Forall short_chunk chunks → meaningful chunks w = (Ok [], w).
Proof.
  induction 1 as [|c cs (s & -> & Hs) _ IH]; [done|].
  cbn [meaningful]. rewrite bind_run, IH. cbn.
  destruct (Z.gtb_spec (len (strip s)) 20); [lia | done].
Qed.

Lemma gate_no_context (query : string) (chunks : list Value) (w : World) :
  is_pure_greeting query = false → Forall short_chunk chunks →
  ∃ w', process_query_with_context env query chunks w = (Ok no_context, w')
        ∧ active_connections w' = active_connections w
        ∧ (∃ fmt, trace w' = trace w ++ [Log WARNING fmt]).
Proof.
  intros Hg Hs. unfold process_query_with_context. rewrite Hg.
  case_bool_decide as Hc.
  - eexists. split; [reflexivity|]. split; [done|]. by eexists.
  - rewrite bind_run, meaningful_short by done. cbn.
    eexists. split; [reflexivity|]. split; [done|]. by eexists.
Qed.
End Gate.

(** Appending events that are neither completions nor sends. *)
Lemma quiet_events (w : World) (evs : list Event) :
  llm_calls evs = [] → (∀ ws, frames_sent ws evs = []) →
  quiet w {| active_connections := active_connections w; trace := trace w ++ evs |}.
Proof.
  intros Hl Hf. split_and!; cbn [trace active_connections]; [done | |].
  - by rewrite llm_calls_app, Hl, app_nil_r.
  - intros ws. by rewrite frames_sent_app, Hf, app_nil_r.
Qed.

Section Retrieval.
Import VectorStoreService.
Variable env : Env.
Local Abbreviation dimension := (VECTOR_DIMENSION (settings env)).
Local Abbreviation upstream :=
  (bedrock_invoke_model env (EMBEDDING_MODEL_ID (settings env))).

Lemma embed_one_ok (text : string) (e : list Q) (w : World) :
  upstream text = Ok (Some e) →
  ∃ w', embed_one env text w = (Ok (fit_dimension dimension e), w') ∧ quiet w w'.
Proof.
  intros Hup. unfold embed_one, fit_dimension. io_unfold. rewrite Hup. cbn.
  destruct (Z.of_nat (length e) >? dimension)%Z.
  - eexists. split; [reflexivity|]. by apply (quiet_events w [_]).
  - destruct (Z.of_nat (length e) <? dimension)%Z; cbn.
    + eexists. split; [reflexivity|].
      rewrite <- app_assoc. by apply (quiet_events w [_; _]).
    + eexists. split; [reflexivity|]. by apply (quiet_events w [_]).
Qed.

Lemma query_vectors_run (qv : list Q) (org proj : Value) (limit : Z) (w : World) :
  ∃ w', quiet w w'
    ∧ query_vectors env qv org proj limit w
      = (s3vectors_query_vectors env (query_request env qv org proj limit), w').
Proof.
  unfold query_vectors. io_unfold.
  destruct (s3vectors_query_vectors env _) as [resp|err]; cbn.
  - eexists. split; [| reflexivity]. by apply (quiet_events w [_]).
  - eexists. split; [| reflexivity].
    rewrite <- !app_assoc. by apply (quiet_events w [_; _]).
Qed.

End Retrieval.

Section Realtime.
Import VectorStoreService LLMService ChatEndpoints Main.
Variable env : Env.
Local Abbreviation dimension := (VECTOR_DIMENSION (settings env)).
Local Abbreviation upstream :=
  (bedrock_invoke_model env (EMBEDDING_MODEL_ID (settings env))).

(** A send is one more frame for its socket and nothing else; it
    never raises. *)
Lemma send_personal_message_run (frame : Frame) (ws : WebSocket) (w : World) :
  ∃ w', send_personal_message env frame ws w = (Ok tt, w')
    ∧ active_connections w' = active_connections w
    ∧ llm_calls (trace w') = llm_calls (trace w)
    ∧ frames_sent ws (trace w') = frames_sent ws (trace w) ++ [frame]
    ∧ ∀ ws', ws' ≠ ws → frames_sent ws' (trace w') = frames_sent ws' (trace w).
Proof.
  unfold send_personal_message. io_unfold.
  destruct (websocket_send_text env ws frame) as [[]|err]; cbn [trace active_connections].
  - eexists. split; [reflexivity|]. cbn [trace active_connections].
    rewrite llm_calls_app, frames_sent_app. cbn. rewrite decide_True by done.
    split_and!; [done | by rewrite app_nil_r | done |].
    intros ws' Hne. rewrite frames_sent_app. cbn.
    rewrite decide_False by done. by rewrite app_nil_r.
  - eexists. split; [reflexivity|]. cbn [trace active_connections].
    rewrite <- app_assoc, llm_calls_app, frames_sent_app. cbn.
    rewrite decide_True by done.
    split_and!; [done | by rewrite app_nil_r | done |].
    intros ws' Hne. rewrite frames_sent_app. cbn.
    rewrite decide_False by done. by rewrite app_nil_r.
Qed.

Lemma get_embeddings_one (text : string) (e : list Q) (w : World) :
  upstream text = Ok (Some e) →
  ∃ w', get_embeddings env [text] w = (Ok [fit_dimension dimension e], w')
        ∧ quiet w w'.
Proof.
  intros Hup. cbn [get_embeddings]. rewrite bind_run.
  destruct (embed_one_ok env text e w Hup) as (w' & -> & Hq).
  by exists w'.
Qed.

Lemma handle_user_message_no_context (ws : WebSocket)
    (message : gmap string Value) (text : string) (e : list Q)
    (resp : QueryResponse) (w : World) :
  message !! "text" = Some (VStr text) →
  strip text ≠ "" →
  is_pure_greeting text = false →
  upstream text = Ok (Some e) →
  s3vectors_query_vectors env
    (query_request env (fit_dimension dimension e)
       (default (VInt 1) (message !! "organisation_id"))
       (default (VInt 1) (message !! "project_id")) 5) = Ok resp →
  Forall short_chunk (extract_chunks resp) →
  ∃ w', handle_user_message env ws message w = (Ok tt, w')
    ∧ llm_calls (trace w') = llm_calls (trace w)
    ∧ frames_sent ws (trace w')
      = frames_sent ws (trace w)
        ++ [FrameTyping true;
            FrameBotResponse
              (if bool_decide (extract_chunks resp = []) then no_information
               else no_context)
              (default (VBool false) (message !! "isVoice")) (time_time env)].
Proof.
  intros Htext Hne Hg Hup Hstore Hshort.
  unfold handle_user_message. rewrite try_except_run, Htext.
  cbn [default from_option id].
  rewrite (bool_decide_eq_false_2 (strip text = "")) by done.
  rewrite bind_run.
  destruct (send_personal_message_run (FrameTyping true) ws w)
    as (w1 & -> & Ha1 & Hl1 & Hf1 & _).
  rewrite bind_run.
  destruct (get_embeddings_one text e w1 Hup) as (w2 & -> & Ha2 & Hl2 & Hf2).
  cbn [first]. rewrite bind_run. cbn [mret IO_ret]. rewrite bind_run.
  destruct (query_vectors_run env (fit_dimension dimension e)
              (default (VInt 1) (message !! "organisation_id"))
              (default (VInt 1) (message !! "project_id")) 5 w2)
    as (w3 & (Ha3 & Hl3 & Hf3) & ->).
  rewrite Hstore. rewrite bind_run.
  case_bool_decide as Hempty; cbn [negb].
  - cbn [mret IO_ret].
    destruct (send_personal_message_run
                (FrameBotResponse no_information
                   (default (VBool false) (message !! "isVoice")) (time_time env))
                ws w3) as (w4 & -> & Ha4 & Hl4 & Hf4 & _).
    exists w4. split; [done|]. split; [congruence|].
    by rewrite Hf4, Hf3, Hf2, Hf1, <- app_assoc.
  - destruct (gate_no_context env text (extract_chunks resp) w3 Hg Hshort)
      as (w4 & -> & Ha4 & fmt & Ht4).
    destruct (send_personal_message_run
                (FrameBotResponse no_context
                   (default (VBool false) (message !! "isVoice")) (time_time env))
                ws w4) as (w5 & -> & Ha5 & Hl5 & Hf5 & _).
    exists w5. split; [done|]. split.
    + rewrite Hl5, Ht4, llm_calls_app. cbn. rewrite app_nil_r. congruence.
    + rewrite Hf5, Ht4, frames_sent_app. cbn. rewrite app_nil_r.
      by rewrite Hf3, Hf2, Hf1, <- app_assoc.
Qed.

End Realtime.

Section Endpoints.
Import VectorStoreService LLMService ChatEndpoints.
Variable env : Env.
Local Abbreviation dimension := (VECTOR_DIMENSION (settings env)).
Local Abbreviation upstream :=
  (bedrock_invoke_model env (EMBEDDING_MODEL_ID (settings env))).

(** The keyword arguments [send_message] builds have no ["answer"]. *)
Lemma ChatResponse_init_response (a : string) (b : bool) (ts : Q) :
  ChatResponse_init {[ "response" := VStr a; "is_voice" := VBool b;
                       "timestamp" := VFloat ts ]}
  = Raise (Exception "ValidationError" "ChatResponse").
Proof. reflexivity. Qed.

Lemma ChatResponse_init_answer (a : string) (t : option string) (b : bool) (ts : Q) :
  ChatResponse_init {[ "answer" := VStr a;
                       "transcript" := from_option VStr VNone t;
                       "is_voice" := VBool b; "timestamp" := VFloat ts ]}
  = Ok {| answer := a; transcript := t; audio_url := None;
          resp_is_voice := b; timestamp := ts |}.
Proof. by destruct t. Qed.

Lemma ChatResponse_init_audio (a u : string) (t : option string) (b : bool) (ts : Q) :
  ChatResponse_init (<["audio_url" := VStr u]>
                       {[ "answer" := VStr a;
                          "transcript" := from_option VStr VNone t;
                          "is_voice" := VBool b; "timestamp" := VFloat ts ]})
  = Ok {| answer := a; transcript := t; audio_url := Some u;
          resp_is_voice := b; timestamp := ts |}.
Proof. by destruct t. Qed.

Theorem send_message_never_succeeds (chat_message : ChatMessage) (w : World) :
  ∃ w', send_message env chat_message w
        = (Raise (HTTPException 500 "Failed to process message"), w').
Proof.
  unfold send_message. rewrite try_except_run, bind_run.
  destruct (answer_query env _ _ _ w) as [[ai_response|err] w1].
  - rewrite ChatResponse_init_response. cbn. by eexists.
  - cbn. by eexists.
Qed.

End Endpoints.

Section ChatPaths.
Import VectorStoreService LLMService ChatEndpoints Main.
Variable env : Env.
Local Abbreviation dimension := (VECTOR_DIMENSION (settings env)).
Local Abbreviation upstream :=
  (bedrock_invoke_model env (EMBEDDING_MODEL_ID (settings env))).

(** Embedding, retrieval and the gate in its NO_CONTEXT state. *)
Lemma answer_query_no_context (query : string) (org proj : Value)
    (e : list Q) (resp : QueryResponse) (w : World) :
  is_pure_greeting query = false →
  upstream query = Ok (Some e) →
  s3vectors_query_vectors env
    (query_request env (fit_dimension dimension e) org proj 5) = Ok resp →
  Forall short_chunk (extract_chunks resp) →
  ∃ w', answer_query env query org proj w = (Ok no_context, w')
        ∧ llm_calls (trace w') = llm_calls (trace w).
Proof.
  intros Hg Hup Hstore Hshort. unfold answer_query. rewrite bind_run.
  destruct (get_embeddings_one env query e w Hup) as (w1 & -> & Ha1 & Hl1 & Hf1).
  cbn [first]. rewrite bind_run. cbn [mret IO_ret]. rewrite bind_run.
  destruct (query_vectors_run env (fit_dimension dimension e) org proj 5 w1)
    as (w2 & (Ha2 & Hl2 & Hf2) & ->).
  rewrite Hstore.
  destruct (gate_no_context env query (extract_chunks resp) w2 Hg Hshort)
    as (w3 & -> & Ha3 & fmt & Ht3).
  exists w3. split; [done|].
  rewrite Ht3, llm_calls_app. cbn. rewrite app_nil_r. congruence.
Qed.

Lemma chat_text_no_context (text : string) (org proj : Z)
    (e : list Q) (resp : QueryResponse) (w : World) :
  strip text ≠ "" →
  is_pure_greeting (strip text) = false →
  upstream (strip text) = Ok (Some e) →
  s3vectors_query_vectors env
    (query_request env (fit_dimension dimension e) (VInt org) (VInt proj) 5)
  = Ok resp →
  Forall short_chunk (extract_chunks resp) →
  ∃ w', chat env (Some text) None org proj w
        = (Ok {| answer := no_context; transcript := None; audio_url := None;
                 resp_is_voice := false; timestamp := time_time env |}, w')
        ∧ llm_calls (trace w') = llm_calls (trace w).
Proof.
  intros Hne Hg Hup Hstore Hshort. unfold chat. rewrite try_except_run.
  destruct text as [|c text]; [done|].
  cbn [negb andb bool_decide decide_rel]. 
  rewrite (bool_decide_eq_false_2 (is_Some None)) by (by intros [? ?]).
  cbn [negb andb]. rewrite bind_run. cbn [mret IO_ret default from_option id].
  rewrite bool_decide_eq_false_2 by done. rewrite bind_run.
  destruct (answer_query_no_context _ (VInt org) (VInt proj) e resp w Hg Hup Hstore Hshort)
    as (w1 & -> & Hl1).
  rewrite bind_run. cbn [mret IO_ret].
  rewrite (ChatResponse_init_answer no_context None false). cbn.
  by exists w1.
Qed.

(** Appending events that are not completions. *)
Lemma llm_calls_logs (tr evs : list Event) :
  llm_calls evs = [] → llm_calls (tr ++ evs) = llm_calls tr.
Proof. intros H. by rewrite llm_calls_app, H, app_nil_r. Qed.

Lemma create_temp_audio_file_run (files : AudioPaths.AudioEnv)
    (extension : string) (w : World) :
  AudioPaths.create_temp_audio_file files extension w
  = match AudioPaths.os_makedirs files (temp_audio_dir files) with
    | Ok _ => (Ok (temp_audio_path files extension), w)
    | Raise e =>
        (Raise e,
         {| active_connections := active_connections w;
            trace := trace w
              ++ [Log ERROR "Failed to create temporary audio file: {e}"] |})
    end.
Proof.
  unfold AudioPaths.create_temp_audio_file. cbv zeta.
  fold (temp_audio_dir files). unfold temp_audio_path. io_unfold.
  by destruct (AudioPaths.os_makedirs files _) as [[]|e].
Qed.

Lemma cleanup_audio_file_run (file_path : string) (w : World) :
  cleanup_audio_file env file_path w
  = (Ok tt, {| active_connections := active_connections w;
               trace := trace w ++ cleanup_log env file_path |}).
Proof.
  unfold cleanup_audio_file, cleanup_log. io_unfold.
  destruct (os_remove env file_path) as [[]|e]; [|done].
  rewrite app_nil_r. by destruct w.
Qed.

Lemma cleanup_log_quiet (file_path : string) :
  llm_calls (cleanup_log env file_path) = [].
Proof. unfold cleanup_log. by destruct (os_remove env file_path). Qed.

(** The voice input whose upload is saved and transcribed. *)
Lemma voice_input_transcribed (audio : UploadFile) (transcribed : string)
    (w : World) :
  upload_saved env audio →
  whisper_transcribe env audio = Ok transcribed →
  voice_input env audio w
  = (Ok (strip transcribed),
     {| active_connections := active_connections w;
        trace := trace w ++ Transcribe audio
                   :: cleanup_log env
                        (temp_audio_path (audio_files env "webm") "webm") |}).
Proof.
  intros [Hdir Hsave] Hw. unfold voice_input.
  rewrite bind_run, create_temp_audio_file_run, Hdir.
  rewrite try_finally_run, bind_run. unfold AudioPaths.untraced at 1.
  rewrite Hsave. unfold transcribe_audio. rewrite try_except_run, bind_run.
  unfold call at 1. rewrite Hw. cbn [mret IO_ret].
  rewrite cleanup_audio_file_run. cbn [trace active_connections].
  by rewrite <- app_assoc.
Qed.

(** The guarded synthesis never raises and makes no completion call;
    it returns the response as it is or with an audio URL. *)
Lemma voice_output_run (ai_response : string) (response_data : gmap string Value)
    (w : World) :
  ∃ r w', voice_output env ai_response response_data w = (Ok r, w')
    ∧ (r = response_data ∨ ∃ url, r = <["audio_url" := VStr url]> response_data)
    ∧ active_connections w' = active_connections w
    ∧ llm_calls (trace w') = llm_calls (trace w).
Proof.
  unfold voice_output. rewrite try_except_run, bind_run.
  rewrite create_temp_audio_file_run.
  destruct (AudioPaths.os_makedirs _ _) as [[]|e].
  - rewrite bind_run. unfold synthesize_speech. rewrite try_except_run, bind_run.
    unfold call at 1.
    destruct (tts_synthesize env ai_response _) as [[]|e].
    + io_unfold. cbn [trace active_connections]. do 2 eexists.
      split; [reflexivity|]. split_and!; [right; by eexists | done |].
      cbn [trace]. by apply llm_calls_logs.
    + io_unfold. cbn [trace active_connections]. do 2 eexists.
      split; [reflexivity|]. split_and!; [by left | done |].
      cbn [trace]. rewrite <- !app_assoc. by apply llm_calls_logs.
  - io_unfold. cbn [trace active_connections]. do 2 eexists.
    split; [reflexivity|]. split_and!; [by left | done |].
    cbn [trace]. rewrite <- !app_assoc. by apply llm_calls_logs.
Qed.

(** [POST /api/v1/message] in the NO_CONTEXT state: no completion is
    requested before the request fails. *)
Lemma send_message_no_context (chat_message : ChatMessage) (e : list Q)
    (resp : QueryResponse) (w : World) :
  is_pure_greeting (message chat_message) = false →
  upstream (message chat_message) = Ok (Some e) →
  s3vectors_query_vectors env
    (query_request env (fit_dimension dimension e)
       (VInt (organisation_id chat_message)) (VInt (project_id chat_message)) 5)
  = Ok resp →
  Forall short_chunk (extract_chunks resp) →
  ∃ w', send_message env chat_message w
        = (Raise (HTTPException 500 "Failed to process message"), w')
    ∧ llm_calls (trace w') = llm_calls (trace w).
Proof.
  intros Hg Hup Hstore Hshort. unfold send_message. rewrite try_except_run, bind_run.
  destruct (answer_query_no_context (message chat_message)
              (VInt (organisation_id chat_message))
              (VInt (project_id chat_message)) e resp w Hg Hup Hstore Hshort)
    as (w1 & -> & Hl1).
  rewrite ChatResponse_init_response. io_unfold. cbn [trace active_connections].
  eexists. split; [reflexivity|]. cbn [trace].
  rewrite llm_calls_app. cbn. rewrite app_nil_r. congruence.
Qed.

Lemma chat_voice_no_context (text : option string) (audio : UploadFile)
    (transcribed : string) (org proj : Z) (e : list Q)
    (resp : QueryResponse) (w : World) :
  text = None ∨ text = Some "" →
  upload_saved env audio →
  whisper_transcribe env audio = Ok transcribed →
  strip transcribed ≠ "" →
  is_pure_greeting (strip transcribed) = false →
  upstream (strip transcribed) = Ok (Some e) →
  s3vectors_query_vectors env
    (query_request env (fit_dimension dimension e) (VInt org) (VInt proj) 5)
  = Ok resp →
  Forall short_chunk (extract_chunks resp) →
  ∃ r w', chat env text (Some audio) org proj w = (Ok r, w')
    ∧ answer r = no_context
    ∧ transcript r = Some (strip transcribed)
    ∧ resp_is_voice r = true
    ∧ llm_calls (trace w') = llm_calls (trace w).
Proof.
  intros Htext Hsaved Hw Hne Hg Hup Hstore Hshort. unfold chat.
  rewrite try_except_run.
  rewrite (bool_decide_eq_true_2 (is_Some (Some audio))) by by eexists.
  assert (Hno : match text with None | Some "" => true | _ => false end = true)
    by (by destruct Htext as [-> | ->]).
  rewrite Hno. cbn [negb andb]. rewrite !bind_run.
  rewrite (voice_input_transcribed audio transcribed w Hsaved Hw).
  cbn [mret IO_ret].
  rewrite bool_decide_eq_false_2 by done. rewrite bind_run.
  destruct (answer_query_no_context (strip transcribed) (VInt org) (VInt proj)
              e resp
              {| active_connections := active_connections w;
                 trace := trace w ++ Transcribe audio
                            :: cleanup_log env
                                 (temp_audio_path (audio_files env "webm") "webm") |}
              Hg Hup Hstore Hshort)
    as (w1 & -> & Hl1).
  cbn [trace] in Hl1.
  rewrite (llm_calls_logs (trace w) (Transcribe audio :: _)) in Hl1
    by apply cleanup_log_quiet.
  rewrite bind_run.
  destruct (voice_output_run no_context
              {[ "answer" := VStr no_context;
                 "transcript" := from_option VStr VNone (Some (strip transcribed));
                 "is_voice" := VBool true;
                 "timestamp" := VFloat (time_time env) ]} w1)
    as (r & w2 & -> & Hr & _ & Hl2).
  destruct Hr as [-> | [url ->]].
  - cbn [from_option].
    rewrite (ChatResponse_init_answer no_context (Some (strip transcribed)) true).
    do 2 eexists. split; [reflexivity|]. cbn. split_and!; [done..|congruence].
  - cbn [from_option].
    rewrite (ChatResponse_init_audio no_context url (Some (strip transcribed)) true).
    do 2 eexists. split; [reflexivity|]. cbn. split_and!; [done..|congruence].
Qed.

End ChatPaths.

Lemma sends_app (t1 t2 : list Event) : sends (t1 ++ t2) = sends t1 ++ sends t2.
Proof. apply flat_map_app. Qed.

Lemma mock_store_honours (db : list VectorData) : honours_filter (mock_store db).
Proof.
  intros req response vs [= <-] [= <-]. split.
  - rewrite length_take. lia.
  - apply Forall_take. apply Forall_forall. intros v Hv.
    apply list_elem_of_In, filter_In in Hv as [_ Hv].
    destruct (metadata v) as [md|]; [by exists md | done].
Qed.

Section Store.
Import VectorStoreService.
Variable env : Env.

(** C4. The request [query_vectors] sends carries the conjunction of
    the two equalities on [organisation_id] and [project_id] as its
    filter and [limit] as its top-K, and the response of the store is
    returned as it is, without filtering of its own.  So, the store
    honouring the filter and the top-K of a request, every vector
    returned carries exactly the queried pair in its metadata and there
    are at most [limit] of them. *)
Theorem query_vectors_tenant_isolation (query_vector : list Q)
    (organisation_id project_id : Value) (limit : Z) (w : World) :
  honours_filter (s3vectors_query_vectors env) →
  let req := query_request env query_vector organisation_id project_id limit in
  filter_expr req = FAnd [FEq "organisation_id" organisation_id;
                          FEq "project_id" project_id]
  ∧ topK req = limit
  ∧ ∃ w', query_vectors env query_vector organisation_id project_id limit w
          = (s3vectors_query_vectors env req, w')
      ∧ retrieval_calls (trace w') = retrieval_calls (trace w) ++ [QueryVectors req]
      ∧ ∀ response vs,
          s3vectors_query_vectors env req = Ok response →
          vectors response = Some vs →
          length vs ≤ Z.to_nat limit
          ∧ Forall (λ v, ∃ md, metadata v = Some md
                        ∧ md !! "organisation_id" = Some organisation_id
                        ∧ md !! "project_id" = Some project_id) vs.
Proof.
  intros Hstore req. split; [done|]. split; [done|].
  assert (Hiso : ∀ response vs,
            s3vectors_query_vectors env req = Ok response →
            vectors response = Some vs →
            length vs ≤ Z.to_nat limit
            ∧ Forall (λ v, ∃ md, metadata v = Some md
                          ∧ md !! "organisation_id" = Some organisation_id
                          ∧ md !! "project_id" = Some project_id) vs).
  { intros response vs Hr Hvs. destruct (Hstore req response vs Hr Hvs) as [Hlen Hall].
    split; [done|]. eapply Forall_impl; [exact Hall|].
    intros v (md & Hmd & Hf). exists md. split; [done|].
    cbn in Hf. rewrite andb_true_r in Hf.
    apply andb_true_iff in Hf as [Ho Hp].
    by apply bool_decide_eq_true in Ho, Hp. }
  unfold query_vectors. fold req. io_unfold.
  destruct (s3vectors_query_vectors env req) as [response|err]; cbn.
  - eexists. split; [reflexivity|]. split; [|done].
    cbn [trace]. unfold retrieval_calls. by rewrite List.filter_app.
  - eexists. split; [reflexivity|]. split; [|done].
    cbn [trace]. unfold retrieval_calls. rewrite !List.filter_app. cbn.
    by rewrite app_nil_r.
Qed.

End Store.

Section StoreWitness.
Import VectorStoreService.

Lemma query_vectors_tenant_isolation_witness :
  let req := query_request policy_env [1; 0; 0; 0]%Q (VInt 1) (VInt 1) 5 in
  filter_expr req = FAnd [FEq "organisation_id" (VInt 1);
                          FEq "project_id" (VInt 1)]
  ∧ topK req = 5%Z
  ∧ ∃ w', query_vectors policy_env [1; 0; 0; 0]%Q (VInt 1) (VInt 1) 5 w0
          = (s3vectors_query_vectors policy_env req, w')
      ∧ retrieval_calls (trace w') = retrieval_calls (trace w0) ++ [QueryVectors req]
      ∧ ∀ response vs,
          s3vectors_query_vectors policy_env req = Ok response →
          vectors response = Some vs →
          length vs ≤ Z.to_nat 5
          ∧ Forall (λ v, ∃ md, metadata v = Some md
                        ∧ md !! "organisation_id" = Some (VInt 1)
                        ∧ md !! "project_id" = Some (VInt 1)) vs.
Proof.
  apply (query_vectors_tenant_isolation policy_env [1; 0; 0; 0]%Q
           (VInt 1) (VInt 1) 5 w0).
  apply mock_store_honours.
Defined.

(** The other tenants' vectors, though listed first, are not
    returned. *)
Example policy_query_isolated :
  fst (query_vectors policy_env [1; 0; 0; 0]%Q (VInt 1) (VInt 1) 5 w0)
  = Ok {| vectors := Some [stored "a_0" 1 1 policy_chunk] |}.
Proof. vm_compute. reflexivity. Qed.

End StoreWitness.

Section Connections.
Import Main.
Variable env : Env.

Lemma py_remove_not_in (ws : WebSocket) (l : list WebSocket) :
  ws ∉ l → py_remove ws l = l.
Proof.
  induction l as [|y l IH]; [done|]. intros Hn.
  apply not_elem_of_cons in Hn as [Hne Hn]. cbn.
  rewrite decide_False by done. by rewrite IH.
Qed.

Lemma disconnect_run (ws : WebSocket) (w : World) :
  disconnect ws w
  = (Ok tt, {| active_connections := py_remove ws (active_connections w);
               trace := trace w |}).
Proof.
  unfold disconnect. io_unfold. case_bool_decide as Hin; [done|].
  rewrite py_remove_not_in by done. by destruct w.
Qed.

(** One guarded send: attempted once, its failure logged and dropped. *)
Lemma guarded_send_run (fmt : string) (frame : Frame) (ws : WebSocket) (w : World) :
  ∃ w', try_except
          (call (SendText ws frame) (websocket_send_text env ws frame))
          (λ e, logger_error fmt) w
        = (Ok tt, w')
    ∧ active_connections w' = active_connections w
    ∧ sends (trace w') = sends (trace w) ++ [(ws, frame)]
    ∧ (websocket_send_text env ws frame = Ok tt →
       trace w' = trace w ++ [SendText ws frame])
    ∧ (∀ e, websocket_send_text env ws frame = Raise e →
       trace w' = trace w ++ [SendText ws frame; Log ERROR fmt]).
Proof.
  io_unfold.
  destruct (websocket_send_text env ws frame) as [[]|err]; cbn [trace active_connections].
  - eexists. split; [reflexivity|]. cbn [trace]. rewrite sends_app.
    by split_and!.
  - eexists. split; [reflexivity|]. cbn [trace].
    rewrite !sends_app. cbn. rewrite app_nil_r, <- app_assoc. by split_and!.
Qed.

Lemma broadcast_loop (frame : Frame) (l : list WebSocket) (w : World) :
  ∃ w', for_each l (λ connection,
          try_except
            (call (SendText connection frame)
               (websocket_send_text env connection frame))
            (λ e, logger_error "Error broadcasting message: {e}")) w
        = (Ok tt, w')
    ∧ active_connections w' = active_connections w
    ∧ sends (trace w') = sends (trace w) ++ map (λ c, (c, frame)) l.
Proof.
  revert w. induction l as [|c l IH]; intros w.
  - exists w. cbn. by rewrite app_nil_r.
  - cbn [for_each]. rewrite bind_run.
    destruct (guarded_send_run "Error broadcasting message: {e}" frame c w)
      as (w1 & -> & Ha1 & Hs1 & _).
    destruct (IH w1) as (w' & -> & Ha & Hs).
    exists w'. split; [done|]. split; [congruence|].
    rewrite Hs, Hs1. cbn. by rewrite <- app_assoc.
Qed.

Lemma broadcast_run (frame : Frame) (w : World) :
  ∃ w', broadcast env frame w = (Ok tt, w')
    ∧ active_connections w' = active_connections w
    ∧ sends (trace w')
      = sends (trace w) ++ map (λ c, (c, frame)) (active_connections w).
Proof. unfold broadcast. rewrite bind_run. cbn. apply broadcast_loop. Qed.

End Connections.

Section Generate.
Import LLMService.
Variable env : Env.

Lemma meaningful_strs (chunks : list string) (w : World) :
  meaningful (VStr <$> chunks) w = (Ok (List.filter long_enough chunks), w).
Proof.
  induction chunks as [|c cs IH]; [done|].
  cbn [fmap list_fmap meaningful List.filter]. rewrite bind_run.
  change (list_fmap string Value VStr cs) with (VStr <$> cs). rewrite IH.
  cbn. unfold long_enough. by destruct (len (strip c) >? 20)%Z.
Qed.

Lemma generate_response_ok (query context ai_response : string) (w : World) :
  openai_chat_create env (answer_request query context) = Ok ai_response →
  generate_response env query context w
  = (Ok ai_response,
     {| active_connections := active_connections w;
        trace := trace w ++ [ChatCompletion (answer_request query context)] |}).
Proof. intros H. unfold generate_response. io_unfold. by rewrite H. Qed.

(** Detection never raises. *)
Lemma _detect_language_run (text : string) (w : World) :
  ∃ w', _detect_language env text w = (Ok (detected env text), w')
    ∧ active_connections w' = active_connections w
    ∧ ∃ logs, trace w' = trace w ++ ChatCompletion (detect_request text) :: logs
              ∧ llm_calls logs = [].
Proof.
  unfold _detect_language, detected. io_unfold.
  destruct (openai_chat_create env (detect_request text)) as [content|err]; cbn.
  - eexists. split; [reflexivity|]. split; [done|]. by exists [].
  - eexists. split; [reflexivity|]. split; [done|].
    eexists [_]. by rewrite <- app_assoc.
Qed.

Lemma translate_content_ok (content target source t : string) (w : World) :
  openai_chat_create env (translate_request content target source) = Ok t →
  ∃ w' source', translate_content env content target source w
      = (Ok {| translated_content := t; source_language := source';
               target_language := target |}, w')
    ∧ active_connections w' = active_connections w
    ∧ ∃ evs, trace w'
             = trace w ++ ChatCompletion (translate_request content target source) :: evs.
Proof.
  intros H. unfold translate_content. rewrite try_except_run, bind_run.
  unfold call at 1. rewrite H. rewrite bind_run.
  case_bool_decide as Hsrc.
  - destruct (_detect_language_run content
               {| active_connections := active_connections w;
                  trace := trace w ++ [ChatCompletion (translate_request content target source)] |})
      as (w' & -> & Ha & logs & Ht & _).
    cbn. do 2 eexists. split; [reflexivity|]. split; [done|].
    eexists. rewrite Ht. cbn [trace]. by rewrite <- app_assoc.
  - cbn. do 2 eexists. split; [reflexivity|]. split; [done|]. by exists [].
Qed.

Lemma translate_content_fails (content target source : string) (err : exn) (w : World) :
  openai_chat_create env (translate_request content target source) = Raise err →
  translate_content env content target source w
  = (Raise err,
     {| active_connections := active_connections w;
        trace := trace w ++ [ChatCompletion (translate_request content target source);
                             Log ERROR "Failed to translate content: {e}";
                             Log ERROR "Translation error type: {type(e)}"] |}).
Proof.
  intros H. unfold translate_content. rewrite try_except_run, bind_run.
  unfold call at 1. rewrite H. io_unfold. cbn [trace active_connections].
  by rewrite <- !app_assoc.
Qed.

Lemma is_english_test (language : string) :
  negb (bool_decide (lower language = "english"))
  && negb (bool_decide (lower language = "en")) = false ↔ is_english language.
Proof.
  unfold is_english. rewrite andb_false_iff, !negb_false_iff, !bool_decide_eq_true.
  done.
Qed.

(** The gate in its GENERATE state. *)
Lemma process_query_generate (query : string) (chunks : list string)
    (ai_response : string) (w : World) :
  is_pure_greeting query = false →
  List.filter long_enough chunks ≠ [] →
  openai_chat_create env
    (answer_request query (join (nl +:+ nl) (List.filter long_enough chunks)))
  = Ok ai_response →
  let language := detected env query in
  let request := translate_request ai_response "English" language in
  ∃ r w' rest,
    process_query_with_context env query (VStr <$> chunks) w = (Ok r, w')
    ∧ llm_calls (trace w')
      = llm_calls (trace w)
        ++ [answer_request query (join (nl +:+ nl) (List.filter long_enough chunks));
            detect_request query] ++ rest
    ∧ (is_english language → r = ai_response ∧ rest = [])
    ∧ (¬ is_english language →
       (∃ more, rest = request :: more)
       ∧ (∀ t, openai_chat_create env request = Ok t → r = t)
       ∧ (∀ e, openai_chat_create env request = Raise e →
               r = ai_response ∧ Log ERROR translate_failed_fmt ∈ trace w')).
Proof.
  intros Hg Hkept Hans language request.
  unfold process_query_with_context. rewrite Hg.
  rewrite bool_decide_eq_false_2 by (by destruct chunks).
  rewrite bind_run, meaningful_strs.
  rewrite bool_decide_eq_false_2 by done.
  rewrite bind_run, (generate_response_ok _ _ _ _ Hans), bind_run.
  destruct (_detect_language_run query
              {| active_connections := active_connections w;
                 trace := trace w ++ [ChatCompletion
                   (answer_request query (join (nl +:+ nl) (List.filter long_enough chunks)))] |})
    as (w1 & -> & Ha1 & logs & Ht1 & Hlogs).
  cbn [trace active_connections] in *. fold language.
  assert (Hl1 : llm_calls (trace w1)
                = llm_calls (trace w)
                  ++ [answer_request query
                        (join (nl +:+ nl) (List.filter long_enough chunks));
                      detect_request query]).
  { rewrite Ht1, !llm_calls_app, !llm_calls_cons, Hlogs. by rewrite <- app_assoc. }
  destruct (negb (bool_decide (lower language = "english"))
            && negb (bool_decide (lower language = "en"))) eqn:Htest.
  - assert (Hne : ¬ is_english language).
    { intros He%is_english_test. congruence. }
    rewrite try_except_run, bind_run. fold request.
    destruct (openai_chat_create env request) as [t|err] eqn:Htr.
    + destruct (translate_content_ok _ _ _ _ w1 Htr)
        as (w2 & src & -> & Ha2 & evs & Ht2).
      cbn. exists t, w2, (request :: llm_calls evs). split_and!.
      * done.
      * rewrite Ht2, llm_calls_app, Hl1. cbn. by rewrite <- app_assoc.
      * done.
      * intros _. split_and!; [by eexists | congruence | congruence].
    + rewrite (translate_content_fails _ _ _ _ w1 Htr). io_unfold. cbn.
      eexists ai_response, _, [request]. split_and!.
      * reflexivity.
      * cbn [trace]. rewrite !llm_calls_app, Hl1. cbn.
        by rewrite app_nil_r, <- app_assoc.
      * done.
      * intros _. split_and!; [by eexists | congruence |].
        intros e _. split; [done|]. cbn [trace].
        apply elem_of_app. right. apply list_elem_of_here.
  - apply is_english_test in Htest. cbn.
    exists ai_response, w1, []. split_and!; [done | by rewrite Hl1 | done | done].
Qed.

End Generate.

(** ** The claims *)

Section GreetingGate.
Import LLMService.

Lemma greeting_response_template (env : Env) (query : string) :
  _generate_greeting_response env query
  ∈ greetings (time_greeting (datetime_now_hour env)).
Proof.
  unfold _generate_greeting_response. apply list_elem_of_In, nth_In.
  apply Nat.mod_upper_bound. done.
Qed.

(** C3. A query is a pure greeting exactly when, trimmed and
    lowercased (in either order), it equals one of the fixed phrases,
    alone or followed by one exclamation mark.  So "hello" is one and
    "hello there" is not.  A pure greeting is answered by one of the
    greeting templates whatever was retrieved, with no call made; any
    other query is answered from the retrieved chunks (with none
    retrieved, by the no-context literal). *)
Theorem greeting_classification (query : string) :
  (is_pure_greeting query = true
   ↔ ∃ greeting, greeting ∈ pure_greetings
        ∧ (lower (strip query) = greeting
           ∨ lower (strip query) = greeting +:+ "!"))
  ∧ lower (strip query) = strip (lower query)
  ∧ is_pure_greeting "hello" = true
  ∧ is_pure_greeting "hello there" = false
  ∧ (is_pure_greeting query = true →
     ∀ env relevant_chunks w,
       process_query_with_context env query relevant_chunks w
       = (Ok (_generate_greeting_response env query), w)
       ∧ _generate_greeting_response env query
         ∈ greetings (time_greeting (datetime_now_hour env)))
  ∧ (is_pure_greeting query = false →
     ∀ env w, fst (process_query_with_context env query [] w) = Ok no_context).
Proof.
  split_and!; [| by rewrite strip_lower | reflexivity | reflexivity | |].
  - rewrite <- strip_lower. apply is_pure_greeting_iff.
  - intros Hg env cs w. unfold process_query_with_context. rewrite Hg.
    split; [done | apply greeting_response_template].
  - intros Hg env w. unfold process_query_with_context. by rewrite Hg.
Qed.

Lemma greeting_classification_witness :
  (∀ env relevant_chunks w,
     process_query_with_context env "  Good Morning! " relevant_chunks w
     = (Ok (_generate_greeting_response env "  Good Morning! "), w)
     ∧ _generate_greeting_response env "  Good Morning! "
       ∈ greetings (time_greeting (datetime_now_hour env)))
  ∧ (∀ env w, fst (process_query_with_context env "hello there" [] w)
              = Ok no_context).
Proof.
  split.
  - apply (greeting_classification "  Good Morning! "). reflexivity.
  - apply (greeting_classification "hello there"). reflexivity.
Defined.

End GreetingGate.

Section NoContext.
Import VectorStoreService LLMService ChatEndpoints Main.

(** C2, as the code has it. For a query that is not a pure greeting
    and retrieved chunks that are none or all of trimmed length at most
    20, no chat completion is requested on any entry path: by the gate
    itself, by [POST /api/v1/chat] for a text and for an audio upload,
    by [POST /api/v1/message] and by the realtime handler.  The answer
    is the no-context literal from the gate, in the response of
    [POST /api/v1/chat], and in the [bot_response] frame of the
    realtime handler when at least one chunk was retrieved.  When the
    realtime handler retrieves no chunk at all it does not enter the
    gate and answers with its own literal; [POST /api/v1/message]
    delivers no answer at all (C1). *)
Theorem no_context_answer (env : Env) (query : string) (chunks : list Value) :
  is_pure_greeting query = false →
  Forall short_chunk chunks →
  (∀ w, ∃ w',
     process_query_with_context env query chunks w = (Ok no_context, w')
     ∧ llm_calls (trace w') = llm_calls (trace w))
  ∧ (∀ text org proj e response w,
       strip text = query → query ≠ "" →
       bedrock_invoke_model env (EMBEDDING_MODEL_ID (settings env)) query
       = Ok (Some e) →
       s3vectors_query_vectors env
         (query_request env (fit_dimension (VECTOR_DIMENSION (settings env)) e)
            (VInt org) (VInt proj) 5) = Ok response →
       extract_chunks response = chunks →
       ∃ w', chat env (Some text) None org proj w
             = (Ok {| answer := no_context; transcript := None;
                      audio_url := None; resp_is_voice := false;
                      timestamp := time_time env |}, w')
         ∧ llm_calls (trace w') = llm_calls (trace w))
  ∧ (∀ text audio transcribed org proj e response w,
       text = None ∨ text = Some "" →
       upload_saved env audio →
       whisper_transcribe env audio = Ok transcribed →
       strip transcribed = query → query ≠ "" →
       bedrock_invoke_model env (EMBEDDING_MODEL_ID (settings env)) query
       = Ok (Some e) →
       s3vectors_query_vectors env
         (query_request env (fit_dimension (VECTOR_DIMENSION (settings env)) e)
            (VInt org) (VInt proj) 5) = Ok response →
       extract_chunks response = chunks →
       ∃ r w', chat env text (Some audio) org proj w = (Ok r, w')
         ∧ answer r = no_context
         ∧ transcript r = Some query
         ∧ resp_is_voice r = true
         ∧ llm_calls (trace w') = llm_calls (trace w))
  ∧ (∀ chat_message e response w,
       message chat_message = query →
       bedrock_invoke_model env (EMBEDDING_MODEL_ID (settings env)) query
       = Ok (Some e) →
       s3vectors_query_vectors env
         (query_request env (fit_dimension (VECTOR_DIMENSION (settings env)) e)
            (VInt (organisation_id chat_message))
            (VInt (project_id chat_message)) 5) = Ok response →
       extract_chunks response = chunks →
       ∃ w', send_message env chat_message w
             = (Raise (HTTPException 500 "Failed to process message"), w')
         ∧ llm_calls (trace w') = llm_calls (trace w))
  ∧ (∀ ws message e response w,
       message !! "text" = Some (VStr query) → strip query ≠ "" →
       bedrock_invoke_model env (EMBEDDING_MODEL_ID (settings env)) query
       = Ok (Some e) →
       s3vectors_query_vectors env
         (query_request env (fit_dimension (VECTOR_DIMENSION (settings env)) e)
            (default (VInt 1) (message !! "organisation_id"))
            (default (VInt 1) (message !! "project_id")) 5) = Ok response →
       extract_chunks response = chunks →
       ∃ w', handle_user_message env ws message w = (Ok tt, w')
         ∧ llm_calls (trace w') = llm_calls (trace w)
         ∧ frames_sent ws (trace w')
           = frames_sent ws (trace w)
             ++ [FrameTyping true;
                 FrameBotResponse
                   (if bool_decide (chunks = []) then no_information
                    else no_context)
                   (default (VBool false) (message !! "isVoice"))
                   (time_time env)]).
Proof.
  intros Hg Hshort. split_and!.
  - intros w.
    destruct (gate_no_context env query chunks w Hg Hshort)
      as (w' & Hrun & _ & fmt & Ht).
    exists w'. split; [done|]. rewrite Ht, llm_calls_app. cbn. by rewrite app_nil_r.
  - intros text org proj e response w <- Hne Hup Hstore <-.
    by apply (chat_text_no_context env text org proj e response w).
  - intros text audio transcribed org proj e response w
      Htext Hsaved Hw <- Hne Hup Hstore <-.
    by apply (chat_voice_no_context env text audio transcribed org proj e response w).
  - intros chat_message e response w Hq Hup Hstore <-. rewrite <- Hq in Hg, Hup.
    by apply (send_message_no_context env chat_message e response w).
  - intros ws message e response w Htext Hne Hup Hstore <-.
    by apply (handle_user_message_no_context env ws message query e response w).
Qed.

Lemma no_context_answer_witness :
  let message : gmap string Value :=
    {[ "type" := VStr "user_message"; "text" := VStr policy_query ]} in
  (∀ w, ∃ w',
     process_query_with_context policy_env policy_query
       [VStr "  Returns: see FAQ    "; VStr "n/a"] w = (Ok no_context, w')
     ∧ llm_calls (trace w') = llm_calls (trace w))
  ∧ ∃ w', handle_user_message empty_env 7 message w0 = (Ok tt, w')
      ∧ llm_calls (trace w') = llm_calls (trace w0)
      ∧ frames_sent 7 (trace w')
        = frames_sent 7 (trace w0)
          ++ [FrameTyping true;
              FrameBotResponse
                (if bool_decide (@nil Value = []) then no_information
                 else no_context)
                (default (VBool false) (message !! "isVoice"))
                (time_time empty_env)].
Proof.
  intros message.
  assert (Hs : Forall short_chunk [VStr "  Returns: see FAQ    "; VStr "n/a"]).
  { repeat constructor; eexists; (split; [reflexivity | vm_compute; discriminate]). }
  split.
  - apply (no_context_answer policy_env policy_query _ eq_refl Hs).
  - destruct (no_context_answer empty_env policy_query [] eq_refl (List.Forall_nil _))
      as (_ & _ & _ & _ & H).
    apply (H 7 message [1; 0; 0; 1]%Q {| vectors := Some [] |} w0);
      first [reflexivity | vm_compute; discriminate].
Defined.

(** The realtime handler, nothing being retrieved, does not answer
    with the no-context literal. *)
Lemma realtime_empty_retrieval_answer :
  let message : gmap string Value :=
    {[ "type" := VStr "user_message"; "text" := VStr policy_query ]} in
  is_pure_greeting policy_query = false
  ∧ (∃ w, s3vectors_query_vectors empty_env
            (query_request empty_env [1; 0; 0; 1]%Q (VInt 1) (VInt 1) 5)
          = Ok {| vectors := Some [] |}
          ∧ extract_chunks {| vectors := Some [] |} = []
          ∧ handle_user_message empty_env 7 message w0 = (Ok tt, w)
          ∧ llm_calls (trace w) = []
          ∧ frames_sent 7 (trace w)
            = [FrameTyping true;
               FrameBotResponse
                 "I don't have enough information to answer your question. Please try rephrasing or ask about something else."
                 (VBool false) 0])
  ∧ no_information ≠ "No context found for your query.".
Proof.
  split; [reflexivity|]. split; [| discriminate].
  eexists. split_and!; [reflexivity | reflexivity | vm_compute; reflexivity
                       | reflexivity | reflexivity].
Qed.

End NoContext.

Section Language.
Import LLMService.

(** C8. In the GENERATE state (not a greeting, some chunk kept, the
    completion answering [ai_response]) the detected language decides:
    when it is "english" or "en" in any letter case the answer is
    [ai_response] and no translation is requested; otherwise a
    translation is requested, by a request whose system turn asks to
    translate from the detected language to English (or, that language
    being blank, to detect the language and translate to English) and
    whose user turn is [ai_response]; its text is the answer when it
    succeeds, and when it fails the answer is [ai_response], the
    failure is logged as an error and the request still succeeds. *)
Theorem language_normalization (env : Env) (query : string)
    (chunks : list string) (ai_response : string) (w : World) :
  is_pure_greeting query = false →
  List.filter long_enough chunks ≠ [] →
  openai_chat_create env
    (answer_request query (join (nl +:+ nl) (List.filter long_enough chunks)))
  = Ok ai_response →
  let language := detected env query in
  let request := translate_request ai_response "English" language in
  request
  = {| model := "gpt-3.5-turbo";
       messages :=
         [("system",
           if bool_decide (language = "")
           then "You are a professional translator. Detect the language of the following text and translate it to English. Maintain the original meaning, tone, and formatting. Return only the translated text without any explanations or additional text."
           else "You are a professional translator. Translate the following text from "
                +:+ language
                +:+ " to English. Maintain the original meaning, tone, and formatting. Return only the translated text without any explanations or additional text.");
          ("user", ai_response)];
       max_tokens := 2000;
       temperature := 3 # 10 |}
  ∧ ∃ r w' rest,
    process_query_with_context env query (VStr <$> chunks) w = (Ok r, w')
    ∧ llm_calls (trace w')
      = llm_calls (trace w)
        ++ [answer_request query (join (nl +:+ nl) (List.filter long_enough chunks));
            detect_request query] ++ rest
    ∧ (is_english language → r = ai_response ∧ rest = [])
    ∧ (¬ is_english language →
       (∃ more, rest = request :: more)
       ∧ (∀ t, openai_chat_create env request = Ok t → r = t)
       ∧ (∀ e, openai_chat_create env request = Raise e →
               r = ai_response ∧ Log ERROR translate_failed_fmt ∈ trace w')).
Proof.
  intros Hg Hkept Hans language request. split.
  - subst request. unfold translate_request, translate_prompt.
    by case_bool_decide.
  - by apply process_query_generate.
Qed.

(** A French query, whose answer is sent to translation, and an
    English query whose language is detected as "ENGLISH", whose answer
    is not. *)
Lemma language_normalization_witness :
  (let query := "Quelle est votre politique de retour ?" in
   let ai_response := "Vous pouvez retourner les articles sous 30 jours." in
   ∃ r w' more,
     process_query_with_context french_env query (VStr <$> [policy_chunk; "n/a"]) w0
     = (Ok r, w')
     ∧ detected french_env query = "French"
     ∧ llm_calls (trace w')
       = llm_calls (trace w0)
         ++ [answer_request query policy_chunk; detect_request query]
         ++ {| model := "gpt-3.5-turbo";
               messages :=
                 [("system",
                   "You are a professional translator. Translate the following text from French to English. Maintain the original meaning, tone, and formatting. Return only the translated text without any explanations or additional text.");
                  ("user", ai_response)];
               max_tokens := 2000;
               temperature := 3 # 10 |} :: more
     ∧ r = policy_answer)
  ∧ ∃ w',
      process_query_with_context capitals_env policy_query
        (VStr <$> [policy_chunk; "n/a"]) w0
      = (Ok policy_answer, w')
      ∧ detected capitals_env policy_query = "ENGLISH"
      ∧ llm_calls (trace w')
        = llm_calls (trace w0)
          ++ [answer_request policy_query policy_chunk;
              detect_request policy_query] ++ [].
Proof.
  split.
  - destruct (language_normalization french_env
                "Quelle est votre politique de retour ?" [policy_chunk; "n/a"]
                "Vous pouvez retourner les articles sous 30 jours." w0)
      as (Hreq & r & w' & rest & Hrun & Hcalls & _ & Hother);
      [reflexivity | vm_compute; discriminate | reflexivity |].
    destruct Hother as ((more & ->) & Hok & _).
    { vm_compute. intros [H|H]; discriminate H. }
    exists r, w', more. split_and!; [exact Hrun | reflexivity | exact Hcalls |].
    apply Hok. reflexivity.
  - destruct (language_normalization capitals_env policy_query
                [policy_chunk; "n/a"] policy_answer w0)
      as (_ & r & w' & rest & Hrun & Hcalls & Henglish & _);
      [reflexivity | vm_compute; discriminate | reflexivity |].
    destruct Henglish as [-> ->]; [left; reflexivity|].
    exists w'. split_and!; [exact Hrun | reflexivity | exact Hcalls].
Defined.

(** The three outcomes on the fixtures. *)
Example french_answer_translated :
  fst (process_query_with_context french_env
         "Quelle est votre politique de retour ?" [VStr policy_chunk] w0)
  = Ok policy_answer.
Proof. reflexivity. Qed.

Example english_answer_unchanged :
  process_query_with_context policy_env policy_query [VStr policy_chunk] w0
  = (Ok policy_answer,
     {| active_connections := [];
        trace := [ChatCompletion (answer_request policy_query policy_chunk);
                  ChatCompletion (detect_request policy_query)] |}).
Proof. reflexivity. Qed.

Example failed_translation_falls_back :
  process_query_with_context untranslated_env
    "Quelle est votre politique de retour ?" [VStr policy_chunk] w0
  = (Ok "Vous pouvez retourner les articles sous 30 jours.",
     {| active_connections := [];
        trace :=
          [ChatCompletion
             (answer_request "Quelle est votre politique de retour ?" policy_chunk);
           ChatCompletion (detect_request "Quelle est votre politique de retour ?");
           ChatCompletion
             (translate_request "Vous pouvez retourner les articles sous 30 jours."
                "English" "French");
           Log ERROR "Failed to translate content: {e}";
           Log ERROR "Translation error type: {type(e)}";
           Log ERROR translate_failed_fmt] |}).
Proof. reflexivity. Qed.

(** C10. When the detection call fails, [_detect_language] returns
    "Unknown" and logs a warning instead of raising; in the GENERATE
    state the gate then requests a translation, whatever the language
    of the query, by a request whose system turn asks to translate from
    Unknown to English and whose user turn is the answer; and a
    translation that succeeds replaces the answer. *)
Theorem detection_failure_translates (env : Env) (query : string)
    (chunks : list string) (ai_response : string) (err : exn) (w : World) :
  is_pure_greeting query = false →
  List.filter long_enough chunks ≠ [] →
  openai_chat_create env
    (answer_request query (join (nl +:+ nl) (List.filter long_enough chunks)))
  = Ok ai_response →
  openai_chat_create env (detect_request query) = Raise err →
  let request :=
    {| model := "gpt-3.5-turbo";
       messages :=
         [("system",
           "You are a professional translator. Translate the following text from Unknown to English. Maintain the original meaning, tone, and formatting. Return only the translated text without any explanations or additional text.");
          ("user", ai_response)];
       max_tokens := 2000;
       temperature := 3 # 10 |} in
  _detect_language env query w
  = (Ok "Unknown",
     {| active_connections := active_connections w;
        trace := trace w ++ [ChatCompletion (detect_request query);
                             Log WARNING "Language detection failed: {e}, defaulting to 'Unknown'"] |})
  ∧ translate_request ai_response "English" "Unknown" = request
  ∧ ∃ r w',
      process_query_with_context env query (VStr <$> chunks) w = (Ok r, w')
      ∧ request ∈ llm_calls (trace w')
      ∧ ∀ t, openai_chat_create env request = Ok t → r = t.
Proof.
  intros Hg Hkept Hans Hdet request. split_and!.
  - unfold _detect_language. io_unfold. rewrite Hdet. cbn.
    by rewrite <- app_assoc.
  - reflexivity.
  - change request with (translate_request ai_response "English" "Unknown").
    destruct (process_query_generate env query chunks ai_response w Hg Hkept Hans)
      as (r & w' & rest & Hrun & Hcalls & _ & Hne).
    assert (Hlang : detected env query = "Unknown").
    { unfold detected. by rewrite Hdet. }
    rewrite Hlang in Hne.
    destruct Hne as ((more & ->) & Hok & _).
    { intros [H|H]; discriminate H. }
    exists r, w'. split; [done|]. split; [|done].
    rewrite Hcalls. apply elem_of_app. right.
    do 2 apply list_elem_of_further. apply list_elem_of_here.
Qed.

Lemma detection_failure_translates_witness :
  let request :=
    {| model := "gpt-3.5-turbo";
       messages :=
         [("system",
           "You are a professional translator. Translate the following text from Unknown to English. Maintain the original meaning, tone, and formatting. Return only the translated text without any explanations or additional text.");
          ("user", policy_answer)];
       max_tokens := 2000;
       temperature := 3 # 10 |} in
  _detect_language undetected_env policy_query w0
  = (Ok "Unknown",
     {| active_connections := active_connections w0;
        trace := trace w0 ++ [ChatCompletion (detect_request policy_query);
                              Log WARNING "Language detection failed: {e}, defaulting to 'Unknown'"] |})
  ∧ translate_request policy_answer "English" "Unknown" = request
  ∧ ∃ r w',
      process_query_with_context undetected_env policy_query
        (VStr <$> [policy_chunk]) w0 = (Ok r, w')
      ∧ request ∈ llm_calls (trace w')
      ∧ ∀ t, openai_chat_create undetected_env request = Ok t → r = t.
Proof.
  apply (detection_failure_translates undetected_env policy_query [policy_chunk]
           policy_answer (Exception "APIError" "timeout") w0).
  - reflexivity.
  - vm_compute. discriminate.
  - reflexivity.
  - reflexivity.
Defined.

(** An English query, detection down: the answer is replaced by the
    translator's text. *)
Example undetected_english_is_translated :
  fst (process_query_with_context undetected_env policy_query [VStr policy_chunk] w0)
  = Ok "You may return items within 30 days.".
Proof. reflexivity. Qed.

End Language.

Section Endpoint.
Import VectorStoreService LLMService ChatEndpoints Main.

(** C1 (defect of the code). [POST /api/v1/message] never returns a
    response: the keyword arguments it builds carry the answer under
    ["response"], the response model requires ["answer"], and the
    validation error is turned into a 500.  On the end-to-end scenario
    embedding, retrieval, gate and completion all succeed with the
    answer, [POST /api/v1/chat] delivers it, and [POST /api/v1/message]
    fails. *)
Theorem send_message_fails (env : Env) (chat_message : ChatMessage) (w : World) :
  (∃ w', send_message env chat_message w
         = (Raise (HTTPException 500 "Failed to process message"), w'))
  ∧ fst (answer_query policy_env policy_query (VInt 1) (VInt 1) w0)
    = Ok policy_answer
  ∧ fst (chat policy_env (Some policy_query) None 1 1 w0)
    = Ok {| answer := policy_answer; transcript := None; audio_url := None;
            resp_is_voice := false; timestamp := 0 |}
  ∧ fst (send_message policy_env policy_message w0)
    = Raise (HTTPException 500 "Failed to process message").
Proof.
  split; [apply send_message_never_succeeds|]. by split_and!.
Qed.

(** [POST /api/v1/chat] rejects a blank text before any call. *)
Lemma chat_rejects_blank_text (env : Env) (text : string) (org proj : Z) (w : World) :
  strip text = "" →
  ∃ detail, chat env (Some text) None org proj w
            = (Raise (HTTPException 400 detail), w).
Proof.
  intros Hblank. unfold chat. rewrite try_except_run.
  rewrite (bool_decide_eq_false_2 (is_Some None)) by (by intros [? ?]).
  destruct text as [|c text]; [by eexists|].
  cbn [negb andb]. rewrite bind_run. cbn [mret IO_ret default from_option id].
  rewrite Hblank. by eexists.
Qed.

(** So it does for a blank transcript, after the transcription only. *)
Lemma chat_rejects_blank_transcript (env : Env) (text : option string)
    (audio : UploadFile) (transcribed : string) (org proj : Z) (w : World) :
  text = None ∨ text = Some "" →
  upload_saved env audio →
  whisper_transcribe env audio = Ok transcribed →
  strip transcribed = "" →
  chat env text (Some audio) org proj w
  = (Raise (HTTPException 400 "No text content found"),
     {| active_connections := active_connections w;
        trace := trace w ++ Transcribe audio
                   :: cleanup_log env
                        (temp_audio_path (audio_files env "webm") "webm") |}).
Proof.
  intros Htext Hsaved Hw Hblank. unfold chat. rewrite try_except_run.
  rewrite (bool_decide_eq_true_2 (is_Some (Some audio))) by by eexists.
  assert (Hno : match text with None | Some "" => true | _ => false end = true)
    by (by destruct Htext as [-> | ->]).
  rewrite Hno. cbn [negb andb]. rewrite !bind_run.
  rewrite (voice_input_transcribed env audio transcribed w Hsaved Hw).
  cbn [mret IO_ret]. by rewrite Hblank.
Qed.

(** The realtime handler answers a blank text with an error frame and
    makes no other call. *)
Lemma handle_user_message_rejects_blank (env : Env) (ws : WebSocket)
    (message : gmap string Value) (text : string) (w : World) :
  message !! "text" = Some (VStr text) → strip text = "" →
  ∃ w', handle_user_message env ws message w = (Ok tt, w')
    ∧ sends (trace w') = sends (trace w) ++ [(ws, FrameError "Empty message received")]
    ∧ retrieval_calls (trace w') = retrieval_calls (trace w)
    ∧ llm_calls (trace w') = llm_calls (trace w).
Proof.
  intros Htext Hblank. unfold handle_user_message.
  rewrite try_except_run, Htext. cbn [default from_option id].
  rewrite Hblank. cbn [bool_decide decide_rel].
  rewrite bool_decide_eq_true_2 by done.
  unfold send_personal_message.
  destruct (guarded_send_run env "Error sending personal message: {e}"
              (FrameError "Empty message received") ws w)
    as (w' & -> & _ & Hs & Hok & Hfail).
  exists w'. split; [done|]. split; [done|].
  destruct (websocket_send_text env ws (FrameError "Empty message received"))
    as [[]|e].
  - rewrite Hok by done. unfold retrieval_calls.
    rewrite List.filter_app, llm_calls_app. cbn. by rewrite !app_nil_r.
  - rewrite (Hfail e) by done. unfold retrieval_calls.
    rewrite List.filter_app, llm_calls_app. cbn. by rewrite !app_nil_r.
Qed.

(** C6 (defect of the code). [POST /api/v1/message] has no check of
    its text: a blank message is embedded, retrieved for and handed to
    the gate, which logs its warning, before the request ends in the
    500 of C1.  The other two entry points reject the same text before
    any call (for every input: [chat_rejects_blank_text],
    [chat_rejects_blank_transcript],
    [handle_user_message_rejects_blank]). *)
Theorem send_message_accepts_blank :
  strip (message blank_message) = ""
  ∧ send_message empty_env blank_message w0
    = (Raise (HTTPException 500 "Failed to process message"),
       {| active_connections := [];
          trace :=
            [InvokeModel "amazon.titan-embed-text-v2:0" "   ";
             QueryVectors (query_request empty_env [1; 0; 0; 1]%Q (VInt 1) (VInt 1) 5);
             Log WARNING "No relevant chunks found for query: '{query}'";
             Log ERROR "Error processing chat message: {e}"] |})
  ∧ chat empty_env (Some "   ") None 1 1 w0
    = (Raise (HTTPException 400 "No text content found"), w0)
  ∧ handle_user_message empty_env 7 {[ "text" := VStr "   " ]} w0
    = (Ok tt,
       {| active_connections := [];
          trace := [SendText 7 (FrameError "Empty message received")] |}).
Proof. by split_and!. Qed.

End Endpoint.

Section Sessions.
Import Main.

(** C7, as the code has it. A send never raises and never changes the
    list of connections: a failed send is logged and dropped, for one
    target and in a broadcast alike, and the broadcast goes on to every
    other connection in order.  A connection leaves the list only by
    [disconnect], which removes its first occurrence. *)
Theorem send_failure_isolated (env : Env) (frame : Frame) (ws : WebSocket)
    (w : World) :
  (∃ w', send_personal_message env frame ws w = (Ok tt, w')
     ∧ active_connections w' = active_connections w
     ∧ sends (trace w') = sends (trace w) ++ [(ws, frame)]
     ∧ (∀ e, websocket_send_text env ws frame = Raise e →
          trace w' = trace w ++ [SendText ws frame;
                                 Log ERROR "Error sending personal message: {e}"]))
  ∧ (∃ w', broadcast env frame w = (Ok tt, w')
       ∧ active_connections w' = active_connections w
       ∧ sends (trace w')
         = sends (trace w) ++ map (λ c, (c, frame)) (active_connections w))
  ∧ disconnect ws w
    = (Ok tt, {| active_connections := py_remove ws (active_connections w);
                 trace := trace w |}).
Proof.
  split_and!.
  - destruct (guarded_send_run env "Error sending personal message: {e}" frame ws w)
      as (w' & Hrun & Ha & Hs & _ & Hfail).
    by exists w'.
  - apply broadcast_run.
  - apply disconnect_run.
Qed.

(** A failed send leaves the half-closed connection in the list. *)
Lemma failed_send_keeps_connection :
  let w := {| active_connections := [1; 2]; trace := [] |} in
  websocket_send_text half_closed_env 1 FramePong
  = Raise (Exception "RuntimeError" "closed")
  ∧ send_personal_message half_closed_env FramePong 1 w
    = (Ok tt,
       {| active_connections := [1; 2];
          trace := [SendText 1 FramePong;
                    Log ERROR "Error sending personal message: {e}"] |})
  ∧ broadcast half_closed_env FramePong w
    = (Ok tt,
       {| active_connections := [1; 2];
          trace := [SendText 1 FramePong;
                    Log ERROR "Error broadcasting message: {e}";
                    SendText 2 FramePong] |})
  ∧ 1 ∈ active_connections (snd (send_personal_message half_closed_env FramePong 1 w)).
Proof. split_and!; [reflexivity.. |]. cbn. apply list_elem_of_here. Qed.

End Sessions.

(** * Further properties *)

Section Effects.
Context (P : Event → Prop).

Lemma emits_only_ret {A} (a : A) : emits_only P (mret a).
Proof. intros w. split; [done|]. exists []. by rewrite app_nil_r. Qed.

Lemma emits_only_raise {A} (e : exn) : emits_only P (@raise A e).
Proof. intros w. split; [done|]. exists []. by rewrite app_nil_r. Qed.

Lemma emits_only_call {A} (ev : Event) (r : result A) :
  P ev → emits_only P (call ev r).
Proof. intros Hev w. split; [done|]. exists [ev]. split; [done|]. by constructor. Qed.

Lemma emits_only_emit (ev : Event) : P ev → emits_only P (emit ev).
Proof. intros Hev w. split; [done|]. exists [ev]. split; [done|]. by constructor. Qed.

Lemma emits_only_bind {A B} (m : IO A) (f : A → IO B) :
  emits_only P m → (∀ a, emits_only P (f a)) → emits_only P (m ≫= f).
Proof.
  intros Hm Hf w. rewrite bind_run. specialize (Hm w).
  destruct (m w) as [[a|e] w1]; cbn [snd] in *; [|done].
  destruct Hm as (Ha & evs & Ht & Hp).
  destruct (Hf a w1) as (Ha' & evs' & Ht' & Hp').
  split; [congruence|]. exists (evs ++ evs'). split.
  - by rewrite Ht', Ht, app_assoc.
  - by apply Forall_app.
Qed.

Lemma emits_only_try {A} (m : IO A) (h : exn → IO A) :
  emits_only P m → (∀ e, emits_only P (h e)) → emits_only P (try_except m h).
Proof.
  intros Hm Hh w. rewrite try_except_run. specialize (Hm w).
  destruct (m w) as [[a|e] w1]; cbn [snd] in *; [done|].
  destruct Hm as (Ha & evs & Ht & Hp).
  destruct (Hh e w1) as (Ha' & evs' & Ht' & Hp').
  split; [congruence|]. exists (evs ++ evs'). split.
  - by rewrite Ht', Ht, app_assoc.
  - by apply Forall_app.
Qed.

Lemma emits_only_finally {A} (m : IO A) (cleanup : IO unit) :
  emits_only P m → emits_only P cleanup → emits_only P (try_finally m cleanup).
Proof.
  intros Hm Hc w. rewrite try_finally_run. specialize (Hm w).
  destruct (m w) as [r w1]; cbn [snd] in *.
  destruct Hm as (Ha & evs & Ht & Hp).
  destruct (Hc w1) as (Ha' & evs' & Ht' & Hp').
  assert (H : active_connections (snd (cleanup w1)) = active_connections w
              ∧ ∃ evs0, trace (snd (cleanup w1)) = trace w ++ evs0 ∧ Forall P evs0).
  { split; [congruence|]. exists (evs ++ evs'). split.
    - by rewrite Ht', Ht, app_assoc.
    - by apply Forall_app. }
  by destruct (cleanup w1) as [[[]|e] w2].
Qed.

Lemma emits_only_untraced {A} (r : result A) : emits_only P (AudioPaths.untraced r).
Proof. intros w. split; [done|]. exists []. by rewrite app_nil_r. Qed.

End Effects.

Lemma emits_only_mono {A} (P Q : Event → Prop) (m : IO A) :
  (∀ ev, P ev → Q ev) → emits_only P m → emits_only Q m.
Proof.
  intros Hpq Hm w. destruct (Hm w) as (Ha & evs & Ht & Hp).
  split; [done|]. exists evs. split; [done|]. by eapply Forall_impl.
Qed.

(** Decompose a goal [emits_only P m] along the structure of [m]. *)
Ltac emits_step :=
  lazymatch goal with
  | |- emits_only _ (mret _) => apply emits_only_ret
  | |- emits_only _ (raise _) => apply emits_only_raise
  | |- emits_only _ (_ ≫= _) => apply emits_only_bind; [|intros ?]
  | |- emits_only _ (try_except _ _) => apply emits_only_try; [|intros ?]
  | |- emits_only _ (try_finally _ _) => apply emits_only_finally
  | |- emits_only _ (AudioPaths.untraced _) => apply emits_only_untraced
  | |- emits_only _ (call _ _) => apply emits_only_call; done
  | |- emits_only _ (emit _) => apply emits_only_emit; done
  | |- emits_only _ (logger_error _) => apply emits_only_emit; done
  | |- emits_only _ (logger_warning _) => apply emits_only_emit; done
  | |- emits_only _ (if ?b then _ else _) => destruct b
  | |- emits_only _ (match ?x with _ => _ end) => destruct x
  | |- emits_only _ (let _ := _ in _) => cbv zeta
  end.

Section PipelineEffects.
Import VectorStoreService LLMService ChatEndpoints Main.
Variable env : Env.

Lemma embed_one_emits (text : string) : emits_only pipeline_event (embed_one env text).
Proof. unfold embed_one. repeat emits_step. Qed.

Lemma get_embeddings_emits (texts : list string) :
  emits_only pipeline_event (get_embeddings env texts).
Proof.
  induction texts as [|t ts IH]; cbn [get_embeddings]; repeat emits_step.
  - apply embed_one_emits.
  - apply IH.
Qed.

Lemma query_vectors_emits (qv : list Q) (org proj : Value) (limit : Z) :
  emits_only pipeline_event (query_vectors env qv org proj limit).
Proof. unfold query_vectors. repeat emits_step. Qed.

Lemma _detect_language_emits (text : string) :
  emits_only llm_event (_detect_language env text).
Proof. unfold _detect_language. repeat emits_step. Qed.

Lemma translate_content_emits (content target source : string) :
  emits_only llm_event (translate_content env content target source).
Proof.
  unfold translate_content. repeat emits_step. apply _detect_language_emits.
Qed.

Lemma meaningful_emits (chunks : list Value) : emits_only llm_event (meaningful chunks).
Proof.
  induction chunks as [|c cs IH]; cbn [meaningful]; repeat emits_step. apply IH.
Qed.

Lemma process_query_emits (query : string) (chunks : list Value) :
  emits_only llm_event (process_query_with_context env query chunks).
Proof.
  unfold process_query_with_context, generate_response. repeat emits_step;
    first [apply meaningful_emits | apply _detect_language_emits
          | apply translate_content_emits].
Qed.

Lemma llm_pipeline (ev : Event) : llm_event ev → pipeline_event ev.
Proof. by destruct ev. Qed.

Lemma answer_query_emits (text : string) (org proj : Value) :
  emits_only pipeline_event (answer_query env text org proj).
Proof.
  unfold answer_query, first. repeat emits_step;
    first [apply get_embeddings_emits | apply query_vectors_emits
          | eapply emits_only_mono; [apply llm_pipeline | apply process_query_emits]].
Qed.

End PipelineEffects.

Section EndpointEffects.
Import VectorStoreService LLMService ChatEndpoints Main.
Variable env : Env.

Lemma pipeline_http (ev : Event) : pipeline_event ev → http_event ev.
Proof. by destruct ev. Qed.

Lemma pipeline_session (ws : WebSocket) (ev : Event) :
  pipeline_event ev → session_event ws ev.
Proof. by destruct ev. Qed.

Lemma send_message_emits (chat_message : ChatMessage) :
  emits_only http_event (send_message env chat_message).
Proof.
  unfold send_message. repeat emits_step.
  eapply emits_only_mono; [apply pipeline_http | apply answer_query_emits].
Qed.

Lemma chat_emits (text : option string) (audio : option UploadFile) (org proj : Z) :
  emits_only http_event (chat env text audio org proj).
Proof.
  unfold chat, voice_input, voice_output, transcribe_audio, cleanup_audio_file,
    synthesize_speech, AudioPaths.create_temp_audio_file, AudioPaths.get_audio_url.
  repeat emits_step;
    (eapply emits_only_mono; [apply pipeline_http | apply answer_query_emits]).
Qed.

Lemma send_personal_message_emits (frame : Frame) (ws : WebSocket) :
  emits_only (session_event ws) (send_personal_message env frame ws).
Proof. unfold send_personal_message. repeat emits_step. Qed.

Lemma handle_user_message_emits (ws : WebSocket) (message : gmap string Value) :
  emits_only (session_event ws) (handle_user_message env ws message).
Proof.
  unfold handle_user_message, first.
  repeat emits_step;
    first [ apply send_personal_message_emits
          | eapply emits_only_mono;
            [apply pipeline_session
            | first [apply get_embeddings_emits | apply query_vectors_emits]]
          | eapply emits_only_mono;
            [intros ev Hev; apply pipeline_session, llm_pipeline, Hev
            | apply process_query_emits] ].
Qed.

Lemma handle_websocket_message_emits (ws : WebSocket) (message : gmap string Value) :
  emits_only (session_event ws) (handle_websocket_message env ws message).
Proof.
  unfold handle_websocket_message.
  apply emits_only_try; [|intros e; repeat emits_step; apply send_personal_message_emits].
  repeat case_match;
    first [apply handle_user_message_emits | apply send_personal_message_emits].
Qed.

(** Handlers built as [try: ... except Exception: log; send] return. *)
Lemma send_personal_message_returns (frame : Frame) (ws : WebSocket) :
  never_raises (send_personal_message env frame ws).
Proof.
  intros w. destruct (guarded_send_run env "Error sending personal message: {e}" frame ws w)
    as (w' & Hrun & _).
  exists tt. unfold send_personal_message. by rewrite Hrun.
Qed.

Lemma guarded_returns {A} (m : IO A) (h : exn → IO A) :
  (∀ e, never_raises (h e)) → never_raises (try_except m h).
Proof.
  intros Hh w. rewrite try_except_run.
  destruct (m w) as [[a|e] w1]; [by exists a|]. apply Hh.
Qed.

Lemma logged_send_returns (fmt : string) (frame : Frame) (ws : WebSocket) :
  never_raises (logger_error fmt ;; send_personal_message env frame ws).
Proof.
  intros w. rewrite bind_run. unfold logger_error, emit.
  apply send_personal_message_returns.
Qed.

Lemma handle_user_message_returns (ws : WebSocket) (message : gmap string Value) :
  never_raises (handle_user_message env ws message).
Proof. apply guarded_returns. intros e. apply logged_send_returns. Qed.

Lemma handle_websocket_message_returns (ws : WebSocket) (message : gmap string Value) :
  never_raises (handle_websocket_message env ws message).
Proof. apply guarded_returns. intros e. apply logged_send_returns. Qed.

End EndpointEffects.

Section Replies.
Import VectorStoreService LLMService ChatEndpoints Main.
Variable env : Env.
Variable ws : WebSocket.

Lemma emits_grows {A} (P : Event → Prop) (m : IO A) : emits_only P m → grows ws m.
Proof.
  intros Hm w. destruct (Hm w) as (_ & evs & -> & _).
  exists (frames_sent ws evs). apply frames_sent_app.
Qed.

Lemma session_event_others (ws' : WebSocket) (evs : list Event) :
  ws' ≠ ws → Forall (session_event ws) evs → frames_sent ws' evs = [].
Proof.
  intros Hne. induction 1 as [|ev evs Hev _ IH]; [done|].
  change (ev :: evs) with ([ev] ++ evs).
  rewrite frames_sent_app, IH, app_nil_r. destruct ev; try done.
  cbn in *. subst. by rewrite decide_False by done.
Qed.

Lemma send_personal_message_replies (frame : Frame) :
  replies ws (send_personal_message env frame ws).
Proof.
  intros w. destruct (send_personal_message_run env frame ws w)
    as (w' & Hrun & _ & _ & Hf & _).
  exists [frame]. rewrite Hrun. by split.
Qed.

Lemma replies_bind {A B} (m : IO A) (f : A → IO B) :
  replies ws m → (∀ a, grows ws (f a)) → replies ws (m ≫= f).
Proof.
  intros Hm Hf w. rewrite bind_run. destruct (Hm w) as (fs & Hne & Hfs).
  destruct (m w) as [[a|e] w1]; cbn [snd] in *; [|by exists fs].
  destruct (Hf a w1) as (fs' & Hfs'). exists (fs ++ fs'). split.
  - by destruct fs.
  - by rewrite Hfs', Hfs, app_assoc.
Qed.

(** A guarded block replies when its handler does and its body, where
    it returns, has replied. *)
Lemma replies_try {A} (m : IO A) (h : exn → IO A) :
  grows ws m →
  (∀ w, (∃ e, fst (m w) = Raise e)
        ∨ ∃ fs, fs ≠ []
            ∧ frames_sent ws (trace (snd (m w))) = frames_sent ws (trace w) ++ fs) →
  (∀ e, replies ws (h e)) →
  replies ws (try_except m h).
Proof.
  intros Hg Hm Hh w. rewrite try_except_run.
  specialize (Hg w). specialize (Hm w).
  destruct (m w) as [[a|e] w1]; cbn [fst snd] in *.
  - destruct Hm as [[e He] | Hm]; [done | exact Hm].
  - destruct Hg as (fs & Hfs). destruct (Hh e w1) as (fs' & Hne & Hfs').
    exists (fs ++ fs'). split.
    + by destruct fs, fs'.
    + by rewrite Hfs', Hfs, app_assoc.
Qed.

Lemma logged_send_replies (fmt : string) (frame : Frame) :
  replies ws (logger_error fmt ;; send_personal_message env frame ws).
Proof.
  intros w. rewrite bind_run. unfold logger_error, emit.
  destruct (send_personal_message_replies frame
              {| active_connections := active_connections w;
                 trace := trace w ++ [Log ERROR fmt] |}) as (fs & Hne & Hfs).
  exists fs. split; [done|]. rewrite Hfs. cbn [trace].
  rewrite frames_sent_app. cbn. by rewrite app_nil_r.
Qed.

Ltac session_emits :=
  repeat emits_step;
  first [ apply send_personal_message_emits
        | eapply emits_only_mono;
          [apply pipeline_session
          | first [apply get_embeddings_emits | apply query_vectors_emits]]
        | eapply emits_only_mono;
          [intros ev Hev; apply pipeline_session, llm_pipeline, Hev
          | apply process_query_emits] ].

Lemma handle_user_message_replies (message : gmap string Value) :
  replies ws (handle_user_message env ws message).
Proof.
  unfold handle_user_message. cbv zeta.
  apply replies_try; [| | intros e; apply logged_send_replies].
  - apply (emits_grows (session_event ws)). unfold first. session_emits.
  - intros w. destruct (default (VStr "") (message !! "text")) as [| | | |s];
      try (left; by eexists).
    right. case_bool_decide.
    + apply send_personal_message_replies.
    + apply replies_bind; [apply send_personal_message_replies|].
      intros _. apply (emits_grows (session_event ws)). unfold first. session_emits.
Qed.

Lemma handle_websocket_message_replies (message : gmap string Value) :
  replies ws (handle_websocket_message env ws message).
Proof.
  unfold handle_websocket_message.
  apply replies_try; [| | intros e; apply logged_send_replies].
  - apply (emits_grows (session_event ws)).
    repeat case_match;
      first [apply handle_user_message_emits | apply send_personal_message_emits].
  - intros w. right.
    repeat case_match;
      first [apply handle_user_message_replies | apply send_personal_message_replies].
Qed.

End Replies.

Section RealtimeContract.
Import Main.

(** X1. Whatever the message and whatever fails, the realtime dispatcher
    returns normally, sends at least one frame to the socket the
    message came from, sends nothing to any other socket and leaves
    the list of connections as it was. *)
Theorem realtime_message_contract (env : Env) (ws : WebSocket)
    (message : gmap string Value) (w : World) :
  ∃ w' fs,
    handle_websocket_message env ws message w = (Ok tt, w')
    ∧ active_connections w' = active_connections w
    ∧ fs ≠ []
    ∧ frames_sent ws (trace w') = frames_sent ws (trace w) ++ fs
    ∧ ∀ ws', ws' ≠ ws → frames_sent ws' (trace w') = frames_sent ws' (trace w).
Proof.
  destruct (handle_websocket_message_returns env ws message w) as ([] & Hok).
  destruct (handle_websocket_message_emits env ws message w) as (Ha & evs & Ht & Hev).
  destruct (handle_websocket_message_replies env ws message w) as (fs & Hne & Hfs).
  destruct (handle_websocket_message env ws message w) as [r w'].
  cbn [fst snd] in *. subst r. exists w', fs. split_and!; [done..|].
  intros ws' Hws. rewrite Ht, frames_sent_app.
  by rewrite (session_event_others ws ws' evs), app_nil_r.
Qed.

End RealtimeContract.

Section Session.
Import Main WebSocketEndpoint.
Variable env : Env.
Variable ws : WebSocket.

Lemma handle_parsed_emits (message : Json) :
  emits_only (session_event ws) (handle_parsed env ws message).
Proof.
  destruct message; cbn [handle_parsed].
  - apply handle_websocket_message_emits.
  - repeat emits_step. apply send_personal_message_emits.
Qed.

Lemma handle_parsed_returns (message : Json) :
  never_raises (handle_parsed env ws message).
Proof.
  destruct message; cbn [handle_parsed].
  - apply handle_websocket_message_returns.
  - apply logged_send_returns.
Qed.

Lemma handle_parsed_replies (message : Json) :
  replies ws (handle_parsed env ws message).
Proof.
  destruct message; cbn [handle_parsed].
  - apply handle_websocket_message_replies.
  - apply logged_send_replies.
Qed.

(** One text received whose loading is not fatal: handled without an
    exception, answered by at least one frame, to this socket only. *)
Lemma receive_one (data : result Json) (w : World) :
  fatal data = false →
  ∃ w' evs fs,
    receive_turn env ws data w = (Ok tt, w')
    ∧ active_connections w' = active_connections w
    ∧ trace w' = trace w ++ evs ∧ Forall (session_event ws) evs
    ∧ frames_sent ws evs = fs ∧ fs ≠ []
    ∧ (∀ e, data = Raise e → fs = [FrameError "Invalid JSON format"]).
Proof.
  intros Hfatal.
  set (m := match data with
            | Ok message => handle_parsed env ws message
            | Raise _ => send_personal_message env (FrameError "Invalid JSON format") ws
            end).
  assert (Hturn : receive_turn env ws data w = m w).
  { unfold receive_turn, json_loads. rewrite try_except_run, bind_run. subst m.
    destruct data as [message|e].
    - destruct (handle_parsed_returns message w) as ([] & Hok).
      destruct (handle_parsed env ws message w) as [r w']. cbn in Hok. by subst r.
    - cbn in Hfatal. apply negb_false_iff in Hfatal. by rewrite Hfatal. }
  assert (He : emits_only (session_event ws) m).
  { destruct data; [apply handle_parsed_emits | apply send_personal_message_emits]. }
  assert (Hr : never_raises m).
  { destruct data; [apply handle_parsed_returns | apply send_personal_message_returns]. }
  assert (Hp : replies ws m).
  { destruct data; [apply handle_parsed_replies | apply send_personal_message_replies]. }
  destruct (He w) as (Ha & evs & Ht & Hev). destruct (Hr w) as ([] & Hok).
  destruct (Hp w) as (fs & Hne & Hfs).
  assert (Hfs' : frames_sent ws evs = fs).
  { rewrite Ht, frames_sent_app in Hfs. by apply app_inv_head in Hfs. }
  rewrite Hturn.
  destruct (m w) as [r w'] eqn:Hm. cbn [fst snd] in *. subst r.
  exists w', evs, fs. split_and!; try done.
  intros e ->. subst m.
  destruct (send_personal_message_run env (FrameError "Invalid JSON format") ws w)
    as (w2 & Hrun & _ & _ & Hf & _).
  rewrite Hrun in Hm. injection Hm as <-.
  rewrite Ht, frames_sent_app in Hf. apply app_inv_head in Hf. congruence.
Qed.

(** A text whose loading is fatal: its exception leaves the loop with
    nothing sent or logged. *)
Lemma receive_fatal (e : exn) (w : World) :
  fatal (Raise e) = true → receive_turn env ws (Raise e) w = (Raise e, w).
Proof.
  intros Hfatal. cbn in Hfatal. apply negb_true_iff in Hfatal.
  unfold receive_turn, json_loads. rewrite try_except_run, bind_run.
  by rewrite Hfatal.
Qed.

(** The loop answers the texts before the first fatal one and raises:
    the exception of that text, or the closing one. *)
Lemma receive_loop_run (inbox : list (result Json)) (closing : exn) (w : World) :
  ∃ err w' evs fss,
    receive_loop env ws inbox closing w = (Raise err, w')
    ∧ active_connections w' = active_connections w
    ∧ trace w' = trace w ++ evs ∧ Forall (session_event ws) evs
    ∧ frames_sent ws evs = concat fss
    ∧ Forall2 (λ data fs, fs ≠ []
                 ∧ (∀ e, data = Raise e → fs = [FrameError "Invalid JSON format"]))
              (answered inbox) fss.
Proof.
  revert w. induction inbox as [|data inbox IH]; intros w.
  - exists closing, w, [], []. cbn. rewrite app_nil_r. by split_and!.
  - cbn [receive_loop answered]. rewrite bind_run.
    destruct (fatal data) eqn:Hfatal.
    + destruct data as [message|e]; [done|].
      rewrite (receive_fatal e w Hfatal).
      exists e, w, [], []. cbn. rewrite app_nil_r. by split_and!.
    + destruct (receive_one data w Hfatal)
        as (w1 & evs1 & fs1 & -> & Ha1 & Ht1 & He1 & Hf1 & Hne1 & Hn1).
      destruct (IH w1) as (err & w' & evs & fss & -> & Ha & Ht & He & Hf & Hall).
      exists err, w', (evs1 ++ evs), (fs1 :: fss). split_and!.
      * done.
      * congruence.
      * by rewrite Ht, Ht1, app_assoc.
      * by apply Forall_app.
      * rewrite frames_sent_app, Hf1, Hf. done.
      * by constructor.
Qed.

Lemma py_remove_appended (l : list WebSocket) : ws ∉ l → py_remove ws (l ++ [ws]) = l.
Proof.
  induction l as [|y l IH]; intros Hn.
  - cbn. by rewrite decide_True.
  - apply not_elem_of_cons in Hn as [Hne Hn]. cbn.
    rewrite decide_False by done. by rewrite IH.
Qed.

Lemma connect_accepted (w : World) :
  websocket_accept env ws = Ok tt →
  connect env ws w
  = (Ok tt, {| active_connections := active_connections w ++ [ws];
               trace := trace w ++ [Accept ws] |}).
Proof. intros H. unfold connect. io_unfold. by rewrite H. Qed.

Lemma connect_refused (e : exn) (w : World) :
  websocket_accept env ws = Raise e →
  connect env ws w
  = (Raise e, {| active_connections := active_connections w;
                 trace := trace w ++ [Accept ws] |}).
Proof. intros H. unfold connect. io_unfold. by rewrite H. Qed.

End Session.

Section SessionContract.
Import Main WebSocketEndpoint.

(** X2. A session of a socket that is not yet connected and is
    accepted ends normally whatever is received and however it closes.
    Every text received before the first whose loading raises anything
    but a [JSONDecodeError] is answered by at least one frame (one that
    is not JSON by the frame "Invalid JSON format" alone) and the loop
    goes on to the next; that first text and those after it get no
    frame.  No frame goes to another socket, and when the session is
    over the list of connections is what it was before. *)
Theorem websocket_session (env : Env) (ws : WebSocket)
    (inbox : list (result Json)) (closing : exn) (w : World) :
  ws ∉ active_connections w →
  websocket_accept env ws = Ok tt →
  ∃ w' fss,
    websocket_endpoint env ws inbox closing w = (Ok tt, w')
    ∧ active_connections w' = active_connections w
    ∧ frames_sent ws (trace w') = frames_sent ws (trace w) ++ concat fss
    ∧ Forall2 (λ data fs, fs ≠ []
                 ∧ (∀ e, data = Raise e → fs = [FrameError "Invalid JSON format"]))
              (answered inbox) fss
    ∧ ∀ ws', ws' ≠ ws → frames_sent ws' (trace w') = frames_sent ws' (trace w).
Proof.
  intros Hnew Hacc. unfold websocket_endpoint.
  rewrite bind_run, (connect_accepted env ws w Hacc).
  set (w1 := {| active_connections := active_connections w ++ [ws];
                trace := trace w ++ [Accept ws] |}).
  rewrite try_except_run.
  destruct (receive_loop_run env ws inbox closing w1)
    as (err & w2 & evs & fss & -> & Ha & Ht & He & Hf & Hall).
  assert (Hd : ∀ w3, active_connections w3 = active_connections w1 →
               ∃ w', disconnect ws w3 = (Ok tt, w')
                     ∧ active_connections w' = active_connections w
                     ∧ trace w' = trace w3).
  { intros w3 Hw3. rewrite disconnect_run. eexists. split; [reflexivity|].
    cbn. rewrite Hw3. cbn. by rewrite py_remove_appended. }
  assert (Hframes : ∀ ws', frames_sent ws' (trace w2)
                    = frames_sent ws' (trace w) ++ frames_sent ws' evs).
  { intros ws'. rewrite Ht. cbn [trace w1]. rewrite !frames_sent_app. cbn.
    by rewrite app_nil_r. }
  assert (Hend : ∃ w', match err with
                       | Exception "WebSocketDisconnect" _ => disconnect ws
                       | _ => logger_error "WebSocket error: {e}";; disconnect ws
                       end w2 = (Ok tt, w')
                       ∧ active_connections w' = active_connections w
                       ∧ ∀ ws', frames_sent ws' (trace w') = frames_sent ws' (trace w2)).
  { assert (Hlog : ∃ w', (logger_error "WebSocket error: {e}";; disconnect ws) w2
                         = (Ok tt, w')
                     ∧ active_connections w' = active_connections w
                     ∧ ∀ ws', frames_sent ws' (trace w') = frames_sent ws' (trace w2)).
    { rewrite bind_run. unfold logger_error, emit.
      destruct (Hd {| active_connections := active_connections w2;
                      trace := trace w2 ++ [Log ERROR "WebSocket error: {e}"] |})
        as (w' & -> & Ha' & Ht'); [done|].
      exists w'. split; [done|]. split; [done|]. intros ws'.
      rewrite Ht'. cbn [trace]. rewrite frames_sent_app. cbn. by rewrite app_nil_r. }
    assert (Hplain : ∃ w', disconnect ws w2 = (Ok tt, w')
                     ∧ active_connections w' = active_connections w
                     ∧ ∀ ws', frames_sent ws' (trace w') = frames_sent ws' (trace w2)).
    { destruct (Hd w2 Ha) as (w' & -> & Ha' & Ht').
      exists w'. split; [done|]. split; [done|]. intros ws'. by rewrite Ht'. }
    repeat case_match; first [exact Hlog | exact Hplain]. }
  destruct Hend as (w' & -> & Ha' & Hf').
  exists w', fss. split_and!; try done.
  - by rewrite Hf', Hframes, Hf.
  - intros ws' Hne. rewrite Hf', Hframes.
    by rewrite (session_event_others ws ws' evs), app_nil_r.
Qed.

Lemma websocket_session_witness :
  let inbox := [Raise (Exception "JSONDecodeError" "Expecting value");
                Ok (JObject {[ "type" := VStr "ping" ]});
                Ok JOther;
                Raise (Exception "RecursionError" "maximum recursion depth exceeded");
                Ok (JObject {[ "type" := VStr "ping" ]})] in
  ∃ w' fss,
    websocket_endpoint policy_env 7 inbox (Exception "WebSocketDisconnect" "1000") w0
    = (Ok tt, w')
    ∧ active_connections w' = active_connections w0
    ∧ frames_sent 7 (trace w') = frames_sent 7 (trace w0) ++ concat fss
    ∧ Forall2 (λ data fs, fs ≠ []
                 ∧ (∀ e, data = Raise e → fs = [FrameError "Invalid JSON format"]))
              (answered inbox) fss
    ∧ ∀ ws', ws' ≠ 7 → frames_sent ws' (trace w') = frames_sent ws' (trace w0).
Proof.
  apply (websocket_session policy_env 7).
  - apply not_elem_of_nil.
  - reflexivity.
Defined.

(** The frames of that session: the ping after the text that could not
    be loaded is never read. *)
Example websocket_session_frames :
  websocket_endpoint policy_env 7
    [Raise (Exception "JSONDecodeError" "Expecting value");
     Ok (JObject {[ "type" := VStr "ping" ]});
     Ok JOther;
     Raise (Exception "RecursionError" "maximum recursion depth exceeded");
     Ok (JObject {[ "type" := VStr "ping" ]})]
    (Exception "WebSocketDisconnect" "1000") w0
  = (Ok tt,
     {| active_connections := [];
        trace := [Accept 7;
                  SendText 7 (FrameError "Invalid JSON format");
                  SendText 7 FramePong;
                  Log ERROR "Error handling WebSocket message: {e}";
                  SendText 7 (FrameError "Internal server error");
                  Log ERROR "WebSocket error: {e}"] |}).
Proof. reflexivity. Qed.

End SessionContract.

Section Raises.
Context (E : exn → Prop).

Lemma raises_only_ret {A} (a : A) : raises_only E (mret a).
Proof. by intros w e. Qed.

Lemma raises_only_raise {A} (e : exn) : E e → raises_only E (@raise A e).
Proof. by intros He w e' [= <-]. Qed.

Lemma raises_only_call {A} (ev : Event) (r : result A) :
  (∀ e, r = Raise e → E e) → raises_only E (call ev r).
Proof. intros Hr w e. cbn. apply Hr. Qed.

Lemma raises_only_emit (ev : Event) : raises_only E (emit ev).
Proof. by intros w e. Qed.

Lemma raises_only_bind {A B} (m : IO A) (f : A → IO B) :
  raises_only E m → (∀ a, raises_only E (f a)) → raises_only E (m ≫= f).
Proof.
  intros Hm Hf w e. rewrite bind_run. specialize (Hm w).
  destruct (m w) as [[a|e'] w1]; cbn [fst] in *.
  - apply Hf.
  - intros [= <-]. by apply Hm.
Qed.

Lemma raises_only_try {A} (m : IO A) (h : exn → IO A) :
  (∀ e, raises_only E (h e)) → raises_only E (try_except m h).
Proof.
  intros Hh w e. rewrite try_except_run.
  destruct (m w) as [[a|e'] w1]; [done|]. apply Hh.
Qed.

(** A handler that logs and raises again what the body raised. *)
Lemma raises_only_reraise {A} (m : IO A) (h : exn → IO A) :
  raises_only E m → (∀ e, E e → raises_only E (h e)) → raises_only E (try_except m h).
Proof.
  intros Hm Hh w e. rewrite try_except_run. specialize (Hm w).
  destruct (m w) as [[a|e'] w1]; [done|]. cbn [fst] in Hm. by apply Hh, Hm.
Qed.

Lemma raises_only_finally {A} (m : IO A) (cleanup : IO unit) :
  raises_only E m → raises_only E cleanup → raises_only E (try_finally m cleanup).
Proof.
  intros Hm Hc w e. rewrite try_finally_run. specialize (Hm w).
  destruct (m w) as [r w1]. specialize (Hc w1).
  destruct (cleanup w1) as [[[]|e'] w2]; cbn [fst] in *.
  - apply Hm.
  - intros [= <-]. by apply Hc.
Qed.

Lemma raises_only_untraced {A} (r : result A) :
  (∀ e, r = Raise e → E e) → raises_only E (AudioPaths.untraced r).
Proof. intros Hr w e. cbn. apply Hr. Qed.

End Raises.

(** A handler seen through what the body can raise. *)
Lemma raises_only_handle {A} (E' E : exn → Prop) (m : IO A) (h : exn → IO A) :
  raises_only E' m → (∀ e, E' e → raises_only E (h e)) →
  raises_only E (try_except m h).
Proof.
  intros Hm Hh w e. rewrite try_except_run. specialize (Hm w).
  destruct (m w) as [[a|e'] w1]; [done|]. cbn [fst] in Hm. by apply Hh, Hm.
Qed.

Lemma raises_only_mono {A} (E' E : exn → Prop) (m : IO A) :
  (∀ e, E' e → E e) → raises_only E' m → raises_only E m.
Proof. intros Hi Hm w e He. by apply Hi, (Hm w). Qed.

Ltac raises_step :=
  lazymatch goal with
  | |- raises_only _ (mret _) => apply raises_only_ret
  | |- raises_only _ (raise _) => apply raises_only_raise
  | |- raises_only _ (_ ≫= _) => apply raises_only_bind; [|intros ?]
  | |- raises_only _ (try_finally _ _) => apply raises_only_finally
  | |- raises_only _ (AudioPaths.untraced _) => apply raises_only_untraced
  | |- raises_only _ (call _ _) => apply raises_only_call
  | |- raises_only _ (emit _) => apply raises_only_emit
  | |- raises_only _ (logger_error _) => apply raises_only_emit
  | |- raises_only _ (logger_warning _) => apply raises_only_emit
  | |- raises_only _ (if ?b then _ else _) => destruct b
  | |- raises_only _ (match ?x with _ => _ end) => destruct x
  | |- raises_only _ (let _ := _ in _) => cbv zeta
  end.

Section ChatContract.
Import VectorStoreService LLMService ChatEndpoints Main.
Variable env : Env.
Hypothesis Hsdk : sdk_errors env.

Lemma answer_query_raises (text : string) (org proj : Value) :
  raises_only sdk_exception (answer_query env text org proj).
Proof.
  destruct Hsdk as (Hb & Hs & Hl & _).
  assert (Hdet : ∀ t, raises_only sdk_exception (_detect_language env t)).
  { intros t. unfold _detect_language. apply raises_only_try. intros e.
    repeat raises_step. }
  assert (Hmean : ∀ cs, raises_only sdk_exception (meaningful cs)).
  { induction cs as [|c cs IH]; cbn [meaningful]; repeat raises_step; done. }
  unfold answer_query, first, process_query_with_context, get_embeddings, embed_one,
    query_vectors, generate_response.
  repeat first
    [ raises_step
    | apply raises_only_reraise; [|intros e' He'; repeat raises_step; exact He']
    | apply raises_only_try; intros ? ];
    first [ done | apply Hb | apply Hs | apply Hl | apply Hdet | apply Hmean | idtac ].
Qed.

Lemma ChatResponse_init_raises (kwargs : gmap string Value) (e : exn) :
  ChatResponse_init kwargs = Raise e → sdk_exception e.
Proof. unfold ChatResponse_init. repeat case_match; by intros [= <-]. Qed.

Lemma validated_raises (kwargs : gmap string Value) :
  raises_only (λ e, chat_exception e ∨ sdk_exception e)
    (match ChatResponse_init kwargs with
     | Ok r => mret r
     | Raise e => raise e
     end).
Proof.
  destruct (ChatResponse_init kwargs) as [r|e] eqn:Hinit.
  - apply raises_only_ret.
  - apply raises_only_raise. right. by eapply ChatResponse_init_raises.
Qed.

Lemma cleanup_audio_file_raises (E : exn → Prop) (file_path : string) :
  raises_only E (cleanup_audio_file env file_path).
Proof.
  unfold cleanup_audio_file. apply raises_only_try. intros e. repeat raises_step.
Qed.

Lemma voice_input_raises (audio : UploadFile) :
  raises_only sdk_exception (voice_input env audio).
Proof.
  destruct Hsdk as (_ & _ & _ & Hw & _ & Hd & Hu).
  unfold voice_input, transcribe_audio, AudioPaths.create_temp_audio_file.
  repeat first
    [ apply cleanup_audio_file_raises
    | raises_step
    | apply raises_only_reraise; [|intros e' He'; repeat raises_step; exact He'] ];
    first [ done | by eapply Hw | by eapply Hd | by eapply Hu ].
Qed.

Lemma voice_output_raises (E : exn → Prop) (ai_response : string)
    (response_data : gmap string Value) :
  raises_only E (voice_output env ai_response response_data).
Proof.
  unfold voice_output. apply raises_only_try. intros e. repeat raises_step.
Qed.

Lemma chat_raises (text : option string) (audio : option UploadFile) (org proj : Z) :
  raises_only chat_exception (chat env text audio org proj).
Proof.
  unfold chat. cbv zeta.
  apply (raises_only_handle (λ e, chat_exception e ∨ sdk_exception e)).
  - repeat first
      [ apply validated_raises
      | apply voice_output_raises
      | eapply raises_only_mono; [|apply voice_input_raises]; by right
      | eapply raises_only_mono; [|apply answer_query_raises]; by right
      | raises_step ];
      first [ left; unfold chat_exception; by auto | by right ].
  - intros e [He | He].
    + destruct He as [-> | [-> | [-> | ->]]]; apply raises_only_raise;
        unfold chat_exception; auto.
    + destruct e; [done|]. repeat raises_step. unfold chat_exception. auto.
Qed.

End ChatContract.

Section ChatTheorems.
Import VectorStoreService LLMService ChatEndpoints Main.

(** X3. The outside world raising no [HTTPException] of its own,
    [POST /api/v1/chat] raises nothing but one of its three 400
    validation errors or the 500 "Failed to process chat request":
    whatever fails in transcription, embedding, retrieval, completion
    or validation of the response is not passed on as it is. *)
Theorem chat_error_taxonomy (env : Env) (text : option string)
    (audio : option UploadFile) (org proj : Z) (w : World) (e : exn) :
  sdk_errors env →
  fst (chat env text audio org proj w) = Raise e →
  chat_exception e.
Proof. intros Hsdk. apply (chat_raises env Hsdk). Qed.

Lemma outage_env_sdk_errors : sdk_errors outage_env.
Proof.
  split_and!; try (intros; discriminate).
  intros req e. cbn. unfold mock_llm. repeat case_decide; by intros [= <-].
Qed.

Lemma chat_error_taxonomy_witness :
  chat_exception (HTTPException 500 "Failed to process chat request").
Proof.
  apply (chat_error_taxonomy outage_env (Some policy_query) None 1 1 w0).
  - apply outage_env_sdk_errors.
  - reflexivity.
Defined.

(** X4. [POST /api/v1/chat] validates its input before any call is
    made: neither text nor audio, both of them, or a text of spaces
    alone each end in their own 400, and the world is left as it
    was. *)
Theorem chat_validation (env : Env) (org proj : Z) (w : World) :
  (∀ text, text = None ∨ text = Some "" →
     chat env text None org proj w
     = (Raise (HTTPException 400 "Either text or audio must be provided"), w))
  ∧ (∀ text audio, text ≠ "" →
       chat env (Some text) (Some audio) org proj w
       = (Raise (HTTPException 400 "Provide either text or audio, not both"), w))
  ∧ (∀ text, text ≠ "" → strip text = "" →
       chat env (Some text) None org proj w
       = (Raise (HTTPException 400 "No text content found"), w)).
Proof.
  split_and!.
  - by intros text [-> | ->].
  - intros text audio Hne. unfold chat. rewrite try_except_run.
    rewrite (bool_decide_eq_true_2 (is_Some (Some audio))) by by eexists.
    by destruct text.
  - intros text Hne Hblank. unfold chat. rewrite try_except_run.
    rewrite (bool_decide_eq_false_2 (is_Some None)) by (by intros [? ?]).
    destruct text as [|c text]; [done|].
    cbn [negb andb]. rewrite bind_run. cbn [mret IO_ret default from_option id].
    by rewrite Hblank.
Qed.

Lemma chat_validation_witness :
  chat policy_env (Some "hello") (Some 3) 1 1 w0
  = (Raise (HTTPException 400 "Provide either text or audio, not both"), w0)
  ∧ chat policy_env (Some "  ") None 1 1 w0
    = (Raise (HTTPException 400 "No text content found"), w0).
Proof.
  destruct (chat_validation policy_env 1 1 w0) as (_ & Hboth & Hblank).
  split; [by apply Hboth | by apply Hblank].
Defined.

(** X5. For a text whose trimmed form is not empty, [POST
    /api/v1/chat] is the pipeline run on the trimmed text: the answer
    of the pipeline comes back as [answer] with no transcript, no audio
    URL and [is_voice] false, no speech call being made; an exception
    of the pipeline that is not an [HTTPException] is logged and
    becomes the 500. *)
Theorem chat_text_delivery (env : Env) (text : string) (org proj : Z) (w : World) :
  strip text ≠ "" →
  match answer_query env (strip text) (VInt org) (VInt proj) w with
  | (Ok ai_response, w') =>
      chat env (Some text) None org proj w
      = (Ok {| answer := ai_response; transcript := None; audio_url := None;
               resp_is_voice := false; timestamp := time_time env |}, w')
  | (Raise (Exception _ _), w') =>
      chat env (Some text) None org proj w
      = (Raise (HTTPException 500 "Failed to process chat request"),
         {| active_connections := active_connections w';
            trace := trace w' ++ [Log ERROR "Error processing chat request: {e}"] |})
  | (Raise (HTTPException status detail), w') =>
      chat env (Some text) None org proj w
      = (Raise (HTTPException status detail), w')
  end.
Proof.
  intros Hne. unfold chat. rewrite try_except_run.
  rewrite (bool_decide_eq_false_2 (is_Some None)) by (by intros [? ?]).
  destruct text as [|c text]; [done|].
  cbn [negb andb]. rewrite bind_run. cbn [mret IO_ret default from_option id].
  rewrite bool_decide_eq_false_2 by done. rewrite bind_run.
  destruct (answer_query env _ _ _ w) as [[a|[s d|n m]] w']; [| done | done].
  rewrite bind_run. cbn [mret IO_ret].
  by rewrite (ChatResponse_init_answer a None false).
Qed.

Lemma chat_text_delivery_witness :
  match answer_query policy_env (strip "  What is your return policy? ")
          (VInt 1) (VInt 1) w0 with
  | (Ok ai_response, w') =>
      chat policy_env (Some "  What is your return policy? ") None 1 1 w0
      = (Ok {| answer := ai_response; transcript := None; audio_url := None;
               resp_is_voice := false; timestamp := time_time policy_env |}, w')
  | (Raise (Exception _ _), w') =>
      chat policy_env (Some "  What is your return policy? ") None 1 1 w0
      = (Raise (HTTPException 500 "Failed to process chat request"),
         {| active_connections := active_connections w';
            trace := trace w' ++ [Log ERROR "Error processing chat request: {e}"] |})
  | (Raise (HTTPException status detail), w') =>
      chat policy_env (Some "  What is your return policy? ") None 1 1 w0
      = (Raise (HTTPException status detail), w')
  end.
Proof.
  apply (chat_text_delivery policy_env "  What is your return policy? " 1 1 w0).
  vm_compute. discriminate.
Defined.

(** X6. For an audio upload that is saved and whose transcript,
    trimmed, is not empty, the pipeline runs on the trimmed transcript
    and its answer comes back with that transcript and [is_voice] true.
    The directory of the spoken answer is made first: when that fails no
    speech is requested; otherwise the answer is sent to speech
    synthesis once.  When both succeed the response carries the URL
    ["/static/audio/"] followed by the name of the file written; when
    either fails the failure is logged twice and the response is the
    same without an audio URL. *)
Theorem chat_voice_delivery (env : Env) (text : option string)
    (audio : UploadFile) (transcribed ai_response : string)
    (org proj : Z) (w w2 : World) :
  text = None ∨ text = Some "" →
  upload_saved env audio →
  whisper_transcribe env audio = Ok transcribed →
  strip transcribed ≠ "" →
  answer_query env (strip transcribed) (VInt org) (VInt proj)
    {| active_connections := active_connections w;
       trace := trace w ++ Transcribe audio
                  :: cleanup_log env
                       (temp_audio_path (audio_files env "webm") "webm") |}
  = (Ok ai_response, w2) →
  let files := audio_files env "mp3" in
  let audio_path := temp_audio_path files "mp3" in
  let '(url, speech) :=
    match AudioPaths.os_makedirs files (temp_audio_dir files) with
    | Raise _ =>
        (None,
         [Log ERROR "Failed to create temporary audio file: {e}";
          Log ERROR "Failed to generate audio response: {e}"])
    | Ok _ =>
        match tts_synthesize env ai_response audio_path with
        | Ok _ =>
            (Some ("/static/audio/" +:+ AudioPaths.os_path_basename audio_path),
             [Synthesize ai_response])
        | Raise _ =>
            (None,
             [Synthesize ai_response;
              Log ERROR "Failed to synthesize speech: {e}";
              Log ERROR "Failed to generate audio response: {e}"])
        end
    end in
  chat env text (Some audio) org proj w
  = (Ok {| answer := ai_response;
           transcript := Some (strip transcribed);
           audio_url := url;
           resp_is_voice := true;
           timestamp := time_time env |},
     {| active_connections := active_connections w2;
        trace := trace w2 ++ speech |}).
Proof.
  intros Htext Hsaved Hw Hne Hans files audio_path. unfold chat.
  rewrite try_except_run.
  rewrite (bool_decide_eq_true_2 (is_Some (Some audio))) by by eexists.
  assert (Hno : match text with None | Some "" => true | _ => false end = true)
    by (by destruct Htext as [-> | ->]).
  rewrite Hno. cbn [negb andb]. rewrite !bind_run.
  rewrite (voice_input_transcribed env audio transcribed w Hsaved Hw).
  cbn [mret IO_ret].
  rewrite bool_decide_eq_false_2 by done. rewrite bind_run, Hans.
  rewrite bind_run. unfold voice_output. rewrite try_except_run, bind_run.
  rewrite create_temp_audio_file_run. fold files.
  destruct (AudioPaths.os_makedirs files (temp_audio_dir files)) as [[]|err].
  - rewrite bind_run. unfold synthesize_speech. rewrite try_except_run, bind_run.
    unfold call at 1. fold audio_path.
    destruct (tts_synthesize env ai_response audio_path) as [[]|err].
    + io_unfold. unfold AudioPaths.get_audio_url. io_unfold.
      cbn [trace active_connections from_option].
      by rewrite (ChatResponse_init_audio ai_response _ (Some (strip transcribed)) true).
    + io_unfold. cbn [trace active_connections from_option].
      rewrite (ChatResponse_init_answer ai_response (Some (strip transcribed)) true).
      by rewrite <- !app_assoc.
  - io_unfold. cbn [trace active_connections from_option].
    rewrite (ChatResponse_init_answer ai_response (Some (strip transcribed)) true).
    by rewrite <- !app_assoc.
Qed.

Lemma chat_voice_delivery_witness :
  ∃ w', chat policy_env None (Some 3) 1 1 w0
        = (Ok {| answer := policy_answer;
                 transcript := Some policy_query;
                 audio_url := Some "/static/audio/audio_0.mp3";
                 resp_is_voice := true;
                 timestamp := 0 |}, w').
Proof.
  eexists.
  refine (eq_trans
            (chat_voice_delivery policy_env None 3 " What is your return policy? "
               policy_answer 1 1 w0 _ _ _ _ _ _) _).
  - by left.
  - by split.
  - reflexivity.
  - vm_compute. discriminate.
  - vm_compute. reflexivity.
  - reflexivity.
Defined.

End ChatTheorems.

Section UserMessage.
Import VectorStoreService LLMService ChatEndpoints Main.
Variable env : Env.

Lemma pipeline_event_frames (ws : WebSocket) (evs : list Event) :
  Forall pipeline_event evs → frames_sent ws evs = [].
Proof.
  induction 1 as [|ev evs Hev _ IH]; [done|].
  change (ev :: evs) with ([ev] ++ evs). rewrite frames_sent_app, IH.
  by destruct ev.
Qed.

(** A stage of the pipeline sends no frame. *)
Lemma pipeline_stage {A} (ws : WebSocket) (m : IO A) (w : World) :
  emits_only pipeline_event m →
  frames_sent ws (trace (snd (m w))) = frames_sent ws (trace w).
Proof.
  intros Hm. destruct (Hm w) as (_ & evs & -> & Hev).
  by rewrite frames_sent_app, (pipeline_event_frames ws evs), app_nil_r.
Qed.

Lemma logged_send_run (fmt : string) (frame : Frame) (ws : WebSocket) (w : World) :
  ∃ w', (logger_error fmt ;; send_personal_message env frame ws) w = (Ok tt, w')
    ∧ frames_sent ws (trace w') = frames_sent ws (trace w) ++ [frame].
Proof.
  rewrite bind_run. unfold logger_error, emit.
  destruct (send_personal_message_run env frame ws
              {| active_connections := active_connections w;
                 trace := trace w ++ [Log ERROR fmt] |})
    as (w' & -> & _ & _ & Hf & _).
  exists w'. split; [done|]. rewrite Hf. cbn [trace].
  rewrite frames_sent_app. cbn. by rewrite app_nil_r.
Qed.

(** X7. The frames of one [user_message]: a blank text gets the
    single error frame "Empty message received"; a text that is not a
    string gets the single error frame "Failed to process message";
    any other text gets the typing frame followed by exactly one more
    frame, the [bot_response] with the [isVoice] of the message, or the
    error frame "Failed to process message" when anything failed. *)
Theorem user_message_frames (ws : WebSocket) (message : gmap string Value)
    (w : World) :
  ∃ w' fs,
    handle_user_message env ws message w = (Ok tt, w')
    ∧ frames_sent ws (trace w') = frames_sent ws (trace w) ++ fs
    ∧ match default (VStr "") (message !! "text") with
      | VStr text =>
          if bool_decide (strip text = "")
          then fs = [FrameError "Empty message received"]
          else ∃ frame,
              fs = [FrameTyping true; frame]
              ∧ (frame = FrameError "Failed to process message"
                 ∨ ∃ ai_response,
                     frame = FrameBotResponse ai_response
                               (default (VBool false) (message !! "isVoice"))
                               (time_time env))
      | _ => fs = [FrameError "Failed to process message"]
      end.
Proof.
  unfold handle_user_message. cbv zeta. rewrite try_except_run.
  destruct (default (VStr "") (message !! "text")) as [| | | |text];
    try (destruct (logged_send_run "Error processing user message: {e}"
                     (FrameError "Failed to process message") ws w)
           as (w' & Hrun & Hf);
         exists w', [FrameError "Failed to process message"];
         cbn [raise]; by rewrite Hrun).
  case_bool_decide as Hblank.
  - destruct (send_personal_message_run env (FrameError "Empty message received") ws w)
      as (w' & -> & _ & _ & Hf & _).
    by exists w', [FrameError "Empty message received"].
  - rewrite bind_run.
    destruct (send_personal_message_run env (FrameTyping true) ws w)
      as (w1 & -> & _ & _ & Hf1 & _).
    (* embedding *)
    rewrite bind_run.
    pose proof (pipeline_stage ws _ w1 (get_embeddings_emits env [text])) as Hf2.
    destruct (get_embeddings env [text] w1) as [[qe|e] w2]; cbn [snd] in Hf2.
    2:{ destruct (logged_send_run "Error processing user message: {e}"
                    (FrameError "Failed to process message") ws w2)
          as (w' & -> & Hf).
        exists w', [FrameTyping true; FrameError "Failed to process message"].
        split; [done|]. split; [|eauto].
        by rewrite Hf, Hf2, Hf1, <- app_assoc. }
    rewrite bind_run.
    destruct qe as [|qv qe]; cbn [first raise mret IO_ret].
    { destruct (logged_send_run "Error processing user message: {e}"
                  (FrameError "Failed to process message") ws w2)
        as (w' & -> & Hf).
      exists w', [FrameTyping true; FrameError "Failed to process message"].
      split; [done|]. split; [|eauto].
      by rewrite Hf, Hf2, Hf1, <- app_assoc. }
    (* retrieval *)
    rewrite bind_run.
    pose proof (pipeline_stage ws _ w2
                  (query_vectors_emits env qv
                     (default (VInt 1) (message !! "organisation_id"))
                     (default (VInt 1) (message !! "project_id")) 5)) as Hf3.
    destruct (query_vectors env qv _ _ 5 w2) as [[sr|e] w3]; cbn [snd] in Hf3.
    2:{ destruct (logged_send_run "Error processing user message: {e}"
                    (FrameError "Failed to process message") ws w3)
          as (w' & -> & Hf).
        exists w', [FrameTyping true; FrameError "Failed to process message"].
        split; [done|]. split; [|eauto].
        by rewrite Hf, Hf3, Hf2, Hf1, <- app_assoc. }
    (* the gate *)
    rewrite bind_run.
    assert (Hf4 : ∀ m : IO string, emits_only pipeline_event m →
              frames_sent ws (trace (snd (m w3))) = frames_sent ws (trace w3))
      by (intros m; apply pipeline_stage).
    set (gate := if negb (bool_decide (extract_chunks sr = []))
                 then process_query_with_context env text (extract_chunks sr)
                 else mret no_information).
    specialize (Hf4 gate).
    assert (Hgate : emits_only pipeline_event gate).
    { subst gate. destruct (negb _).
      - eapply emits_only_mono; [apply llm_pipeline | apply process_query_emits].
      - apply emits_only_ret. }
    specialize (Hf4 Hgate).
    destruct (gate w3) as [[ai|e] w4]; cbn [snd] in Hf4.
    2:{ destruct (logged_send_run "Error processing user message: {e}"
                    (FrameError "Failed to process message") ws w4)
          as (w' & -> & Hf).
        exists w', [FrameTyping true; FrameError "Failed to process message"].
        split; [done|]. split; [|eauto].
        by rewrite Hf, Hf4, Hf3, Hf2, Hf1, <- app_assoc. }
    destruct (send_personal_message_run env
                (FrameBotResponse ai (default (VBool false) (message !! "isVoice"))
                   (time_time env)) ws w4)
      as (w' & -> & _ & _ & Hf & _).
    eexists w', [FrameTyping true; _]. split; [done|]. split; [|eauto].
    by rewrite Hf, Hf4, Hf3, Hf2, Hf1, <- app_assoc.
Qed.

End UserMessage.

Section Dispatch.
Import VectorStoreService LLMService ChatEndpoints Main.
Variable env : Env.

(** The dispatch on the type of a message, by equality tests. *)
Lemma dispatch_cases {A} (t : option Value) (user ping other : A) :
  match t with
  | Some (VStr "user_message") => user
  | Some (VStr "ping") => ping
  | _ => other
  end
  = if decide (t = Some (VStr "user_message")) then user
    else if decide (t = Some (VStr "ping")) then ping
    else other.
Proof.
  repeat case_match; subst; repeat case_decide; congruence.
Qed.

(** X8. A message whose type is not "user_message" starts no
    embedding, retrieval or completion: "ping" is answered by the single
    frame [pong], and any other type, a missing type included, by the
    single error frame that names the type. *)
Theorem dispatch_without_pipeline (ws : WebSocket) (message : gmap string Value)
    (w : World) :
  message !! "type" ≠ Some (VStr "user_message") →
  ∃ w',
    handle_websocket_message env ws message w = (Ok tt, w')
    ∧ frames_sent ws (trace w')
      = frames_sent ws (trace w)
        ++ [if decide (message !! "type" = Some (VStr "ping")) then FramePong
            else FrameUnknownType (message !! "type")]
    ∧ retrieval_calls (trace w') = retrieval_calls (trace w)
    ∧ llm_calls (trace w') = llm_calls (trace w).
Proof.
  intros Htype. unfold handle_websocket_message.
  rewrite try_except_run, dispatch_cases.
  rewrite decide_False by done.
  set (frame := if decide (message !! "type" = Some (VStr "ping")) then FramePong
                else FrameUnknownType (message !! "type")).
  assert (Hsend : (if decide (message !! "type" = Some (VStr "ping"))
                   then send_personal_message env FramePong ws
                   else send_personal_message env
                          (FrameUnknownType (message !! "type")) ws)
                  = send_personal_message env frame ws).
  { subst frame. by case_decide. }
  rewrite Hsend. unfold send_personal_message.
  destruct (guarded_send_run env "Error sending personal message: {e}" frame ws w)
    as (w' & -> & _ & _ & Hok & Hfail).
  exists w'. split; [done|].
  destruct (websocket_send_text env ws frame) as [[]|e].
  - rewrite Hok by done. unfold retrieval_calls.
    rewrite frames_sent_app, List.filter_app, llm_calls_app. cbn.
    rewrite decide_True by done. by rewrite !app_nil_r.
  - rewrite (Hfail e) by done. unfold retrieval_calls.
    rewrite frames_sent_app, List.filter_app, llm_calls_app. cbn.
    rewrite decide_True by done. by rewrite !app_nil_r.
Qed.

End Dispatch.

Section DispatchWitness.
Import Main.

Lemma dispatch_without_pipeline_witness :
  ∃ w',
    handle_websocket_message policy_env 7 {[ "type" := VStr "hello" ]} w0 = (Ok tt, w')
    ∧ frames_sent 7 (trace w')
      = frames_sent 7 (trace w0)
        ++ [if decide (({[ "type" := VStr "hello" ]} : gmap string Value) !! "type"
                       = Some (VStr "ping")) then FramePong
            else FrameUnknownType
                   (({[ "type" := VStr "hello" ]} : gmap string Value) !! "type")]
    ∧ retrieval_calls (trace w') = retrieval_calls (trace w0)
    ∧ llm_calls (trace w') = llm_calls (trace w0).
Proof.
  apply (dispatch_without_pipeline policy_env 7). vm_compute. discriminate.
Defined.

End DispatchWitness.

Section RetrievalCalls.
Import VectorStoreService LLMService ChatEndpoints Main.
Variable env : Env.
Local Abbreviation dimension := (VECTOR_DIMENSION (settings env)).
Local Abbreviation upstream :=
  (bedrock_invoke_model env (EMBEDDING_MODEL_ID (settings env))).

Lemma retrieval_calls_app (t1 t2 : list Event) :
  retrieval_calls (t1 ++ t2) = retrieval_calls t1 ++ retrieval_calls t2.
Proof. apply List.filter_app. Qed.

Lemma no_retrieval_calls (evs : list Event) :
  Forall no_retrieval_event evs → retrieval_calls evs = [].
Proof.
  induction 1 as [|ev evs Hev _ IH]; [done|].
  change (ev :: evs) with ([ev] ++ evs). rewrite retrieval_calls_app, IH.
  by destruct ev.
Qed.

Lemma no_retrieval_stage {A} (m : IO A) (w : World) :
  emits_only no_retrieval_event m →
  retrieval_calls (trace (snd (m w))) = retrieval_calls (trace w).
Proof.
  intros Hm. destruct (Hm w) as (_ & evs & -> & Hev).
  by rewrite retrieval_calls_app, (no_retrieval_calls evs), app_nil_r.
Qed.

Lemma llm_no_retrieval (ev : Event) : llm_event ev → no_retrieval_event ev.
Proof. by destruct ev. Qed.

Lemma send_no_retrieval (frame : Frame) (ws : WebSocket) :
  emits_only no_retrieval_event (send_personal_message env frame ws).
Proof. unfold send_personal_message. repeat emits_step. Qed.

Lemma get_embeddings_one_calls (text : string) (e : list Q) (w : World) :
  upstream text = Ok (Some e) →
  ∃ w', get_embeddings env [text] w = (Ok [fit_dimension dimension e], w')
    ∧ retrieval_calls (trace w')
      = retrieval_calls (trace w) ++ [InvokeModel (EMBEDDING_MODEL_ID (settings env)) text].
Proof.
  intros Hup. cbn [get_embeddings]. rewrite bind_run.
  unfold embed_one, fit_dimension. io_unfold. rewrite Hup. cbn.
  destruct (Z.of_nat (length e) >? dimension)%Z.
  - eexists. split; [reflexivity|]. cbn [trace]. by rewrite retrieval_calls_app.
  - destruct (Z.of_nat (length e) <? dimension)%Z; cbn.
    + eexists. split; [reflexivity|]. cbn [trace].
      rewrite !retrieval_calls_app. cbn. by rewrite app_nil_r.
    + eexists. split; [reflexivity|]. cbn [trace]. by rewrite retrieval_calls_app.
Qed.

Lemma query_vectors_calls (qv : list Q) (org proj : Value) (limit : Z) (w : World) :
  ∃ w', query_vectors env qv org proj limit w
        = (s3vectors_query_vectors env (query_request env qv org proj limit), w')
    ∧ retrieval_calls (trace w')
      = retrieval_calls (trace w)
        ++ [QueryVectors (query_request env qv org proj limit)].
Proof.
  unfold query_vectors. io_unfold.
  destruct (s3vectors_query_vectors env _) as [resp|err]; cbn.
  - eexists. split; [reflexivity|]. cbn [trace]. by rewrite retrieval_calls_app.
  - eexists. split; [reflexivity|]. cbn [trace].
    rewrite !retrieval_calls_app. cbn. by rewrite app_nil_r.
Qed.

(** X9. For a [user_message] with a text that is not blank and whose
    embedding succeeds, the realtime handler embeds the text as it was
    received (once, not trimmed) and queries the store once, for 5
    vectors, under the [organisation_id] and [project_id] of the
    message, each taken as 1 when the message does not give it. *)
Theorem realtime_retrieval_request (ws : WebSocket) (message : gmap string Value)
    (text : string) (e : list Q) (w : World) :
  message !! "text" = Some (VStr text) →
  strip text ≠ "" →
  upstream text = Ok (Some e) →
  let req := query_request env (fit_dimension dimension e)
               (default (VInt 1) (message !! "organisation_id"))
               (default (VInt 1) (message !! "project_id")) 5 in
  retrieval_calls (trace (snd (handle_user_message env ws message w)))
  = retrieval_calls (trace w)
    ++ [InvokeModel (EMBEDDING_MODEL_ID (settings env)) text; QueryVectors req]
  ∧ topK req = 5%Z
  ∧ (message !! "organisation_id" = None → message !! "project_id" = None →
     filter_expr req = FAnd [FEq "organisation_id" (VInt 1);
                             FEq "project_id" (VInt 1)]).
Proof.
  intros Htext Hne Hup req. split; [| split; [done|]].
  2:{ intros Ho Hp. subst req. by rewrite Ho, Hp. }
  assert (Hhandler : ∀ w1, retrieval_calls (trace (snd
            ((logger_error "Error processing user message: {e}";;
              send_personal_message env (FrameError "Failed to process message") ws) w1)))
          = retrieval_calls (trace w1)).
  { intros w1. apply no_retrieval_stage. repeat emits_step. apply send_no_retrieval. }
  unfold handle_user_message. cbv zeta. rewrite try_except_run, Htext.
  cbn [default from_option id].
  rewrite (bool_decide_eq_false_2 (strip text = "")) by done.
  rewrite bind_run.
  pose proof (no_retrieval_stage _ w (send_no_retrieval (FrameTyping true) ws)) as H1.
  destruct (send_personal_message_run env (FrameTyping true) ws w)
    as (w1 & Hrun & _).
  rewrite Hrun in H1 |- *. cbn [snd] in H1.
  rewrite bind_run.
  destruct (get_embeddings_one_calls text e w1 Hup) as (w2 & -> & H2).
  cbn [first]. rewrite bind_run. cbn [mret IO_ret]. rewrite bind_run.
  destruct (query_vectors_calls (fit_dimension dimension e)
              (default (VInt 1) (message !! "organisation_id"))
              (default (VInt 1) (message !! "project_id")) 5 w2)
    as (w3 & -> & H3).
  fold req in H3 |- *.
  assert (H123 : retrieval_calls (trace w3)
                 = retrieval_calls (trace w)
                   ++ [InvokeModel (EMBEDDING_MODEL_ID (settings env)) text;
                       QueryVectors req]).
  { by rewrite H3, H2, H1, <- app_assoc. }
  destruct (s3vectors_query_vectors env req) as [sr|err].
  2:{ by rewrite Hhandler. }
  rewrite bind_run.
  set (gate := if negb (bool_decide (extract_chunks sr = []))
               then process_query_with_context env text (extract_chunks sr)
               else mret no_information).
  assert (Hgate : emits_only no_retrieval_event gate).
  { subst gate. destruct (negb _).
    - eapply emits_only_mono; [apply llm_no_retrieval | apply process_query_emits].
    - apply emits_only_ret. }
  pose proof (no_retrieval_stage gate w3 Hgate) as H4.
  destruct (gate w3) as [[ai|err] w4]; cbn [snd] in H4.
  2:{ rewrite Hhandler. congruence. }
  pose proof (no_retrieval_stage _ w4
                (send_no_retrieval
                   (FrameBotResponse ai (default (VBool false) (message !! "isVoice"))
                      (time_time env)) ws)) as H5.
  destruct (send_personal_message_run env
              (FrameBotResponse ai (default (VBool false) (message !! "isVoice"))
                 (time_time env)) ws w4) as (w5 & Hrun5 & _).
  rewrite Hrun5 in H5 |- *. cbn [snd] in H5 |- *. congruence.
Qed.

End RetrievalCalls.

Section RetrievalCallsWitness.
Import VectorStoreService Main.

Lemma realtime_retrieval_request_witness :
  let message : gmap string Value := {[ "text" := VStr " hello there " ]} in
  let req := query_request policy_env
               (fit_dimension (VECTOR_DIMENSION (settings policy_env))
                  [1; 0; 0; 0; 1; 1]%Q)
               (default (VInt 1) (message !! "organisation_id"))
               (default (VInt 1) (message !! "project_id")) 5 in
  retrieval_calls (trace (snd (handle_user_message policy_env 7 message w0)))
  = retrieval_calls (trace w0)
    ++ [InvokeModel (EMBEDDING_MODEL_ID (settings policy_env)) " hello there ";
        QueryVectors req]
  ∧ topK req = 5%Z
  ∧ (message !! "organisation_id" = None → message !! "project_id" = None →
     filter_expr req = FAnd [FEq "organisation_id" (VInt 1);
                             FEq "project_id" (VInt 1)]).
Proof.
  apply (realtime_retrieval_request policy_env 7
           {[ "text" := VStr " hello there " ]} " hello there "
           [1; 0; 0; 0; 1; 1]%Q w0).
  - reflexivity.
  - vm_compute. discriminate.
  - reflexivity.
Defined.

End RetrievalCallsWitness.

Section EmbeddingCalls.
Import VectorStoreService.
Variable env : Env.
Local Abbreviation dimension := (VECTOR_DIMENSION (settings env)).
Local Abbreviation upstream :=
  (bedrock_invoke_model env (EMBEDDING_MODEL_ID (settings env))).

Lemma invoked_app (t1 t2 : list Event) : invoked (t1 ++ t2) = invoked t1 ++ invoked t2.
Proof. apply flat_map_app. Qed.

(** One text: one call, whatever comes of it; the exception of the
    upstream call is raised again as it is. *)
Lemma embed_one_calls (text : string) (w : World) :
  ∃ r w', embed_one env text w = (r, w')
    ∧ invoked (trace w') = invoked (trace w) ++ [text]
    ∧ match upstream text with
      | Ok (Some e) => r = Ok (fit_dimension dimension e)
      | Ok None => r = Raise (Exception "ValueError" "No embedding in response")
      | Raise err => r = Raise err
      end.
Proof.
  unfold embed_one, fit_dimension. io_unfold.
  destruct (upstream text) as [[e|]|err]; cbn.
  - destruct (Z.of_nat (length e) >? dimension)%Z.
    + do 2 eexists. split; [reflexivity|]. cbn [trace]. by rewrite invoked_app.
    + destruct (Z.of_nat (length e) <? dimension)%Z; cbn.
      * do 2 eexists. split; [reflexivity|]. cbn [trace].
        rewrite !invoked_app. cbn. by rewrite app_nil_r.
      * do 2 eexists. split; [reflexivity|]. cbn [trace]. by rewrite invoked_app.
  - do 2 eexists. split; [reflexivity|]. cbn [trace].
    rewrite !invoked_app. cbn. by rewrite !app_nil_r.
  - do 2 eexists. split; [reflexivity|]. cbn [trace].
    rewrite !invoked_app. cbn. by rewrite !app_nil_r.
Qed.

Lemma get_embeddings_all_sent (texts : list string) (w : World) :
  Forall (λ text, ∃ e, upstream text = Ok (Some e)) texts →
  ∃ vs w', get_embeddings env texts w = (Ok vs, w')
    ∧ invoked (trace w') = invoked (trace w) ++ texts.
Proof.
  intros Hall. revert w. induction Hall as [|text texts (e & He) _ IH]; intros w.
  - exists [], w. cbn. by rewrite app_nil_r.
  - cbn [get_embeddings]. rewrite bind_run.
    destruct (embed_one_calls text w) as (r & w1 & -> & Hinv & Hr).
    rewrite He in Hr. subst r. rewrite bind_run.
    destruct (IH w1) as (vs & w' & -> & Hinv').
    do 2 eexists. split; [reflexivity|]. by rewrite Hinv', Hinv, <- app_assoc.
Qed.

(** X10. While no text fails, [get_embeddings] sends each text to the
    model once, in order.  It stops at the first text whose embedding
    fails: that text has been sent, the texts after it are never sent,
    and no vector is returned.  What is raised is the exception of the
    upstream call itself, or a [ValueError] when the response has no
    embedding. *)
Theorem get_embeddings_first_failure (before : list string) (w : World) :
  Forall (λ text, ∃ e, upstream text = Ok (Some e)) before →
  (∃ vs w', get_embeddings env before w = (Ok vs, w')
     ∧ invoked (trace w') = invoked (trace w) ++ before)
  ∧ ∀ bad after,
      (∀ e, upstream bad ≠ Ok (Some e)) →
      ∃ err w',
        get_embeddings env (before ++ bad :: after) w = (Raise err, w')
        ∧ invoked (trace w') = invoked (trace w) ++ before ++ [bad]
        ∧ match upstream bad with
          | Raise upstream_err => err = upstream_err
          | Ok _ => err = Exception "ValueError" "No embedding in response"
          end.
Proof.
  intros Hbefore. split; [by apply get_embeddings_all_sent|].
  intros bad after Hbad. revert w.
  induction Hbefore as [|text before (e & He) _ IH]; intros w.
  - cbn [app get_embeddings]. rewrite bind_run.
    destruct (embed_one_calls bad w) as (r & w' & -> & Hinv & Hr).
    destruct (upstream bad) as [[e|]|uerr]; [by destruct (Hbad e) | |]; subst r.
    + by do 2 eexists.
    + by do 2 eexists.
  - cbn [app get_embeddings]. rewrite bind_run.
    destruct (embed_one_calls text w) as (r & w1 & -> & Hinv & Hr).
    rewrite He in Hr. subst r. rewrite bind_run.
    destruct (IH w1) as (err & w' & -> & Hinv' & Herr).
    exists err, w'. split; [done|]. split; [|done].
    by rewrite Hinv', Hinv, <- app_assoc.
Qed.

End EmbeddingCalls.

Section EmbeddingCallsWitness.
Import VectorStoreService.

Lemma get_embeddings_first_failure_witness :
  ∃ err w',
    get_embeddings picky_env (["a"; "b"] ++ "bad" :: ["c"; "odd"]) w0 = (Raise err, w')
    ∧ invoked (trace w') = invoked (trace w0) ++ ["a"; "b"] ++ ["bad"]
    ∧ match bedrock_invoke_model picky_env
              (EMBEDDING_MODEL_ID (settings picky_env)) "bad" with
      | Raise upstream_err => err = upstream_err
      | Ok _ => err = Exception "ValueError" "No embedding in response"
      end.
Proof.
  assert (H : Forall (λ text, ∃ e, bedrock_invoke_model picky_env
                        (EMBEDDING_MODEL_ID (settings picky_env)) text = Ok (Some e))
                ["a"; "b"]).
  { repeat constructor; by eexists. }
  destruct (get_embeddings_first_failure picky_env ["a"; "b"] w0 H) as [_ Hfail].
  apply (Hfail "bad" ["c"; "odd"]). intros e. vm_compute. discriminate.
Defined.

Example get_embeddings_missing_embedding :
  fst (get_embeddings picky_env ["a"; "odd"; "b"] w0)
  = Raise (Exception "ValueError" "No embedding in response")
  ∧ invoked (trace (snd (get_embeddings picky_env ["a"; "odd"; "b"] w0)))
    = ["a"; "odd"].
Proof. split; reflexivity. Qed.

End EmbeddingCallsWitness.

Section Budget.
Context (p : Event → bool).

Lemma occurrences_app (t1 t2 : list Event) :
  occurrences p (t1 ++ t2) = occurrences p t1 + occurrences p t2.
Proof. unfold occurrences. by rewrite List.filter_app, length_app. Qed.

Lemma emits_at_most_ret {A} (n : nat) (a : A) : emits_at_most p n (mret a).
Proof. intros w. exists []. cbn. rewrite app_nil_r. split; [done | lia]. Qed.

Lemma emits_at_most_raise {A} (n : nat) (e : exn) : emits_at_most p n (@raise A e).
Proof. intros w. exists []. cbn. rewrite app_nil_r. split; [done | lia]. Qed.

Lemma emits_at_most_call {A} (n : nat) (ev : Event) (r : result A) :
  occurrences p [ev] ≤ n → emits_at_most p n (call ev r).
Proof. intros Hn w. by exists [ev]. Qed.

Lemma emits_at_most_emit (n : nat) (ev : Event) :
  occurrences p [ev] ≤ n → emits_at_most p n (emit ev).
Proof. intros Hn w. by exists [ev]. Qed.

Lemma emits_at_most_le {A} (k n : nat) (m : IO A) :
  emits_at_most p k m → k ≤ n → emits_at_most p n m.
Proof.
  intros Hm Hle w. destruct (Hm w) as (evs & Ht & Hc). exists evs. split; [done | lia].
Qed.

(** The first part takes [k] of the budget, the rest what is left. *)
Lemma emits_at_most_bind {A B} (k n : nat) (m : IO A) (f : A → IO B) :
  emits_at_most p k m → k ≤ n → (∀ a, emits_at_most p (n - k) (f a)) →
  emits_at_most p n (m ≫= f).
Proof.
  intros Hm Hle Hf w. rewrite bind_run. destruct (Hm w) as (evs & Ht & Hc).
  destruct (m w) as [[a|e] w1]; cbn [snd] in *.
  - destruct (Hf a w1) as (evs' & Ht' & Hc'). exists (evs ++ evs'). split.
    + by rewrite Ht', Ht, app_assoc.
    + rewrite occurrences_app. lia.
  - exists evs. split; [done | lia].
Qed.

(** A handler that adds no event of the kind. *)
Lemma emits_at_most_try {A} (n : nat) (m : IO A) (h : exn → IO A) :
  emits_at_most p n m → (∀ e, emits_at_most p 0 (h e)) →
  emits_at_most p n (try_except m h).
Proof.
  intros Hm Hh w. rewrite try_except_run. destruct (Hm w) as (evs & Ht & Hc).
  destruct (m w) as [[a|e] w1]; cbn [snd] in *.
  - by exists evs.
  - destruct (Hh e w1) as (evs' & Ht' & Hc'). exists (evs ++ evs'). split.
    + by rewrite Ht', Ht, app_assoc.
    + rewrite occurrences_app. lia.
Qed.

(** Events of another kind do not count. *)
Lemma emits_only_at_most {A} (P : Event → Prop) (m : IO A) :
  (∀ ev, P ev → p ev = false) → emits_only P m → emits_at_most p 0 m.
Proof.
  intros Hp Hm w. destruct (Hm w) as (_ & evs & Ht & Hev). exists evs.
  split; [done|]. unfold occurrences.
  clear Ht. induction Hev as [|ev evs Hev _ IH]; [done|].
  cbn. by rewrite (Hp ev Hev).
Qed.

Lemma emits_at_most_finally {A} (n : nat) (m : IO A) (cleanup : IO unit) :
  emits_at_most p n m → emits_at_most p 0 cleanup →
  emits_at_most p n (try_finally m cleanup).
Proof.
  intros Hm Hc w. rewrite try_finally_run. destruct (Hm w) as (evs & Ht & Hn).
  destruct (m w) as [r w1]; cbn [snd] in *.
  destruct (Hc w1) as (evs' & Ht' & Hn').
  assert (H : ∃ evs0, trace (snd (cleanup w1)) = trace w ++ evs0
                      ∧ occurrences p evs0 ≤ n).
  { exists (evs ++ evs'). split.
    - by rewrite Ht', Ht, app_assoc.
    - rewrite occurrences_app. lia. }
  by destruct (cleanup w1) as [[[]|e] w2].
Qed.

Lemma emits_at_most_untraced {A} (n : nat) (r : result A) :
  emits_at_most p n (AudioPaths.untraced r).
Proof. intros w. exists []. cbn. rewrite app_nil_r. split; [done | lia]. Qed.

Lemma emits_at_most_assoc {A B C} (n : nat) (m : IO A) (f : A → IO B) (g : B → IO C) :
  emits_at_most p n (m ≫= (λ a, f a ≫= g)) → emits_at_most p n ((m ≫= f) ≫= g).
Proof.
  intros H w. specialize (H w). rewrite !bind_run in *.
  destruct (m w) as [[a|e] w1]; [|done]. by rewrite bind_run in H.
Qed.

End Budget.

(** Spend a budget along the structure of a computation. *)
Lemma emits_at_most_call_exact {A} (p : Event → bool) (ev : Event) (r : result A) :
  emits_at_most p (occurrences p [ev]) (call ev r).
Proof. by apply emits_at_most_call. Qed.

Lemma emits_at_most_emit_exact (p : Event → bool) (ev : Event) :
  emits_at_most p (occurrences p [ev]) (emit ev).
Proof. by apply emits_at_most_emit. Qed.

Create HintDb budget.

Ltac budget_leaf :=
  lazymatch goal with
  | |- emits_at_most _ _ (mret _) => apply emits_at_most_ret
  | |- emits_at_most _ _ (raise _) => apply emits_at_most_raise
  | |- emits_at_most _ _ (AudioPaths.untraced _) => apply emits_at_most_untraced
  | |- emits_at_most _ _ (call _ _) => apply emits_at_most_call; cbn; lia
  | |- emits_at_most _ _ (emit _) => apply emits_at_most_emit; cbn; lia
  | |- emits_at_most _ _ (logger_error _) => apply emits_at_most_emit; cbn; lia
  | |- emits_at_most _ _ (logger_warning _) => apply emits_at_most_emit; cbn; lia
  end.

Ltac budget_exact :=
  first [ apply emits_at_most_call_exact
        | apply emits_at_most_emit_exact
        | apply (emits_at_most_ret _ 0)
        | apply (emits_at_most_untraced _ 0)
        | solve [eauto with budget] ].

Ltac budget_left :=
  intros;
  lazymatch goal with
  | |- emits_at_most ?p ?b ?m =>
      let b' := eval vm_compute in b in change (emits_at_most p b' m)
  end.

Ltac budget_step :=
  lazymatch goal with
  | |- emits_at_most _ _ (try_except _ _) => apply emits_at_most_try; [|intros ?]
  | |- emits_at_most _ _ (try_finally _ _) => apply emits_at_most_finally
  | |- emits_at_most _ _ (if ?b then _ else _) => destruct b
  | |- emits_at_most _ _ (match ?x with _ => _ end) => destruct x
  | |- emits_at_most _ _ (let _ := _ in _) => cbv zeta
  | |- emits_at_most _ _ ((_ ≫= _) ≫= _) => apply emits_at_most_assoc
  | |- emits_at_most _ _ ((if ?b then _ else _) ≫= _) => destruct b
  | |- emits_at_most _ _ ((match ?x with _ => _ end) ≫= _) => destruct x
  | |- emits_at_most _ _ (_ ≫= _) =>
      eapply emits_at_most_bind; [budget_exact | vm_compute; lia | budget_left]
  | |- emits_at_most _ _ _ =>
      first [budget_leaf | eapply emits_at_most_le; [budget_exact | vm_compute; lia]]
  end.

Ltac budget := repeat budget_step.

Section CallBudget.
Import VectorStoreService LLMService ChatEndpoints Main.
Variable env : Env.

Lemma meaningful_silent (chunks : list Value) (w : World) :
  snd (meaningful chunks w) = w.
Proof.
  revert w. induction chunks as [|c cs IH]; intros w; [done|].
  destruct c; try done. cbn [meaningful]. rewrite bind_run.
  specialize (IH w). by destruct (meaningful cs w) as [[kept|e] w1]; cbn in *.
Qed.

Lemma meaningful_budget (p : Event → bool) (chunks : list Value) :
  emits_at_most p 0 (meaningful chunks).
Proof.
  intros w. exists []. rewrite meaningful_silent, app_nil_r. split; [done|].
  cbn. lia.
Qed.

Lemma generate_response_budget (k : Kind) (query context : string) :
  emits_at_most (is_call k) (if k is completion_call then 1 else 0)
    (generate_response env query context).
Proof. unfold generate_response, logger_error. destruct k; budget. Qed.

Lemma _detect_language_budget (k : Kind) (text : string) :
  emits_at_most (is_call k) (if k is completion_call then 1 else 0)
    (_detect_language env text).
Proof. unfold _detect_language, logger_warning. destruct k; budget. Qed.

Hint Resolve meaningful_budget generate_response_budget _detect_language_budget : budget.

Lemma translate_content_budget (k : Kind) (content target source : string) :
  emits_at_most (is_call k) (if k is completion_call then 2 else 0)
    (translate_content env content target source).
Proof. unfold translate_content, logger_error. destruct k; budget. Qed.

Hint Resolve translate_content_budget : budget.

Lemma process_query_budget (k : Kind) (query : string) (chunks : list Value) :
  emits_at_most (is_call k) (if k is completion_call then 4 else 0)
    (process_query_with_context env query chunks).
Proof.
  unfold process_query_with_context, logger_error, logger_warning.
  destruct k; budget.
Qed.

Lemma embed_one_budget (k : Kind) (text : string) :
  emits_at_most (is_call k) (if k is embedding_call then 1 else 0) (embed_one env text).
Proof. unfold embed_one, logger_error. destruct k; budget. Qed.

Hint Resolve process_query_budget embed_one_budget : budget.

Lemma get_embeddings_one_budget (k : Kind) (text : string) :
  emits_at_most (is_call k) (if k is embedding_call then 1 else 0)
    (get_embeddings env [text]).
Proof. cbn [get_embeddings]. destruct k; budget. Qed.

Lemma query_vectors_budget (k : Kind) (qv : list Q) (org proj : Value) (limit : Z) :
  emits_at_most (is_call k) (if k is retrieval_call then 1 else 0)
    (query_vectors env qv org proj limit).
Proof. unfold query_vectors, logger_error. destruct k; budget. Qed.

Lemma first_budget {A} (p : Event → bool) (l : list A) : emits_at_most p 0 (first l).
Proof. unfold first. budget. Qed.

Hint Resolve get_embeddings_one_budget query_vectors_budget first_budget : budget.

Lemma answer_query_budget (k : Kind) (text : string) (org proj : Value) :
  emits_at_most (is_call k) (pipeline_budget k) (answer_query env text org proj).
Proof. unfold answer_query. destruct k; budget. Qed.

Lemma send_personal_message_budget (k : Kind) (frame : Frame) (ws : WebSocket) :
  emits_at_most (is_call k) 0 (send_personal_message env frame ws).
Proof. unfold send_personal_message, logger_error. destruct k; budget. Qed.

Lemma create_temp_audio_file_budget (k : Kind) (files : AudioPaths.AudioEnv)
    (extension : string) :
  emits_at_most (is_call k) 0 (AudioPaths.create_temp_audio_file files extension).
Proof. unfold AudioPaths.create_temp_audio_file, logger_error. destruct k; budget. Qed.

Lemma cleanup_audio_file_budget (k : Kind) (file_path : string) :
  emits_at_most (is_call k) 0 (cleanup_audio_file env file_path).
Proof. unfold cleanup_audio_file, logger_warning. destruct k; budget. Qed.

Hint Resolve answer_query_budget send_personal_message_budget
  create_temp_audio_file_budget cleanup_audio_file_budget : budget.

(** The voice input transcribes at most once. *)
Lemma voice_input_budget (k : Kind) (audio : UploadFile) :
  emits_at_most (is_call k) (if k is transcription_call then 1 else 0)
    (voice_input env audio).
Proof.
  unfold voice_input, transcribe_audio, logger_error.
  destruct k; budget; apply cleanup_audio_file_budget.
Qed.

Lemma synthesize_speech_budget (k : Kind) (text output_path : string) :
  emits_at_most (is_call k) (if k is synthesis_call then 1 else 0)
    (synthesize_speech env text output_path).
Proof. unfold synthesize_speech, logger_error. destruct k; budget. Qed.

Lemma get_audio_url_budget (k : Kind) (file_path : string) :
  emits_at_most (is_call k) 0 (AudioPaths.get_audio_url file_path).
Proof. unfold AudioPaths.get_audio_url, logger_error. destruct k; budget. Qed.

Hint Resolve synthesize_speech_budget get_audio_url_budget : budget.

(** The guarded synthesis of [chat] requests speech at most once. *)
Lemma voice_output_budget (k : Kind) (ai_response : string)
    (response_data : gmap string Value) :
  emits_at_most (is_call k) (if k is synthesis_call then 1 else 0)
    (voice_output env ai_response response_data).
Proof.
  unfold voice_output, logger_error. destruct k; budget.
Qed.

Hint Resolve voice_input_budget voice_output_budget : budget.

Lemma send_message_budget (k : Kind) (chat_message : ChatMessage) :
  emits_at_most (is_call k) (pipeline_budget k) (send_message env chat_message).
Proof. unfold send_message, logger_error. destruct k; budget. Qed.

Lemma chat_budget (k : Kind) (text : option string) (audio : option UploadFile)
    (org proj : Z) :
  emits_at_most (is_call k) (pipeline_budget k + speech_budget k)
    (chat env text audio org proj).
Proof. unfold chat, logger_error. destruct k; budget. Qed.

Lemma handle_user_message_budget (k : Kind) (ws : WebSocket)
    (message : gmap string Value) :
  emits_at_most (is_call k) (pipeline_budget k) (handle_user_message env ws message).
Proof. unfold handle_user_message, logger_error. destruct k; budget. Qed.

Hint Resolve handle_user_message_budget : budget.

Lemma handle_websocket_message_budget (k : Kind) (ws : WebSocket)
    (message : gmap string Value) :
  emits_at_most (is_call k) (pipeline_budget k)
    (handle_websocket_message env ws message).
Proof.
  unfold handle_websocket_message, logger_error.
  apply emits_at_most_try.
  - rewrite dispatch_cases. destruct k; budget.
  - intros e. destruct k; budget.
Qed.

Import WebSocketEndpoint.

Lemma receive_turn_budget (k : Kind) (ws : WebSocket) (data : result Json) :
  emits_at_most (is_call k) (pipeline_budget k) (receive_turn env ws data).
Proof.
  unfold receive_turn, json_loads. apply emits_at_most_try.
  - eapply (emits_at_most_bind _ 0); [| lia |].
    + intros w. exists []. cbn. rewrite app_nil_r. split; [done | lia].
    + intros [members|]; cbn [handle_parsed]; rewrite Nat.sub_0_r.
      * apply handle_websocket_message_budget.
      * unfold logger_error. destruct k; budget.
  - intros e. destruct (is_JSONDecodeError e).
    + apply send_personal_message_budget.
    + apply emits_at_most_raise.
Qed.

Lemma receive_loop_budget (k : Kind) (ws : WebSocket) (inbox : list (result Json))
    (closing : exn) :
  emits_at_most (is_call k) (length inbox * pipeline_budget k)
    (receive_loop env ws inbox closing).
Proof.
  induction inbox as [|data inbox IH]; cbn [receive_loop].
  - apply emits_at_most_raise.
  - eapply emits_at_most_bind; [apply receive_turn_budget | cbn; lia |].
    intros _. eapply emits_at_most_le; [apply IH | cbn; lia].
Qed.

Lemma connection_budget (k : Kind) (ws : WebSocket) :
  emits_at_most (is_call k) 0 (connect env ws)
  ∧ emits_at_most (is_call k) 0 (disconnect ws).
Proof.
  split; intros w.
  - unfold connect. io_unfold.
    destruct (websocket_accept env ws) as [[]|e]; exists [Accept ws]; by destruct k.
  - exists []. rewrite app_nil_r. split; [|cbn; lia].
    unfold disconnect. io_unfold. by case_bool_decide.
Qed.

Lemma websocket_endpoint_budget (k : Kind) (ws : WebSocket)
    (inbox : list (result Json)) (closing : exn) :
  emits_at_most (is_call k) (length inbox * pipeline_budget k)
    (websocket_endpoint env ws inbox closing).
Proof.
  unfold websocket_endpoint.
  eapply emits_at_most_bind; [apply connection_budget | lia |].
  intros _. rewrite Nat.sub_0_r. apply emits_at_most_try.
  - apply receive_loop_budget.
  - intros e. unfold logger_error.
    repeat case_match; try apply connection_budget.
    all: eapply (emits_at_most_bind _ 0);
      [apply emits_at_most_emit; by destruct k | lia | intros; apply connection_budget].
Qed.

End CallBudget.

Section RequestBudget.
Import ChatEndpoints Main WebSocketEndpoint.

(** X11. No request repeats a call to the outside world: a question
    asked through [send_message] makes at most one embedding call, one
    store query and four completion calls; [chat] makes at most one
    transcription and one synthesis besides; and a realtime session
    makes, for each text it receives, no more than one question does,
    and neither transcription nor synthesis. *)
Theorem request_call_budget (env : Env) (k : Kind) :
  (∀ chat_message,
     emits_at_most (is_call k) (pipeline_budget k) (send_message env chat_message))
  ∧ (∀ text audio organisation_id project_id,
       emits_at_most (is_call k) (pipeline_budget k + speech_budget k)
         (chat env text audio organisation_id project_id))
  ∧ (∀ ws inbox closing,
       emits_at_most (is_call k) (length inbox * pipeline_budget k)
         (websocket_endpoint env ws inbox closing)).
Proof.
  split_and!; intros.
  - apply send_message_budget.
  - apply chat_budget.
  - apply websocket_endpoint_budget.
Qed.

(** The four completions are made when the detected language is
    blank. *)
Example completion_budget_reached :
  occurrences (is_call completion_call)
    (trace (snd (LLMService.process_query_with_context blank_detection_env
                   policy_query [VStr policy_chunk] w0))) = 4.
Proof. reflexivity. Qed.

End RequestBudget.

Section GateFailure.
Import LLMService.
Variable env : Env.

Lemma generate_response_fails (query context : string) (err : exn) (w : World) :
  openai_chat_create env (answer_request query context) = Raise err →
  generate_response env query context w
  = (Raise err,
     {| active_connections := active_connections w;
        trace := trace w ++ [ChatCompletion (answer_request query context);
                             Log ERROR "Failed to generate AI response: {e}";
                             Log ERROR "LLM error type: {type(e)}"] |}).
Proof.
  intros H. unfold generate_response. io_unfold. rewrite H.
  cbn [trace active_connections]. by rewrite <- !app_assoc.
Qed.

(** X12. On chunks that are strings the gate raises in one case only:
    the query is no greeting, some chunk is longer than 20 characters
    once trimmed, and the completion that answers fails.  The exception
    is the one of the completion, and the gate has by then made that
    one call and logged two errors: no language is detected and nothing
    is translated. *)
Theorem gate_failure (query : string) (chunks : list string) (err : exn) (w : World) :
  let request :=
    answer_request query (join (nl +:+ nl) (List.filter long_enough chunks)) in
  let run := process_query_with_context env query (VStr <$> chunks) w in
  (fst run = Raise err
   ↔ is_pure_greeting query = false
     ∧ List.filter long_enough chunks ≠ []
     ∧ openai_chat_create env request = Raise err)
  ∧ (fst run = Raise err →
     snd run
     = {| active_connections := active_connections w;
          trace := trace w ++ [ChatCompletion request;
                               Log ERROR "Failed to generate AI response: {e}";
                               Log ERROR "LLM error type: {type(e)}"] |}).
Proof.
  intros request run.
  assert (Hfail : is_pure_greeting query = false →
                  List.filter long_enough chunks ≠ [] →
                  openai_chat_create env request = Raise err →
                  run = (Raise err,
                         {| active_connections := active_connections w;
                            trace := trace w ++ [ChatCompletion request;
                                Log ERROR "Failed to generate AI response: {e}";
                                Log ERROR "LLM error type: {type(e)}"] |})).
  { intros Hg Hm Hr. subst run. unfold process_query_with_context. rewrite Hg.
    rewrite bool_decide_eq_false_2.
    2: { intros Hc. apply Hm. by destruct chunks. }
    rewrite bind_run, meaningful_strs.
    rewrite bool_decide_eq_false_2 by done.
    rewrite bind_run. fold request.
    by rewrite (generate_response_fails _ _ err). }
  assert (Honly : fst run = Raise err →
                  is_pure_greeting query = false
                  ∧ List.filter long_enough chunks ≠ []
                  ∧ openai_chat_create env request = Raise err).
  { intros Hrun.
    destruct (is_pure_greeting query) eqn:Hg.
    { subst run. unfold process_query_with_context in Hrun. by rewrite Hg in Hrun. }
    destruct (decide (List.filter long_enough chunks = [])) as [Hm|Hm].
    { subst run. unfold process_query_with_context in Hrun. rewrite Hg in Hrun.
      case_bool_decide; [done|].
      rewrite bind_run, meaningful_strs, Hm in Hrun. done. }
    destruct (openai_chat_create env request) as [ai|err'] eqn:Hr.
    { destruct (process_query_generate env query chunks ai w Hg Hm Hr)
        as (r & w' & rest & Hrun' & _).
      subst run. by rewrite Hrun' in Hrun. }
    specialize (Hfail eq_refl Hm). split_and!; try done.
    (* the exception raised is that of the completion *)
    subst run. unfold process_query_with_context in Hrun. rewrite Hg in Hrun.
    rewrite bool_decide_eq_false_2 in Hrun.
    2: { intros Hc. apply Hm. by destruct chunks. }
    rewrite bind_run, meaningful_strs in Hrun.
    rewrite bool_decide_eq_false_2 in Hrun by done.
    rewrite bind_run in Hrun. fold request in Hrun.
    rewrite (generate_response_fails _ _ err' _ Hr) in Hrun. cbn in Hrun.
    by rewrite Hrun. }
  split.
  - split; [done|]. intros (Hg & Hm & Hr). by rewrite Hfail.
  - intros Hrun. destruct (Honly Hrun) as (Hg & Hm & Hr). by rewrite Hfail.
Qed.

(** A chunk that is not a string stops the gate before any call. *)
Lemma meaningful_malformed (chunks : list Value) (w : World) :
  Exists (λ chunk, ∀ s, chunk ≠ VStr s) chunks →
  meaningful chunks w
  = (Raise (Exception "AttributeError" "object has no attribute 'strip'"), w).
Proof.
  induction chunks as [|c cs IH]; intros Hex; [by apply Exists_nil in Hex|].
  destruct c as [| | | |s]; try done.
  - apply Exists_cons in Hex as [Hc|Hex]; [by destruct (Hc s)|].
    cbn [meaningful]. rewrite bind_run. by rewrite IH.
Qed.

(** X13. A retrieved chunk that is not a string makes the gate raise
    [AttributeError] on every query that is no greeting, before any
    call is made and whatever the other chunks are; a greeting is
    answered all the same. *)
Theorem gate_malformed_chunk (query : string) (chunks : list Value) (w : World) :
  Exists (λ chunk, ∀ s, chunk ≠ VStr s) chunks →
  process_query_with_context env query chunks w
  = if is_pure_greeting query
    then (Ok (_generate_greeting_response env query), w)
    else (Raise (Exception "AttributeError" "object has no attribute 'strip'"), w).
Proof.
  intros Hex. unfold process_query_with_context.
  destruct (is_pure_greeting query); [done|].
  rewrite bool_decide_eq_false_2.
  2: { intros ->. by apply Exists_nil in Hex. }
  by rewrite bind_run, meaningful_malformed.
Qed.

End GateFailure.

Section GateFailureWitness.
Import LLMService.

Example gate_failure_outage :
  process_query_with_context outage_env policy_query [VStr policy_chunk] w0
  = (Raise (Exception "APIError" "unreachable"),
     {| active_connections := [];
        trace := [ChatCompletion (answer_request policy_query policy_chunk);
                  Log ERROR "Failed to generate AI response: {e}";
                  Log ERROR "LLM error type: {type(e)}"] |}).
Proof. reflexivity. Qed.

Lemma gate_malformed_chunk_witness :
  process_query_with_context policy_env policy_query
    [VStr policy_chunk; VInt 30] w0
  = if is_pure_greeting policy_query
    then (Ok (_generate_greeting_response policy_env policy_query), w0)
    else (Raise (Exception "AttributeError" "object has no attribute 'strip'"), w0).
Proof.
  apply (gate_malformed_chunk policy_env).
  apply Exists_cons_tl, Exists_cons_hd. intros s. discriminate.
Defined.

End GateFailureWitness.

Section Packing.
Import VectorStoreService.
Variable chunk_size : Z.

Lemma packed_last (groups : list (list string)) (g g' : list string) :
  packed chunk_size (groups ++ [g]) → head g' = head g →
  packed chunk_size (groups ++ [g']).
Proof.
  intros Hp Hh i a b Ha Hb.
  destruct (decide (S i < length groups)%nat) as [Hlt|Hge].
  - rewrite lookup_app_l in Ha, Hb by lia.
    apply (Hp i); by rewrite lookup_app_l by lia.
  - destruct (decide (S i = length groups)) as [Heq|Hne].
    + rewrite lookup_app_l in Ha by lia.
      rewrite lookup_app_r in Hb by lia.
      replace (S i - length groups)%nat with 0%nat in Hb by lia.
      injection Hb as <-. intros w Hw. rewrite Hh in Hw.
      apply (Hp i a g); [by rewrite lookup_app_l by lia | | done].
      rewrite lookup_app_r by lia.
      by replace (S i - length groups)%nat with 0%nat by lia.
    + apply lookup_lt_Some in Hb. rewrite length_app in Hb. cbn in Hb. lia.
Qed.

Lemma packed_snoc (groups : list (list string)) (g g' : list string) :
  packed chunk_size (groups ++ [g]) → overflows chunk_size g g' →
  packed chunk_size ((groups ++ [g]) ++ [g']).
Proof.
  intros Hp Ho i a b Ha Hb.
  destruct (decide (S i < length (groups ++ [g]))%nat) as [Hlt|Hge].
  - rewrite lookup_app_l in Ha, Hb by lia. by apply (Hp i).
  - destruct (decide (S i = length (groups ++ [g]))) as [Heq|Hne].
    + rewrite lookup_app_l in Ha by lia.
      rewrite lookup_app_r in Hb by lia.
      replace (S i - length (groups ++ [g]))%nat with 0%nat in Hb by lia.
      injection Hb as <-.
      rewrite length_app in Heq. cbn in Heq.
      rewrite lookup_app_r in Ha by lia.
      replace (i - length groups)%nat with 0%nat in Ha by lia.
      by injection Ha as <-.
    + apply lookup_lt_Some in Hb. rewrite !length_app in *. cbn in *. lia.
Qed.

Lemma packed_one (g : list string) : packed chunk_size [g].
Proof. intros i a b _ Hb. by destruct i. Qed.

Lemma join_snoc_len (l : list string) (word : string) :
  l ≠ [] → len (join " " (l ++ [word])) = (len (join " " l) + 1 + len word)%Z.
Proof.
  intros Hl. rewrite join_app by done. rewrite !len_app.
  change (len " ") with 1%Z. change (join " " [word]) with word. lia.
Qed.

Lemma packing_inv_init : packing_inv chunk_size [] ([], [], 0%Z).
Proof. exists []. by split_and!; try constructor. Qed.

Lemma packing_inv_step (seen : list string) st (word : string) :
  packing_inv chunk_size seen st →
  packing_inv chunk_size (seen ++ [word]) (chunk_step chunk_size st word).
Proof.
  destruct st as [[chunks current_chunk] current_size].
  intros (groups & Hc & Hne & Hseen & Hempty & Hfull).
  unfold chunk_step.
  destruct ((current_size + len word + 1 >? chunk_size)%Z
            && negb (bool_decide (current_chunk = []))) eqn:Hcond.
  - apply andb_true_iff in Hcond as [Hgt Hcur].
    apply negb_true_iff, bool_decide_eq_false in Hcur.
    destruct (Hfull Hcur) as [Hsize Hpacked].
    rewrite Z.gtb_ltb in Hgt. apply Z.ltb_lt in Hgt.
    exists (groups ++ [current_chunk]). split_and!.
    + by rewrite map_app, Hc.
    + apply Forall_app. split; [done|]. by constructor.
    + rewrite concat_app. cbn. by rewrite app_nil_r, Hseen.
    + done.
    + intros _. split.
      * unfold counted. change (join " " [word]) with word.
        destruct groups; cbn; lia.
      * apply packed_snoc; [done|]. intros w [= <-].
        unfold counted in Hsize. destruct groups; lia.
  - exists groups. split_and!; try done.
    + by rewrite app_assoc, Hseen.
    + by destruct current_chunk.
    + intros _. destruct (decide (current_chunk = [])) as [->|Hcur].
      * destruct (Hempty eq_refl) as [-> ->]. split; [|apply packed_one].
        unfold counted. cbn [app]. change (join " " [word]) with word. lia.
      * destruct (Hfull Hcur) as [Hsize Hpacked]. split.
        -- unfold counted in *. rewrite join_snoc_len by done. lia.
        -- apply (packed_last _ current_chunk); [done|]. by destruct current_chunk.
Qed.

Lemma packing_inv_fold (words seen : list string) st :
  packing_inv chunk_size seen st →
  packing_inv chunk_size (seen ++ words) (fold_left (chunk_step chunk_size) words st).
Proof.
  revert seen st. induction words as [|word words IH]; intros seen st H.
  - by rewrite app_nil_r.
  - cbn [fold_left].
    replace (seen ++ word :: words) with ((seen ++ [word]) ++ words)
      by (by rewrite <- app_assoc).
    apply IH. by apply packing_inv_step.
Qed.

(** The chunks are the joined groups of a packed partition of the
    words. *)
Lemma chunk_text_packed (text : string) :
  ∃ groups : list (list string),
    chunk_text text chunk_size = map (join " ") groups
    ∧ concat groups = split text
    ∧ Forall (λ g, g ≠ []) groups
    ∧ packed chunk_size groups.
Proof.
  unfold chunk_text.
  pose proof (packing_inv_fold (split text) [] _ packing_inv_init) as H.
  destruct (fold_left _ _ _) as [[chunks current_chunk] current_size].
  destruct H as (groups & Hc & Hne & Hseen & Hempty & Hfull). cbn [app] in Hseen.
  case_bool_decide as Hcur.
  - subst current_chunk. destruct (Hempty eq_refl) as [-> _].
    exists []. by split_and!.
  - destruct (Hfull Hcur) as [_ Hpacked].
    exists (groups ++ [current_chunk]). split_and!.
    + by rewrite map_app, Hc.
    + rewrite concat_app. cbn. by rewrite app_nil_r.
    + apply Forall_app. split; [done|]. by constructor.
    + done.
Qed.

Lemma chunk_text_nil (text : string) :
  chunk_text text chunk_size = [] → split text = [].
Proof.
  intros Hnil.
  destruct (chunk_text_groups chunk_size text) as (groups & Hc & Hcat & _).
  rewrite Hnil in Hc. destruct groups; [|done]. symmetry. exact Hcat.
Qed.

Lemma lookup_map {A B} (f : A → B) (l : list A) (i : nat) (b : B) :
  map f l !! i = Some b → ∃ a, l !! i = Some a ∧ b = f a.
Proof.
  revert i. induction l as [|x l IH]; intros [|i] H; try done.
  - injection H as <-. by exists x.
  - by apply IH.
Qed.

Lemma groups_shorter {A} (groups : list (list A)) :
  Forall (λ g, g ≠ []) groups → (length groups <= length (concat groups))%nat.
Proof.
  induction 1 as [|g groups Hg _ IH]; [done|].
  cbn. rewrite length_app. destruct g; [done|]. cbn. lia.
Qed.

Lemma join_words_nonempty (g : list string) :
  g ≠ [] → Forall is_word g → join " " g ≠ "".
Proof.
  intros Hg Hw. destruct g as [|w g]; [done|].
  inversion Hw as [|? ? [Hne _] _]; subst.
  destruct g; [done|]. rewrite join_cons by done. by destruct w.
Qed.

(** X14. [chunk_text] packs greedily, for every text and size: no
    chunk is empty; a chunk is one word or no longer than the size; a
    chunk that is followed by another could not take the first word of
    that one, with which and one more space it would reach the size;
    and there are no more chunks than words. *)
Theorem chunk_text_packing (text : string) :
  let chunks := chunk_text text chunk_size in
  Forall (λ chunk, chunk ≠ ""
                   ∧ ((∃ w, split chunk = [w]) ∨ (len chunk <= chunk_size)%Z)) chunks
  ∧ (∀ i chunk next w,
       chunks !! i = Some chunk → chunks !! S i = Some next →
       head (split next) = Some w →
       (chunk_size <= len chunk + 1 + len w)%Z)
  ∧ (length chunks <= length (split text))%nat.
Proof.
  intros chunks. split_and!.
  - subst chunks.
    destruct (chunk_text_groups chunk_size text) as (groups & -> & Hcat & Hne & Ht).
    assert (Hw : Forall (Forall is_word) groups).
    { apply Forall_concat_inv. rewrite Hcat. apply split_words. }
    apply Forall_map. clear Hcat.
    induction Hw as [|g gs Hg _ IH]; [constructor|].
    inversion Hne; subst. inversion Ht as [|? ? Hgt ?]; subst.
    constructor; [|by apply IH]. split; [by apply join_words_nonempty|].
    rewrite split_join by done.
    destruct Hgt as [[w ->]|Hle]; [left; by exists w | by right].
  - subst chunks.
    destruct (chunk_text_packed text) as (groups & -> & Hcat & Hne & Hp).
    assert (Hw : Forall (Forall is_word) groups).
    { apply Forall_concat_inv. rewrite Hcat. apply split_words. }
    intros i chunk next w Hi HSi Hhead.
    apply lookup_map in Hi as (g & Hg & ->).
    apply lookup_map in HSi as (g' & Hg' & ->).
    rewrite split_join in Hhead.
    2: { rewrite Forall_lookup in Hw. by apply (Hw (S i)). }
    by apply (Hp i g g').
  - subst chunks.
    destruct (chunk_text_groups chunk_size text) as (groups & -> & Hcat & Hne & _).
    rewrite length_map, <- Hcat. by apply groups_shorter.
Qed.

Lemma counted_words_nonneg (words : list string) : (0 <= counted_words words)%Z.
Proof.
  unfold counted_words. induction words as [|w ws IH]; cbn [fold_right]; [lia|].
  pose proof (len_nonneg w). lia.
Qed.

Lemma counted_words_join (words : list string) :
  words ≠ [] → counted_words words = (len (join " " words) + 1)%Z.
Proof.
  induction words as [|w ws IH]; [done|]. intros _.
  destruct ws as [|w' ws].
  { unfold counted_words. cbn [fold_right]. change (join " " [w]) with w. lia. }
  unfold counted_words in *. cbn [fold_right] in *.
  rewrite (join_cons " " w (w' :: ws)) by done. rewrite !len_app.
  change (len " ") with 1%Z. specialize (IH ltac:(done)). lia.
Qed.

(** Words that fit together are never cut. *)
Lemma fold_no_split (words current_chunk : list string) (current_size : Z) :
  (current_size + counted_words words <= chunk_size)%Z →
  fold_left (chunk_step chunk_size) words ([], current_chunk, current_size)
  = ([], current_chunk ++ words, (current_size + counted_words words)%Z).
Proof.
  revert current_chunk current_size.
  induction words as [|w ws IH]; intros current_chunk current_size Hfit.
  - cbn. by rewrite app_nil_r, Z.add_0_r.
  - change (counted_words (w :: ws)) with (len w + 1 + counted_words ws)%Z in *.
    cbn [fold_left]. pose proof (counted_words_nonneg ws).
    unfold chunk_step at 2.
    destruct (Z.gtb_spec (current_size + len w + 1) chunk_size) as [Hgt|_]; [lia|].
    cbn [andb]. rewrite IH by lia. rewrite <- app_assoc. cbn [app].
    f_equal. lia.
Qed.

(** The last word of a text of several words that do not fit is cut
    from the words before it, unless a cut was made already. *)
Lemma fold_last_word (init : list string) (last_word : string) :
  init ≠ [] →
  let '(chunks, current_chunk, _) :=
    fold_left (chunk_step chunk_size) (init ++ [last_word]) ([], [], 0%Z) in
  current_chunk ≠ []
  ∧ (chunks = [] →
     (len (join " " (init ++ [last_word])) < chunk_size)%Z).
Proof.
  intros Hinit. rewrite fold_left_app. cbn [fold_left].
  pose proof (packing_inv_fold init [] _ packing_inv_init) as H.
  destruct (fold_left _ init _) as [[chunks current_chunk] current_size].
  destruct H as (groups & Hc & Hne & Hseen & Hempty & Hfull). cbn [app] in Hseen.
  assert (Hcur : current_chunk ≠ []).
  { intros ->. destruct (Hempty eq_refl) as [-> _]. by cbn in Hseen. }
  destruct (Hfull Hcur) as [Hsize _].
  unfold chunk_step. rewrite (bool_decide_eq_false_2 (current_chunk = [])) by done.
  rewrite andb_true_r.
  destruct (Z.gtb_spec (current_size + len last_word + 1) chunk_size) as [Hgt|Hle].
  - split; [done|]. intros Hnil. by destruct chunks.
  - split; [by destruct current_chunk|]. intros ->.
    destruct groups; [|done]. cbn [concat app] in Hseen. subst current_chunk.
    unfold counted in Hsize. rewrite join_snoc_len by done. lia.
Qed.

(** X15. How many chunks a text gives: none exactly when it has no
    word; and one, which is then its words joined by single spaces,
    exactly when it is one word or its joined words are shorter than
    the size.  Words that make exactly the size are cut in two. *)
Theorem chunk_text_single (text : string) :
  let words := split text in
  (chunk_text text chunk_size = [] ↔ words = [])
  ∧ (chunk_text text chunk_size = [join " " words]
     ↔ (∃ w, words = [w])
       ∨ (words ≠ [] ∧ (len (join " " words) < chunk_size)%Z)).
Proof.
  intros words.
  assert (Hone : ∀ w, words = [w] → chunk_text text chunk_size = [join " " words]).
  { intros w Hw. unfold chunk_text. fold words. rewrite Hw. cbn [fold_left].
    unfold chunk_step. cbn [bool_decide decide_rel negb andb].
    rewrite (bool_decide_eq_true_2 ([] = [])) by done. rewrite andb_false_r.
    cbn [app]. by rewrite bool_decide_eq_false_2. }
  assert (Hfits : words ≠ [] → (len (join " " words) < chunk_size)%Z →
                  chunk_text text chunk_size = [join " " words]).
  { intros Hne Hlt. unfold chunk_text. fold words.
    rewrite fold_no_split by (rewrite counted_words_join by done; lia).
    cbn [app]. by rewrite bool_decide_eq_false_2. }
  split.
  - split.
    + apply chunk_text_nil.
    + intros Hw. unfold chunk_text. fold words. by rewrite Hw.
  - split.
    + intros Hsingle.
      destruct (decide (words = [])) as [Hnil|Hne].
      { exfalso. revert Hsingle. unfold chunk_text. fold words. by rewrite Hnil. }
      destruct (exists_last Hne) as (init & last_word & Hlast).
      destruct init as [|w0 init]; [left; by exists last_word|].
      right. split; [done|].
      pose proof (fold_last_word (w0 :: init) last_word) as Hf.
      revert Hsingle. unfold chunk_text. fold words. rewrite Hlast in *.
      destruct (fold_left _ _ _) as [[chunks current_chunk] current_size].
      destruct Hf as [Hcur Hfit]; [done|].
      rewrite bool_decide_eq_false_2 by done. intros Hsingle.
      apply Hfit. destruct chunks as [|c chunks]; [done|]. by destruct chunks.
    + intros [[w Hw]|[Hne Hlt]]; [by apply (Hone w) | by apply Hfits].
Qed.

End Packing.

Section PackingExamples.
Import VectorStoreService.

(** Eleven characters at size eleven: the first chunk is counted one
    character longer than it is. *)
Example chunk_text_exact_size :
  chunk_text "hello world" 11 = ["hello"; "world"]
  ∧ chunk_text "hello world" 12 = ["hello world"].
Proof. by vm_compute. Qed.

(** A word longer than the size is a chunk of its own, and the chunks
    after the first may be one character longer than the first. *)
Example chunk_text_packs :
  chunk_text "  to be or not  to be, that is the question " 6
  = ["to be"; "or not"; "to be,"; "that"; "is the"; "question"].
Proof. by vm_compute. Qed.

End PackingExamples.

Section IngestionRun.
Import VectorStoreService Ingestion.
Variable env : IngestEnv.

Lemma ingest_bind_run {A B} (m : Ingest A) (f : A → Ingest B) (b : Bucket) :
  (m ≫= f) b = match m b with
               | (Ok a, b') => f a b'
               | (Raise e, b') => (Raise e, b')
               end.
Proof. reflexivity. Qed.

(** The first word of the text of an entry is its label. *)
Lemma faq_content_words (title description content : string) :
  split (faq_content title description content) ≠ [].
Proof.
  unfold faq_content, split.
  change ("Title: " +:+ ?s) with (String "T" (String "i" (String "t" (String "l"
            (String "e" (String ":" (String " " s))))))).
  cbn [split_go]. cbn. done.
Qed.

Lemma faq_chunks_exist (title description content : string) :
  chunk_text (faq_content title description content) 1000 ≠ [].
Proof.
  intros Hnil. apply chunk_text_nil in Hnil. by apply faq_content_words in Hnil.
Qed.

(** X16. [create_faq_vectors] writes all or nothing, in one request.
    The text of an entry always has a chunk, so the [ValueError] of the
    source is never raised.  When an embedding fails, the failure is
    logged once more and raised again, and no request is made to the
    store.  When all succeed, one request is made, with a vector for
    every chunk: if the store accepts it the result names the key, the
    count and the chunks; if not, the failure is raised again after
    three log records. *)
Theorem create_faq_vectors_run (title description content : string)
    (organisation_id project_id : Value) (b : Bucket) :
  let chunks := chunk_text (faq_content title description content) 1000 in
  let run := create_faq_vectors env title description content
               organisation_id project_id b in
  chunks ≠ []
  ∧ match get_embeddings (base env) chunks (world b) with
    | (Raise e, w') =>
        run = (Raise e,
               {| world := {| active_connections := active_connections w';
                              trace := trace w'
                                ++ [Log ERROR "Failed to create FAQ vectors: {e}"] |};
                  put_requests := put_requests b |})
    | (Ok embeddings, w') =>
        let req := faq_request env title description content
                     organisation_id project_id chunks embeddings in
        match s3vectors_put_vectors env req with
        | Ok _ =>
            run = (Ok {| unique_key := uuid4 env;
                         chunk_count := Z.of_nat (length chunks);
                         chunks := chunks |},
                   {| world := w'; put_requests := put_requests b ++ [req] |})
        | Raise e =>
            run = (Raise e,
                   {| world := {| active_connections := active_connections w';
                                  trace := trace w'
                                    ++ [Log ERROR "Failed to store vectors: {e}";
                                        Log ERROR "Store error type: {type(e)}";
                                        Log ERROR "Failed to create FAQ vectors: {e}"] |};
                      put_requests := put_requests b ++ [req] |})
        end
    end.
Proof.
  intros chunks run. split; [apply faq_chunks_exist|].
  subst run. unfold create_faq_vectors. cbv zeta. fold chunks.
  rewrite bool_decide_eq_false_2 by apply faq_chunks_exist.
  unfold ingest_try, store_vectors, put, lift, ingest_raise, logger_error, emit,
    mbind, Ingest_bind, mret, Ingest_ret.
  cbv zeta.
  fold (faq_request env title description content organisation_id project_id chunks).
  destruct (get_embeddings (base env) chunks (world b)) as [[embeddings|e] w'].
  - fold (faq_request env title description content organisation_id project_id
            chunks embeddings).
    destruct (s3vectors_put_vectors env _) as [response|e]; [done|].
    cbn. by rewrite <- !app_assoc.
  - done.
Qed.

End IngestionRun.

Section IngestionRequest.
Import VectorStoreService ChatEndpoints Ingestion.
Variable env : IngestEnv.
Local Abbreviation dimension := (VECTOR_DIMENSION (settings (base env))).

Lemma get_embeddings_fitted (texts : list string) (embeddings : list (list Q))
    (w w' : World) :
  (0 <= dimension)%Z →
  get_embeddings (base env) texts w = (Ok embeddings, w') →
  length embeddings = length texts
  ∧ Forall (λ v, Z.of_nat (length v) = dimension) embeddings.
Proof.
  intros Hd. revert embeddings w w'.
  induction texts as [|text texts IH]; intros embeddings w w'.
  - intros [= <- _]. by split.
  - cbn [get_embeddings]. rewrite bind_run.
    pose proof (embed_one_spec (base env) text w Hd) as H1.
    destruct (embed_one (base env) text w) as [[v|err] w1]; [|done].
    destruct H1 as (e & _ & Hv & _). rewrite bind_run.
    destruct (get_embeddings (base env) texts w1) as [[vs|err] w2] eqn:Hrest; [|done].
    intros [= <- _]. destruct (IH vs w1 w2 Hrest) as [Hlen Hall].
    split; [cbn; lia | by constructor].
Qed.

Lemma vectors_to_put_lookup (title description content : string)
    (organisation_id project_id : Value) (key : string)
    (chunks : list string) (embeddings : list (list Q)) (i : nat) (v : PutVector) :
  vectors_to_put title description content organisation_id project_id key
    chunks embeddings !! i = Some v →
  ∃ chunk embedding,
    chunks !! i = Some chunk ∧ embeddings !! i = Some embedding
    ∧ v = {| put_key := key +:+ "_" +:+ pretty i;
             put_data := embedding;
             put_metadata := faq_metadata title description content
                               organisation_id project_id key i chunk |}.
Proof.
  unfold vectors_to_put. rewrite list_lookup_imap.
  destruct (zip chunks embeddings !! i) as [[chunk embedding]|] eqn:Hz; [|done].
  intros [= <-]. apply lookup_zip_with_Some in Hz as (c & e & Heq & Hc & He).
  injection Heq as -> ->. by exists c, e.
Qed.

Lemma vectors_to_put_keys (title description content : string)
    (organisation_id project_id : Value) (key : string)
    (chunks : list string) (embeddings : list (list Q)) :
  put_key <$> vectors_to_put title description content organisation_id project_id
                key chunks embeddings
  = (λ i, key +:+ "_" +:+ pretty i) <$> seq 0 (length (zip chunks embeddings)).
Proof.
  unfold vectors_to_put. rewrite fmap_imap, <- imap_seq_0.
  apply imap_ext. by intros i [chunk embedding] _.
Qed.

Lemma faq_metadata_chunk_text (title description content : string)
    (organisation_id project_id : Value) (key : string) (i : nat) (chunk : string) :
  faq_metadata title description content organisation_id project_id key i chunk
    !! "chunk_text" = Some (VStr chunk)
  ∧ faq_metadata title description content organisation_id project_id key i chunk
    !! "organisation_id" = Some organisation_id
  ∧ faq_metadata title description content organisation_id project_id key i chunk
    !! "project_id" = Some project_id
  ∧ faq_metadata title description content organisation_id project_id key i chunk
    !! "chunk_id" = Some (VInt (Z.of_nat i)).
Proof. by split_and!. Qed.

Lemma extract_listed (f : nat → string * list Q → PutVector)
    (chunks : list string) (embeddings : list (list Q)) :
  (∀ i c e, put_metadata (f i (c, e)) !! "chunk_text" = Some (VStr c)) →
  length embeddings = length chunks →
  flat_map (λ vector,
              match metadata vector with
              | Some md => match md !! "chunk_text" with
                           | Some chunk => [chunk]
                           | None => []
                           end
              | None => []
              end) (listed <$> imap f (zip chunks embeddings))
  = VStr <$> chunks.
Proof.
  revert f embeddings.
  induction chunks as [|c chunks IH]; intros f [|e embeddings] Hf Hlen; try done.
  cbn [zip zip_with]. rewrite imap_cons, fmap_cons.
  cbn [flat_map listed metadata]. rewrite Hf.
  cbn [app fmap list_fmap]. f_equal.
  apply IH; [|by injection Hlen]. intros i c' e'. apply Hf.
Qed.

(** X17. When the embeddings of the chunks succeed, the request that
    [create_faq_vectors] builds holds one vector for each chunk, in
    order: vector [i] carries chunk [i] as its ["chunk_text"] and [i] as
    its ["chunk_id"], its data has the configured dimension, and no two
    vectors have the same key. *)
Theorem faq_request_well_formed (title description content : string)
    (organisation_id project_id : Value) (chunks : list string)
    (embeddings : list (list Q)) (w w' : World) :
  (0 <= dimension)%Z →
  get_embeddings (base env) chunks w = (Ok embeddings, w') →
  let written := put_vectors (faq_request env title description content
                                organisation_id project_id chunks embeddings) in
  (λ v, put_metadata v !! "chunk_text") <$> written = (Some ∘ VStr) <$> chunks
  ∧ (λ v, put_metadata v !! "chunk_id") <$> written
    = (λ i, Some (VInt (Z.of_nat i))) <$> seq 0 (length chunks)
  ∧ put_data <$> written = embeddings
  ∧ Forall (λ v, Z.of_nat (length (put_data v)) = dimension) written
  ∧ NoDup (put_key <$> written).
Proof.
  intros Hd Hrun written.
  destruct (get_embeddings_fitted chunks embeddings w w' Hd Hrun) as [Hlen Hfit].
  subst written. cbn [faq_request put_vectors].
  assert (Hdata : put_data <$> vectors_to_put title description content
                    organisation_id project_id (uuid4 env) chunks embeddings
                  = embeddings).
  { unfold vectors_to_put. rewrite fmap_imap.
    rewrite <- (snd_zip chunks embeddings) at 2 by lia.
    rewrite <- imap_const. apply imap_ext. by intros i [c e] _. }
  split_and!.
  - unfold vectors_to_put. rewrite fmap_imap.
    rewrite <- (fst_zip chunks embeddings) at 2 by lia.
    rewrite <- list_fmap_compose, <- imap_const. apply imap_ext.
    by intros i [c e] _.
  - unfold vectors_to_put. rewrite fmap_imap.
    replace (length chunks) with (length (zip chunks embeddings))
      by (rewrite length_zip; lia).
    rewrite <- imap_seq_0. apply imap_ext. by intros i [c e] _.
  - done.
  - rewrite <- Hdata in Hfit. by apply Forall_fmap in Hfit.
  - rewrite vectors_to_put_keys. apply NoDup_fmap_2; [|apply NoDup_seq].
    intros i j Hij. by apply (inj _), (inj _), (inj pretty) in Hij.
Qed.

(** X18. What [create_faq_vectors] writes for a tenant is what
    [query_vectors] asks for: the metadata of every vector written for
    an organisation and a project satisfies the filter of a query for
    that pair and of no other; and from a response that lists the
    vectors written, [extract_chunks] gives back the chunks, in
    order. *)
Theorem faq_write_read (title description content : string)
    (organisation_id project_id : Value) (chunks : list string)
    (embeddings : list (list Q)) :
  length embeddings = length chunks →
  let written := put_vectors (faq_request env title description content
                                organisation_id project_id chunks embeddings) in
  (∀ v reader query_vector organisation_id' project_id' limit,
     v ∈ written →
     eval_filter (filter_expr (query_request reader query_vector
                                 organisation_id' project_id' limit))
                 (put_metadata v)
     = bool_decide (organisation_id' = organisation_id ∧ project_id' = project_id))
  ∧ extract_chunks {| vectors := Some (listed <$> written) |} = VStr <$> chunks.
Proof.
  intros Hlen written. subst written. cbn [faq_request put_vectors]. split.
  - intros v reader qv org' proj' limit Hv.
    apply list_elem_of_lookup in Hv as [i Hv].
    apply vectors_to_put_lookup in Hv as (chunk & embedding & _ & _ & ->).
    cbn [query_request filter_expr eval_filter forallb put_metadata].
    destruct (faq_metadata_chunk_text title description content organisation_id
                project_id (uuid4 env) i chunk) as (_ & -> & -> & _).
    rewrite andb_true_r.
    rewrite bool_decide_and.
    f_equal; apply bool_decide_ext; split; congruence.
  - unfold extract_chunks. cbn [vectors]. unfold vectors_to_put.
    apply extract_listed; [|done]. intros i c e.
    apply faq_metadata_chunk_text.
Qed.

End IngestionRequest.

Section IngestionWitness.
Import VectorStoreService LLMService ChatEndpoints Ingestion.

(** The text of an entry is stored with its line breaks turned into
    spaces. *)
Example create_faq_vectors_stores :
  let chunk := "Title: Returns Description: Return policy Content: " +:+ policy_chunk in
  create_faq_vectors ingest_env "Returns" "Return policy" policy_chunk
    (VInt 1) (VInt 1) b0
  = (Ok {| unique_key := uuid4 ingest_env; chunk_count := 1; chunks := [chunk] |},
     {| world := {| active_connections := [];
                    trace := [InvokeModel "amazon.titan-embed-text-v2:0" chunk] |};
        put_requests :=
          [faq_request ingest_env "Returns" "Return policy" policy_chunk
             (VInt 1) (VInt 1) [chunk] [[1; 0; 0; 0]%Q]] |}).
Proof. by vm_compute. Qed.

(** An entry whose chunk cannot be embedded is not stored. *)
Example create_faq_vectors_writes_nothing :
  create_faq_vectors throttled_ingest_env "Returns" "" "" (VInt 1) (VInt 1) b0
  = (Raise (Exception "ThrottlingException" "slow down"),
     {| world :=
          {| active_connections := [];
             trace := [InvokeModel "amazon.titan-embed-text-v2:0"
                         "Title: Returns Description: Content:";
                       Log ERROR "Failed to generate embedding for chunk {i+1}: {e}";
                       Log ERROR "Text preview: {text[:100]}...";
                       Log ERROR "Failed to create FAQ vectors: {e}"] |};
        put_requests := [] |}).
Proof. by vm_compute. Qed.

Lemma faq_request_well_formed_witness :
  let written := put_vectors (faq_request ingest_env "Returns" "Return policy"
                                policy_chunk (VInt 1) (VInt 1)
                                ["Title: Returns"; "Description: Return policy"]
                                [[1; 0; 0; 0]%Q; [1; 0; 0; 0]%Q]) in
  (λ v, put_metadata v !! "chunk_text") <$> written
  = (Some ∘ VStr) <$> ["Title: Returns"; "Description: Return policy"]
  ∧ (λ v, put_metadata v !! "chunk_id") <$> written
    = (λ i, Some (VInt (Z.of_nat i)))
        <$> seq 0 (length ["Title: Returns"; "Description: Return policy"])
  ∧ put_data <$> written = [[1; 0; 0; 0]%Q; [1; 0; 0; 0]%Q]
  ∧ Forall (λ v, Z.of_nat (length (put_data v))
                 = VECTOR_DIMENSION (settings (base ingest_env))) written
  ∧ NoDup (put_key <$> written).
Proof.
  eapply (faq_request_well_formed ingest_env _ _ _ _ _ _ _ w0).
  - vm_compute. discriminate.
  - reflexivity.
Defined.

Lemma faq_write_read_witness :
  let written := put_vectors (faq_request ingest_env "Returns" "Return policy"
                                policy_chunk (VInt 1) (VInt 1)
                                ["Title: Returns"; "Description: Return policy"]
                                [[1; 0; 0; 0]%Q; [1; 0; 0; 0]%Q]) in
  (∀ v reader query_vector organisation_id' project_id' limit,
     v ∈ written →
     eval_filter (filter_expr (query_request reader query_vector
                                 organisation_id' project_id' limit))
                 (put_metadata v)
     = bool_decide (organisation_id' = VInt 1 ∧ project_id' = VInt 1))
  ∧ extract_chunks {| vectors := Some (listed <$> written) |}
    = VStr <$> ["Title: Returns"; "Description: Return policy"].
Proof. apply (faq_write_read ingest_env). reflexivity. Defined.

(** An entry stored for a tenant is the context of that tenant's
    question. *)
Example ingest_then_ask :
  let '(_, b) := create_faq_vectors ingest_env "Returns" "Return policy"
                   policy_chunk (VInt 1) (VInt 1) b0 in
  let db := listed <$> (put_requests b ≫= put_vectors) in
  let env := mock_env 4 [1; 0]%Q db
               (mock_llm (Ok policy_answer) (Ok "English") (Ok "unused")) send_ok in
  llm_calls (trace (snd (answer_query env policy_query (VInt 1) (VInt 1) w0)))
  = [answer_request policy_query
       ("Title: Returns Description: Return policy Content: " +:+ policy_chunk);
     detect_request policy_query]
  ∧ llm_calls (trace (snd (answer_query env policy_query (VInt 2) (VInt 1) w0)))
    = [].
Proof. by vm_compute. Qed.

End IngestionWitness.

Section Translation.
Import LLMService.
Variable env : Env.

(** X19. [translate_content] makes the translation request first.
    When that fails it logs two errors and raises the failure again,
    without detecting anything.  When it succeeds the result is the
    translation with the target as given; the source language is the
    one given, with no further call, or, when none is given, the
    language detected from the content as it was before translation,
    by one more call whose failure leaves "Unknown" as the source. *)
Theorem translate_content_run (content target source : string) (w : World) :
  let request := translate_request content target source in
  match openai_chat_create env request with
  | Ok translated =>
      ∃ w', translate_content env content target source w
            = (Ok {| translated_content := translated;
                     source_language := if bool_decide (source = "")
                                        then detected env content else source;
                     target_language := target |}, w')
        ∧ active_connections w' = active_connections w
        ∧ llm_calls (trace w')
          = llm_calls (trace w)
            ++ request :: (if bool_decide (source = "")
                           then [detect_request content] else [])
  | Raise err =>
      translate_content env content target source w
      = (Raise err,
         {| active_connections := active_connections w;
            trace := trace w ++ [ChatCompletion request;
                                 Log ERROR "Failed to translate content: {e}";
                                 Log ERROR "Translation error type: {type(e)}"] |})
  end.
Proof.
  intros request.
  destruct (openai_chat_create env request) as [translated|err] eqn:Hr.
  - unfold translate_content. rewrite try_except_run, bind_run.
    unfold call at 1. fold request. rewrite Hr. rewrite bind_run.
    case_bool_decide as Hsrc.
    + destruct (_detect_language_run env content
                 {| active_connections := active_connections w;
                    trace := trace w ++ [ChatCompletion request] |})
        as (w' & -> & Ha & logs & Ht & Hlogs).
      cbn [mret IO_ret]. exists w'. split_and!; [done | done |].
      rewrite Ht. cbn [trace].
      rewrite !llm_calls_app, !llm_calls_cons, Hlogs. cbn.
      by rewrite <- app_assoc.
    + cbn [mret IO_ret]. eexists. split_and!; [reflexivity | done |].
      cbn [trace]. by rewrite llm_calls_app.
  - by apply translate_content_fails.
Qed.

End Translation.

Section Context.
Import VectorStoreService LLMService ChatEndpoints.
Variable env : Env.
Local Abbreviation dimension := (VECTOR_DIMENSION (settings env)).
Local Abbreviation upstream :=
  (bedrock_invoke_model env (EMBEDDING_MODEL_ID (settings env))).

(** The gate on chunks some of which are long enough starts with the
    request for the answer. *)
Lemma process_query_first_call (query : string) (chunks : list string) (w : World) :
  is_pure_greeting query = false →
  List.filter long_enough chunks ≠ [] →
  ∃ r w' rest,
    process_query_with_context env query (VStr <$> chunks) w = (r, w')
    ∧ llm_calls (trace w')
      = llm_calls (trace w)
        ++ answer_request query (join (nl +:+ nl) (List.filter long_enough chunks))
           :: rest.
Proof.
  intros Hg Hkept.
  destruct (openai_chat_create env
              (answer_request query
                 (join (nl +:+ nl) (List.filter long_enough chunks))))
    as [ai|err] eqn:Hans.
  - destruct (process_query_generate env query chunks ai w Hg Hkept Hans)
      as (r & w' & rest & Hrun & Hcalls & _).
    exists (Ok r), w', (detect_request query :: rest). by split.
  - unfold process_query_with_context. rewrite Hg.
    rewrite bool_decide_eq_false_2 by (by destruct chunks).
    rewrite bind_run, meaningful_strs.
    rewrite bool_decide_eq_false_2 by done.
    rewrite bind_run, (generate_response_fails env _ _ err) by done.
    eexists _, _, []. split; [reflexivity|].
    cbn [trace]. by rewrite llm_calls_app.
Qed.

(** X20. What the model is given to answer from.  When the text of
    [POST /message] is no greeting and is embedded, and the store
    answers the query with vectors whose chunk texts are strings, some
    of them longer than 20 characters once trimmed, the first
    completion request has two turns: the system turn is the
    instruction to answer from the context only, followed after a blank
    line by "Context:" and, on the next line, exactly those longer
    chunks, untrimmed, in the order of the store's answer and separated
    by blank lines; the user turn is the message as it was sent. *)
Theorem send_message_context (chat_message : ChatMessage) (e : list Q)
    (response : QueryResponse) (chunks : list string) (w : World) :
  is_pure_greeting (message chat_message) = false →
  upstream (message chat_message) = Ok (Some e) →
  s3vectors_query_vectors env
    (query_request env (fit_dimension dimension e)
       (VInt (organisation_id chat_message)) (VInt (project_id chat_message)) 5)
  = Ok response →
  extract_chunks response = VStr <$> chunks →
  List.filter long_enough chunks ≠ [] →
  let newline := String "010"%char "" in
  let context := join (newline +:+ newline) (List.filter long_enough chunks) in
  ∃ rest,
    llm_calls (trace (snd (send_message env chat_message w)))
    = llm_calls (trace w)
      ++ {| model := "gpt-3.5-turbo";
            messages :=
              [("system",
                "You are a helpful assistant. ONLY use the provided context to answer the user's question. If the context does not contain relevant information to answer the question, respond with exactly: 'No context found for your query.' Do not provide general information or suggestions."
                +:+ newline +:+ newline +:+ "Context:" +:+ newline +:+ context);
               ("user", message chat_message)];
            max_tokens := 500;
            temperature := 7 # 10 |}
         :: rest.
Proof.
  intros Hg Hup Hstore Hchunks Hkept newline context.
  unfold send_message. rewrite try_except_run, bind_run.
  unfold answer_query. rewrite bind_run.
  destruct (get_embeddings_one env (message chat_message) e w Hup)
    as (w1 & -> & Ha1 & Hl1 & Hf1).
  cbn [first]. rewrite bind_run. cbn [mret IO_ret]. rewrite bind_run.
  destruct (query_vectors_run env (fit_dimension dimension e)
              (VInt (organisation_id chat_message))
              (VInt (project_id chat_message)) 5 w1)
    as (w2 & (Ha2 & Hl2 & Hf2) & ->).
  rewrite Hstore, Hchunks.
  destruct (process_query_first_call (message chat_message) chunks w2 Hg Hkept)
    as (r & w3 & rest & -> & Hcalls).
  exists rest.
  change {| model := "gpt-3.5-turbo"; messages := _; max_tokens := 500;
            temperature := 7 # 10 |}
    with (answer_request (message chat_message)
            (join (nl +:+ nl) (List.filter long_enough chunks))).
  rewrite <- Hl1, <- Hl2, <- Hcalls.
  destruct r as [ai|err].
  - destruct (ChatResponse_init _) as [resp|err]; [done|].
    io_unfold. cbn [snd trace]. rewrite llm_calls_app. cbn. by rewrite app_nil_r.
  - io_unfold. cbn [snd trace]. rewrite llm_calls_app. cbn. by rewrite app_nil_r.
Qed.

End Context.

Section ContextWitness.
Import VectorStoreService LLMService ChatEndpoints.

Lemma send_message_context_witness :
  let newline := String "010"%char "" in
  let context := join (newline +:+ newline) (List.filter long_enough [policy_chunk]) in
  ∃ rest,
    llm_calls (trace (snd (send_message policy_env policy_message w0)))
    = llm_calls (trace w0)
      ++ {| model := "gpt-3.5-turbo";
            messages :=
              [("system",
                "You are a helpful assistant. ONLY use the provided context to answer the user's question. If the context does not contain relevant information to answer the question, respond with exactly: 'No context found for your query.' Do not provide general information or suggestions."
                +:+ newline +:+ newline +:+ "Context:" +:+ newline +:+ context);
               ("user", message policy_message)];
            max_tokens := 500;
            temperature := 7 # 10 |}
         :: rest.
Proof.
  apply (send_message_context policy_env policy_message [1; 0; 0; 0; 1; 1]%Q
           {| vectors := Some [stored "a_0" 1 1 policy_chunk] |}).
  - reflexivity.
  - reflexivity.
  - reflexivity.
  - reflexivity.
  - vm_compute. discriminate.
Defined.

(** A query in French whose answer comes back in French. *)
Example translate_content_detects_source :
  fst (translate_content french_env "Bonjour" "English" "" w0)
  = Ok {| translated_content := policy_answer;
          source_language := "French";
          target_language := "English" |}
  ∧ llm_calls (trace (snd (translate_content french_env "Bonjour" "English" "" w0)))
    = [translate_request "Bonjour" "English" ""; detect_request "Bonjour"].
Proof. by vm_compute. Qed.

End ContextWitness.

Section Paths.
Import AudioPaths.

Lemma basename_go_sep (cur a t : string) :
  basename_go cur (a +:+ String "/" t) = basename_go "" t.
Proof.
  revert cur. induction a as [|c a IH]; intros cur.
  - change ("" +:+ String "/" t) with (String "/" t). cbn [basename_go].
    by rewrite bool_decide_eq_true_2.
  - rewrite app_String. cbn [basename_go]. case_bool_decide; apply IH.
Qed.

Lemma basename_go_sepless (cur t : string) :
  sepless t → basename_go cur t = cur +:+ t.
Proof.
  revert cur. induction t as [|c t IH]; intros cur Ht.
  - by rewrite app_empty_r.
  - destruct Ht as [Hc Ht]. cbn [basename_go].
    rewrite bool_decide_eq_false_2 by done. rewrite IH by done.
    by rewrite app_assoc_str.
Qed.

Lemma sepless_app (s t : string) : sepless s → sepless t → sepless (s +:+ t).
Proof.
  induction s as [|c s IH]; [done|]. intros [Hc Hs] Ht.
  rewrite app_String. split; [done | by apply IH].
Qed.

Lemma endswith_sep_app (s t : string) :
  t ≠ "" → endswith_sep (s +:+ t) = endswith_sep t.
Proof.
  intros Ht. induction s as [|c s IH]; [done|].
  rewrite app_String. cbn [endswith_sep]. rewrite IH.
  destruct (s +:+ t) eqn:Hst; [|done].
  destruct s; [by cbn in Hst | by rewrite app_String in Hst].
Qed.

(** Joining a relative name that ends in no ["/"] gives a path that is
    not empty, ends in no ["/"], and ends with the name after a ["/"]
    unless the directory is empty. *)
Lemma os_path_join_relative (a b : string) :
  startswith_sep b = false → b ≠ "" → endswith_sep b = false →
  os_path_join a b ≠ "" ∧ endswith_sep (os_path_join a b) = false
  ∧ ∀ name, startswith_sep name = false →
            os_path_join (os_path_join a b) name = os_path_join a b +:+ "/" +:+ name.
Proof.
  intros Hrel Hne Hend.
  assert (H1 : os_path_join a b ≠ "").
  { unfold os_path_join. rewrite Hrel.
    destruct (bool_decide (a = "") || endswith_sep a);
      destruct a; try done; by destruct b. }
  assert (H2 : endswith_sep (os_path_join a b) = false).
  { unfold os_path_join. rewrite Hrel.
    destruct (bool_decide (a = "") || endswith_sep a).
    - by rewrite endswith_sep_app.
    - rewrite endswith_sep_app by done.
      change ("/" +:+ b) with (String "/" b). cbn [endswith_sep].
      by destruct b. }
  split_and!; [done | done |].
  intros name Hname. unfold os_path_join at 1. rewrite Hname, H2.
  by rewrite bool_decide_eq_false_2.
Qed.

(** X21. The URL of an audio file names the file that was created.
    Whatever the base directory, when the directory can be made and
    neither the unique id nor the extension holds a ["/"],
    [create_temp_audio_file] returns the path
    [<static>/audio/audio_<id>.<extension>], [<static>] being the
    directory the application serves under ["/static"], without a log
    record; and [get_audio_url] turns that path into
    ["/static/audio/audio_<id>.<extension>"]. *)
Theorem audio_url_of_temp_file (env : AudioEnv) (extension : string) (w : World) :
  os_makedirs env (static_dir env +:+ "/audio") = Ok tt →
  sepless (audio_uuid4 env) → sepless extension →
  let filename := "audio_" +:+ audio_uuid4 env +:+ "." +:+ extension in
  create_temp_audio_file env extension w
  = (Ok (static_dir env +:+ "/audio/" +:+ filename), w)
  ∧ get_audio_url (static_dir env +:+ "/audio/" +:+ filename) w
    = (Ok ("/static/audio/" +:+ filename), w).
Proof.
  intros Hmk Hid Hext filename.
  destruct (os_path_join_relative (BASE_DIR env) "static") as (_ & _ & Hstatic);
    [done..|].
  destruct (os_path_join_relative (static_dir env) "audio") as (_ & _ & Haudio);
    [done..|].
  fold (static_dir env) in Hstatic.
  assert (Hdir : os_path_join (static_dir env) "audio" = static_dir env +:+ "/audio").
  { by apply Hstatic. }
  split.
  - unfold create_temp_audio_file. cbv zeta. fold (static_dir env).
    rewrite try_except_run, bind_run. unfold untraced at 1.
    rewrite Hdir, Hmk. cbn [mret IO_ret]. fold filename.
    rewrite <- Hdir, (Haudio filename) by done. rewrite Hdir.
    by rewrite app_assoc_str.
  - unfold get_audio_url. cbv zeta. rewrite try_except_run. cbn [mret IO_ret].
    unfold os_path_basename.
    change ("/audio/" +:+ filename) with ("/audio" +:+ String "/" filename).
    rewrite <- app_assoc_str, basename_go_sep.
    rewrite basename_go_sepless; [done|].
    subst filename. apply (sepless_app "audio_"); [by repeat split|].
    apply sepless_app; [done|]. apply (sepless_app "."); [by repeat split | done].
Qed.

Lemma audio_url_of_temp_file_witness :
  let filename := "audio_" +:+ audio_uuid4 audio_env +:+ "." +:+ "mp3" in
  create_temp_audio_file audio_env "mp3" w0
  = (Ok (static_dir audio_env +:+ "/audio/" +:+ filename), w0)
  ∧ get_audio_url (static_dir audio_env +:+ "/audio/" +:+ filename) w0
    = (Ok ("/static/audio/" +:+ filename), w0).
Proof.
  apply (audio_url_of_temp_file audio_env "mp3" w0).
  - reflexivity.
  - vm_compute. by repeat split.
  - vm_compute. by repeat split.
Defined.

(** An extension that holds a ["/"] gives a URL that names another
    file. *)
Example audio_url_with_separator :
  fst (get_audio_url "/srv/static/audio/audio_1.a/b" w0) = Ok "/static/audio/b".
Proof. reflexivity. Qed.

End Paths.

Section HttpIsolation.
Import ChatEndpoints.
Variable env : Env.

Lemma http_event_sends (evs : list Event) : Forall http_event evs → sends evs = [].
Proof.
  induction 1 as [|ev evs Hev _ IH]; [done|].
  change (ev :: evs) with ([ev] ++ evs). rewrite sends_app, IH.
  by destruct ev.
Qed.

Lemma http_session_untouched {A} (m : IO A) (w : World) :
  emits_only http_event m →
  active_connections (snd (m w)) = active_connections w
  ∧ sends (trace (snd (m w))) = sends (trace w)
  ∧ Forall (λ ev, ∀ ws, ev ≠ Accept ws) (drop (length (trace w)) (trace (snd (m w)))).
Proof.
  intros Hm. destruct (Hm w) as (Ha & evs & Ht & Hev).
  split_and!; [done | |].
  - rewrite Ht, sends_app, (http_event_sends evs) by done. by rewrite app_nil_r.
  - rewrite Ht, drop_app_length. eapply Forall_impl; [exact Hev|].
    intros ev Hhttp ws ->. exact Hhttp.
Qed.

(** X22. The HTTP endpoints stay clear of the realtime sessions:
    whatever the request and whatever fails, [POST /message] and [POST
    /chat] leave the list of connections as it is, send no frame to any
    socket and accept none. *)
Theorem http_leaves_sessions_alone (w : World) :
  (∀ chat_message,
     let w' := snd (send_message env chat_message w) in
     active_connections w' = active_connections w
     ∧ sends (trace w') = sends (trace w)
     ∧ Forall (λ ev, ∀ ws, ev ≠ Accept ws) (drop (length (trace w)) (trace w')))
  ∧ (∀ text audio organisation_id project_id,
       let w' := snd (chat env text audio organisation_id project_id w) in
       active_connections w' = active_connections w
       ∧ sends (trace w') = sends (trace w)
       ∧ Forall (λ ev, ∀ ws, ev ≠ Accept ws) (drop (length (trace w)) (trace w'))).
Proof.
  split.
  - intros chat_message. apply http_session_untouched, send_message_emits.
  - intros text audio org proj. apply http_session_untouched, chat_emits.
Qed.

End HttpIsolation.
